(** * TikTok scrape service: result cache, keyword annotation, harvesting

    A shallow embedding of [TiktokScrapService] (tiktok-scrap.service.ts):
    the text matcher ([norm], [contains]), the LRU result cache ([lruKeyRaw],
    [lruGet], [lruSet]), the search-URL builder ([buildSearchUrl]), the comment
    harvester ([extractComments]), the field resolution of [extractFromPage],
    the navigator ([goToNextVideo]) and the request entry point
    ([scrapeAnnotateAndCache]). *)

From Stdlib Require Import String Ascii DecimalString DecimalN.
From Stdlib Require Import ZArith NArith List Bool Lia.
From Equations Require Import Equations.
Import ListNotations.

Set Implicit Arguments.

(** ** JavaScript strings

    A JavaScript string is a sequence of UTF-16 code units. *)

Definition jsstring := list N.

(** An ASCII literal of the source, as code units. *)
Definition lit (s : string) : jsstring :=
  map N_of_ascii (list_ascii_of_string s).

Definition isEmpty (s : jsstring) : bool :=
  match s with [] => true | _ => false end.

Definition jsstring_eqb (a b : jsstring) : bool :=
  if list_eq_dec N.eq_dec a b then true else false.

(** [a ?? b] on nullable values. *)
Definition nullish {A} (a b : option A) : option A :=
  match a with Some _ => a | None => b end.

Infix "??" := nullish (at level 61, left associativity).

(** [s ?? ''] *)
Definition orEmpty (s : option jsstring) : jsstring :=
  match s with Some x => x | None => [] end.

(** Truthiness of a nullable string: neither null/undefined nor [""]. *)
Definition truthy (s : option jsstring) : bool :=
  match s with Some (_ :: _) => true | _ => false end.

(** [String.prototype.startsWith] and [String.prototype.includes]. *)
Fixpoint startsWith (h n : jsstring) {struct n} : bool :=
  match n, h with
  | [], _ => true
  | _ :: _, [] => false
  | a :: n', b :: h' => N.eqb a b && startsWith h' n'
  end.

Fixpoint includes (h n : jsstring) : bool :=
  startsWith h n ||
  match h with
  | [] => false
  | _ :: h' => includes h' n
  end.

(** ECMAScript WhiteSpace and LineTerminator code units: the set removed by
    [String.prototype.trim] and matched by [\s]. *)
Definition isWhiteSpace (u : N) : bool :=
  ((9 <=? u) && (u <=? 13) || (u =? 32) || (u =? 160) || (u =? 5760)
   || (8192 <=? u) && (u <=? 8202) || (u =? 8232) || (u =? 8233)
   || (u =? 8239) || (u =? 8287) || (u =? 12288) || (u =? 65279))%N.

Fixpoint trimStart (s : jsstring) : jsstring :=
  match s with
  | u :: s' => if isWhiteSpace u then trimStart s' else s
  | [] => []
  end.

Definition trimEnd (s : jsstring) : jsstring := rev (trimStart (rev s)).

Definition trim (s : jsstring) : jsstring := trimEnd (trimStart s).

(** [s.replace(/\s+/g, ' ')]: every maximal run of white space becomes one
    space. *)
Fixpoint collapseFrom (inRun : bool) (s : jsstring) : jsstring :=
  match s with
  | [] => []
  | u :: s' =>
      if isWhiteSpace u
      then (if inRun then [] else [32%N]) ++ collapseFrom true s'
      else u :: collapseFrom false s'
  end.

Definition collapseWhiteSpace (s : jsstring) : jsstring := collapseFrom false s.

(** [s.replace(/\//g, ' ')] *)
Definition slashesToSpaces (s : jsstring) : jsstring :=
  map (fun u => if N.eqb u 47 then 32%N else u) s.

Definition asciiLower (u : N) : N :=
  if ((65 <=? u) && (u <=? 90))%N then (u + 32)%N else u.

(** [h] without the prefix [n], compared without regard to ASCII case. *)
Fixpoint afterPrefixCI (h n : jsstring) {struct n} : option jsstring :=
  match n, h with
  | [], _ => Some h
  | _ :: _, [] => None
  | a :: n', b :: h' =>
      if N.eqb (asciiLower a) (asciiLower b) then afterPrefixCI h' n' else None
  end.

(** The rest of [s] after a match of [/^https?:\/\//i]. *)
Definition afterScheme (s : jsstring) : option jsstring :=
  match afterPrefixCI s (lit "http://") with
  | Some r => Some r
  | None => afterPrefixCI s (lit "https://")
  end.

(** *** UTF-16

    A regular expression with the [u] flag sees code points: a high surrogate
    followed by a low surrogate is one code point, any other unit stands for
    itself. *)
Definition isHighSurrogate (u : N) : bool := ((55296 <=? u) && (u <=? 56319))%N.
Definition isLowSurrogate (u : N) : bool := ((56320 <=? u) && (u <=? 57343))%N.

Fixpoint decodeUTF16 (s : jsstring) : list N :=
  match s with
  | [] => []
  | h :: s' =>
      match s' with
      | l :: s'' =>
          if isHighSurrogate h && isLowSurrogate l
          then (65536 + (h - 55296) * 1024 + (l - 56320))%N :: decodeUTF16 s''
          else h :: decodeUTF16 s'
      | [] => [h]
      end
  end.

Definition encodeCodePoint (c : N) : jsstring :=
  if (c <? 65536)%N then [c]
  else [(55296 + (c - 65536) / 1024)%N; (56320 + (c - 65536) mod 1024)%N].

Definition encodeUTF16 (cs : list N) : jsstring := flat_map encodeCodePoint cs.

(** ** The JavaScript runtime

    The service relies on built-ins whose results come from the Unicode
    character database and from the WHATWG URL parser of the runtime, not
    from this repository.  They are operations of a class; the theorems hold
    for every runtime, the evaluated examples use [RefRuntime] below. *)

Record URL := mkURL {
  hostname : jsstring;
  pathname : jsstring;
  (** [searchParams.get('q')] *)
  searchParams_q : option jsstring
}.

Class JsRuntime := {
  (** [String.prototype.toLowerCase] *)
  toLowerCase : jsstring -> jsstring;
  (** [String.prototype.normalize('NFD')] *)
  normalizeNFD : jsstring -> jsstring;
  (** the Unicode property [Diacritic], on code points *)
  isDiacritic : N -> bool;
  (** [new URL(s)]; [None] when the constructor throws a TypeError *)
  parseURL : jsstring -> option URL;
  toLowerCase_empty : toLowerCase [] = [];
  normalizeNFD_empty : normalizeNFD [] = []
}.

(** *** Text matching helpers (norm / contains) *)

(** [s.replace(/\p{Diacritic}/gu, '')] *)
Definition removeDiacritics `{JsRuntime} (s : jsstring) : jsstring :=
  encodeUTF16 (filter (fun c => negb (isDiacritic c)) (decodeUTF16 s)).

Definition norm `{JsRuntime} (s : option jsstring) : jsstring :=
  removeDiacritics (normalizeNFD (toLowerCase (orEmpty s))).

Definition contains `{JsRuntime} (haystack needle : option jsstring) : bool :=
  let h := norm haystack in
  let n := norm needle in
  negb (isEmpty n) && includes h n.

(** *** A reference runtime

    [RefRuntime] implements the built-ins on Basic Latin and Latin-1
    Supplement text (code units up to U+00FF, with the combining marks their
    decompositions produce) and on plain [http(s)://host/path?query] URLs
    without credentials, port or escapes.  It is used to evaluate examples
    only. *)

Definition latin1Lower (u : N) : N :=
  if ((65 <=? u) && (u <=? 90) ||
      (192 <=? u) && (u <=? 222) && negb (u =? 215))%N
  then (u + 32)%N else u.

(** Canonical decomposition of the letters U+00C0..U+00DE, by offset from
    U+00C0: base letter and combining mark. *)
Definition latin1Decomposition (k : N) : option (N * N) :=
  match k with
  | 0 => Some (65, 768) | 1 => Some (65, 769) | 2 => Some (65, 770)
  | 3 => Some (65, 771) | 4 => Some (65, 776) | 5 => Some (65, 778)
  | 7 => Some (67, 807)
  | 8 => Some (69, 768) | 9 => Some (69, 769) | 10 => Some (69, 770)
  | 11 => Some (69, 776)
  | 12 => Some (73, 768) | 13 => Some (73, 769) | 14 => Some (73, 770)
  | 15 => Some (73, 776)
  | 17 => Some (78, 771)
  | 18 => Some (79, 768) | 19 => Some (79, 769) | 20 => Some (79, 770)
  | 21 => Some (79, 771) | 22 => Some (79, 776)
  | 25 => Some (85, 768) | 26 => Some (85, 769) | 27 => Some (85, 770)
  | 28 => Some (85, 776)
  | 29 => Some (89, 769)
  | _ => None
  end%N.

Definition latin1NFD (u : N) : jsstring :=
  if (u =? 255)%N then [121; 776]%N
  else if ((192 <=? u) && (u <=? 222))%N then
    match latin1Decomposition (u - 192) with
    | Some (b, m) => [b; m]
    | None => [u]
    end
  else if ((224 <=? u) && (u <=? 254))%N then
    match latin1Decomposition (u - 224) with
    | Some (b, m) => [(b + 32)%N; m]
    | None => [u]
    end
  else [u].

(** Code points up to U+036F with the property [Diacritic]. *)
Definition latin1Diacritic (c : N) : bool :=
  ((c =? 94) || (c =? 96) || (c =? 168) || (c =? 175) || (c =? 180)
   || (c =? 183) || (c =? 184) || (688 <=? c) && (c <=? 846)
   || (848 <=? c) && (c <=? 855) || (861 <=? c) && (c <=? 866))%N.

(** The longest prefix of units that fail [stop], and what follows it. *)
Fixpoint splitAtFirst (stop : N -> bool) (s : jsstring) : jsstring * jsstring :=
  match s with
  | [] => ([], [])
  | u :: s' =>
      if stop u then ([], s)
      else let (a, b) := splitAtFirst stop s' in (u :: a, b)
  end.

(** The value of the first [q=...] pair of a query string. *)
Fixpoint queryGetQ (fuel : nat) (query : jsstring) : option jsstring :=
  match fuel with
  | O => None
  | S fuel' =>
      let (pair, rest) := splitAtFirst (N.eqb 38) query in
      let (name, value) := splitAtFirst (N.eqb 61) pair in
      if jsstring_eqb name (lit "q") && negb (isEmpty pair)
      then Some (tl value)
      else match rest with
           | _ :: rest' => queryGetQ fuel' rest'
           | [] => None
           end
  end.

Definition refParseURL (s : jsstring) : option URL :=
  match afterScheme (trim s) with
  | None => None
  | Some r =>
      let isDelim := fun u => (N.eqb u 47 || N.eqb u 63 || N.eqb u 35) in
      let (host, r1) := splitAtFirst isDelim r in
      let (path, r2) := splitAtFirst (fun u => N.eqb u 63 || N.eqb u 35) r1 in
      let query := match r2 with
                   | 63%N :: q => fst (splitAtFirst (N.eqb 35) q)
                   | _ => []
                   end in
      if isEmpty host then None
      else Some {| hostname := map asciiLower host;
                   pathname := if isEmpty path then lit "/" else path;
                   searchParams_q := queryGetQ (S (length query)) query |}
  end.

#[export] Instance RefRuntime : JsRuntime := {|
  toLowerCase := map latin1Lower;
  normalizeNFD := flat_map latin1NFD;
  isDiacritic := latin1Diacritic;
  parseURL := refParseURL;
  toLowerCase_empty := eq_refl;
  normalizeNFD_empty := eq_refl
|}.

(** ** Data model *)

Record ScrapedComment := {
  comment_username : jsstring;
  comment_text : jsstring;
  comment_time : option jsstring;
  comment_likes : option N
}.

(** [ScrapedItem]; an optional or nullable field is an [option]. *)
Record ScrapedItem := {
  url : jsstring;
  title : option jsstring;
  description : option jsstring;
  caption : option jsstring;
  username : option jsstring;
  authorUrl : option jsstring;
  videoSrc : option jsstring;
  comments : option (list ScrapedComment);
  keywordMentioned : option bool
}.

(** Telemetry of a run, carried unchanged by the cache; time stamps and
    durations are in milliseconds. *)
Record PerVideoMetrics := {
  index : N;
  startedAt : Z;
  endedAt : Z;
  extractionMs : Z;
  movedToNextMs : option Z;
  commentsCount : N;
  navAttempts : N;
  navSucceeded : bool;
  errors : list jsstring
}.

Record ScrapeRunMetrics := {
  queryOrStartUrl : option jsstring;
  videosTargeted : N;
  videosScraped : N;
  navFailures : N;
  captchas : N;
  totalComments : N;
  perVideo : list PerVideoMetrics
}.

(** ** Annotation (the map and the filter of [scrapeAnnotateAndCache]) *)

(** [{ ...v, keywordMentioned: b }] *)
Definition withKeywordMentioned (v : ScrapedItem) (b : bool) : ScrapedItem :=
  {| url := url v; title := title v; description := description v;
     caption := caption v; username := username v; authorUrl := authorUrl v;
     videoSrc := videoSrc v; comments := comments v;
     keywordMentioned := Some b |}.

(** [v.comments ?? []] *)
Definition commentsOf (v : ScrapedItem) : list ScrapedComment :=
  match comments v with Some cs => cs | None => [] end.

Definition mentioned `{JsRuntime} (keyword : option jsstring) (v : ScrapedItem)
  : bool :=
  contains (description v) keyword ||
  existsb (fun c => contains (Some (comment_text c)) keyword) (commentsOf v).

Definition annotateItem `{JsRuntime} (keyword : option jsstring)
  (v : ScrapedItem) : ScrapedItem :=
  withKeywordMentioned v (mentioned keyword v).

Definition annotate `{JsRuntime} (keyword : option jsstring)
  (items : list ScrapedItem) : list ScrapedItem :=
  map (annotateItem keyword) items.

(** The callback [v => v.keywordMentioned] of the filter. *)
Definition isMatched (v : ScrapedItem) : bool :=
  match keywordMentioned v with Some true => true | _ => false end.

Definition filterMatched (showVideoOnlyWithMatchKeyword : bool)
  (annotated : list ScrapedItem) : list ScrapedItem :=
  if showVideoOnlyWithMatchKeyword then filter isMatched annotated
  else annotated.

(** ** The object store

    Arrays and item objects are JavaScript objects, held by reference: the
    cache entry, the value returned by [lruGet] and the result of a scrape
    share one array.  An object is addressed by its allocation index; the
    service allocates ([Array.prototype.map], [filter], [push] on a new array,
    object literals and spreads) and never assigns to a field or an element of
    an object it has stored.  A spread copies the reference to the comments of
    an item; no code writes to a comment array once it is built, so the
    comments are a value inside the item. *)

Definition loc := nat.

Inductive object :=
| ItemObject (v : ScrapedItem)
| ItemArray (elems : list loc).

Definition heap := list object.

Definition alloc (o : object) (h : heap) : loc * heap :=
  (List.length h, h ++ [o]).

Definition readItem (h : heap) (l : loc) : option ScrapedItem :=
  match nth_error h l with Some (ItemObject v) => Some v | _ => None end.

Definition readArray (h : heap) (l : loc) : option (list loc) :=
  match nth_error h l with Some (ItemArray ls) => Some ls | _ => None end.

Fixpoint readAll (h : heap) (ls : list loc) : option (list ScrapedItem) :=
  match ls with
  | [] => Some []
  | l :: ls' =>
      match readItem h l, readAll h ls' with
      | Some v, Some vs => Some (v :: vs)
      | _, _ => None
      end
  end.

(** The items an array reference stands for. *)
Definition readItems (h : heap) (a : loc) : option (list ScrapedItem) :=
  match readArray h a with Some ls => readAll h ls | None => None end.

(** One object literal per element, in order; the new references. *)
Fixpoint allocItems (vs : list ScrapedItem) (h : heap) : list loc * heap :=
  match vs with
  | [] => ([], h)
  | v :: vs' =>
      let (l, h1) := alloc (ItemObject v) h in
      let (ls, h2) := allocItems vs' h1 in
      (l :: ls, h2)
  end.

(** [raw.items.map(v => ({ ...v, keywordMentioned }))]: a new array of new
    objects.  [None] stands for a dangling reference. *)
Definition annotateArray `{JsRuntime} (keyword : option jsstring) (a : loc)
  (h : heap) : option (loc * heap) :=
  match readItems h a with
  | None => None
  | Some vs =>
      let (ls, h1) := allocItems (annotate keyword vs) h in
      Some (alloc (ItemArray ls) h1)
  end.

(** [annotated.filter(v => v.keywordMentioned)]: a new array holding the
    references of the matched objects. *)
Definition filterArray (a : loc) (h : heap) : option (loc * heap) :=
  match readArray h a with
  | None => None
  | Some ls =>
      Some (alloc (ItemArray
              (filter (fun l => match readItem h l with
                                | Some v => isMatched v
                                | None => false
                                end) ls)) h)
  end.

(** ** The LRU result cache

    [this.lru] is a [Map]: it iterates in insertion order and holds a key at
    most once.  It is a list of bindings, oldest first. *)

Record CacheEntry := {
  items : loc;
  metrics : ScrapeRunMetrics;
  createdAt : Z
}.

Definition cache := list (jsstring * CacheEntry).

Record Config := {
  CACHE_TTL_MS : Z;
  CACHE_MAX_ENTRIES : Z
}.

Definition mapGet (key : jsstring) (m : cache) : option CacheEntry :=
  match find (fun kv => jsstring_eqb (fst kv) key) m with
  | Some kv => Some (snd kv)
  | None => None
  end.

Definition mapDelete (key : jsstring) (m : cache) : cache :=
  filter (fun kv => negb (jsstring_eqb (fst kv) key)) m.

(** [Map.prototype.set] for a key that was deleted just before. *)
Definition mapAppend (key : jsstring) (e : CacheEntry) (m : cache) : cache :=
  m ++ [(key, e)].

Definition keysOf (m : cache) : list jsstring := map fst m.

(** A [Map] holds each key once. *)
Definition wellFormed (m : cache) : Prop := NoDup (keysOf m).

(** [`${maxCount}`] for a count (a natural number below 10^21, which
    JavaScript prints without an exponent): its decimal digits. *)
Definition renderCount (n : N) : jsstring :=
  lit (NilEmpty.string_of_uint (N.to_uint n)).

Definition lruKeyRaw `{JsRuntime} (search : option jsstring) (maxCount : N)
  : jsstring :=
  let s := toLowerCase (trim (orEmpty search)) in
  s ++ lit "+" ++ renderCount maxCount.

Definition lruGet (cfg : Config) (now : Z) (key : jsstring) (m : cache)
  : option CacheEntry * cache :=
  match mapGet key m with
  | None => (None, m)
  | Some hit =>
      if (CACHE_TTL_MS cfg >? 0)%Z && (now - createdAt hit >? CACHE_TTL_MS cfg)%Z
      then (None, mapDelete key m)
      else (Some hit, mapAppend key hit (mapDelete key m))
  end.

(** The eviction loop of [lruSet]: while the size exceeds the capacity, delete
    the first key in iteration order.  On an empty map there is no first key,
    [delete(undefined)] removes nothing and the loop, entered with a negative
    capacity, does not end: [None]. *)
Fixpoint evictOldest (max : Z) (m : cache) : option cache :=
  match m with
  | [] => if (0 >? max)%Z then None else Some []
  | _ :: m' =>
      if (Z.of_nat (List.length m) >? max)%Z then evictOldest max m'
      else Some m
  end.

Definition lruSet (cfg : Config) (now : Z) (key : jsstring)
  (value : loc * ScrapeRunMetrics) (m : cache) : option cache :=
  let m1 := if existsb (fun kv => jsstring_eqb (fst kv) key) m
            then mapDelete key m else m in
  let m2 := mapAppend key
              {| items := fst value; metrics := snd value; createdAt := now |}
              m1 in
  evictOldest (CACHE_MAX_ENTRIES cfg) m2.

(** ** Building the search URL *)

Inductive outcome (A : Type) :=
| Returns (a : A)
| Throws (message : jsstring)
| Diverges.
Arguments Throws {A} message.
Arguments Diverges {A}.

Definition hexDigit (d : N) : N := if (d <? 10)%N then (48 + d)%N else (55 + d)%N.

Definition percentEncode (b : N) : jsstring :=
  [37%N; hexDigit (b / 16); hexDigit (b mod 16)].

Definition utf8 (c : N) : list N :=
  (if c <? 128 then [c]
   else if c <? 2048 then [192 + c / 64; 128 + c mod 64]
   else if c <? 65536
        then [224 + c / 4096; 128 + (c / 64) mod 64; 128 + c mod 64]
        else [240 + c / 262144; 128 + (c / 4096) mod 64;
              128 + (c / 64) mod 64; 128 + c mod 64])%N.

(** The characters [encodeURIComponent] leaves as they are:
    [A-Z a-z 0-9 - _ . ! ~ * ' ( )]. *)
Definition isUnreserved (c : N) : bool :=
  ((65 <=? c) && (c <=? 90) || (97 <=? c) && (c <=? 122)
   || (48 <=? c) && (c <=? 57) || (c =? 45) || (c =? 95) || (c =? 46)
   || (c =? 33) || (c =? 126) || (c =? 42) || (c =? 39) || (c =? 40)
   || (c =? 41))%N.

Fixpoint encodePoints (cs : list N) : option jsstring :=
  match cs with
  | [] => Some []
  | c :: cs' =>
      if isHighSurrogate c || isLowSurrogate c then None
      else match encodePoints cs' with
           | None => None
           | Some r =>
               Some ((if isUnreserved c then [c]
                      else flat_map percentEncode (utf8 c)) ++ r)
           end
  end.

(** [encodeURIComponent]; [None] is the URIError raised on a lone
    surrogate. *)
Definition encodeURIComponent (s : jsstring) : option jsstring :=
  encodePoints (decodeUTF16 s).

Definition searchUrlFor (q : jsstring) : outcome jsstring :=
  match encodeURIComponent q with
  | Some e => Returns (lit "https://www.tiktok.com/search?q=" ++ e)
  | None => Throws (lit "URI malformed")
  end.

Definition buildSearchUrl `{JsRuntime} (input : option jsstring)
  : outcome jsstring :=
  let s := trim (orEmpty input) in
  if isEmpty s then Throws (lit "Empty search query")
  else match afterScheme s with
       | Some _ =>
           match parseURL s with
           | None => Throws (lit "Invalid URL")
           | Some url =>
               if negb (includes (hostname url) (lit "tiktok.com"))
               then Throws (lit "Not a TikTok URL")
               else
                 let q := orEmpty (searchParams_q url) in
                 if isEmpty q
                 then searchUrlFor (trim (slashesToSpaces (pathname url)))
                 else searchUrlFor q
           end
       | None => searchUrlFor s
       end.

(** ** A scrape run *)

(** What [extractFromPage] returns. *)
Record ExtractedInfo := {
  info_title : option jsstring;
  info_description : option jsstring;
  info_caption : option jsstring;
  info_username : option jsstring;
  info_authorUrl : option jsstring;
  info_videoSrc : option jsstring;
  info_url : jsstring;
  info_comments : list ScrapedComment
}.

(** The object literal pushed on [items]: it has no [keywordMentioned]. *)
Definition itemOfInfo (info : ExtractedInfo) : ScrapedItem :=
  {| url := info_url info; title := info_title info;
     description := info_description info; caption := info_caption info;
     username := info_username info; authorUrl := info_authorUrl info;
     videoSrc := info_videoSrc info; comments := Some (info_comments info);
     keywordMentioned := None |}.

(** The browser side of a run, as seen by [scrapeFromSearch]: whether
    launching the browser and opening the page rejects (with which message),
    and what opening the first video and walking the videos yields for a
    search URL and a target count. *)
Record BrowserRun := {
  setup : option jsstring;
  traverse : jsstring -> N -> outcome (list ExtractedInfo * ScrapeRunMetrics)
}.

(** [scrapeFromSearch]: the page is opened first, the search URL is built
    inside the [try]; the result is a new array of new item objects. *)
Definition scrapeFromSearch `{JsRuntime} (run : BrowserRun)
  (search : option jsstring) (maxCount : N) (h : heap)
  : outcome (loc * ScrapeRunMetrics * heap) :=
  match setup run with
  | Some e => Throws e
  | None =>
      match buildSearchUrl search with
      | Throws e => Throws e
      | Diverges => Diverges
      | Returns searchUrl =>
          match traverse run searchUrl maxCount with
          | Throws e => Throws e
          | Diverges => Diverges
          | Returns (infos, m) =>
              let (ls, h1) := allocItems (map itemOfInfo infos) h in
              let (a, h2) := alloc (ItemArray ls) h1 in
              Returns (a, m, h2)
          end
      end
  end.

(** ** Annotate + cache *)

Record Service := {
  lru : cache;
  store : heap
}.

Record Response := {
  resp_key : jsstring;
  resp_items : loc;
  resp_metrics : ScrapeRunMetrics;
  fromCache : bool
}.

(** The tail of [scrapeAnnotateAndCache]: annotate [raw.items], filter when
    asked, answer. *)
Definition respond `{JsRuntime} (rawKey : jsstring) (keyword : option jsstring)
  (showVideoOnlyWithMatchKeyword : bool) (hit : bool)
  (rawItems : loc) (rawMetrics : ScrapeRunMetrics) (m : cache) (h : heap)
  : outcome Response * Service :=
  match annotateArray keyword rawItems h with
  | None => (Throws (lit "TypeError"), {| lru := m; store := h |})
  | Some (annotated, h1) =>
      match (if showVideoOnlyWithMatchKeyword
             then filterArray annotated h1 else Some (annotated, h1)) with
      | None => (Throws (lit "TypeError"), {| lru := m; store := h1 |})
      | Some (out, h2) =>
          (Returns {| resp_key := rawKey; resp_items := out;
                      resp_metrics := rawMetrics; fromCache := hit |},
           {| lru := m; store := h2 |})
      end
  end.

(** [nowGet] and [nowSet] are the readings of [Date.now()] inside [lruGet]
    and [lruSet]. *)
Definition scrapeAnnotateAndCache `{JsRuntime} (cfg : Config) (run : BrowserRun)
  (nowGet nowSet : Z) (search keyword : option jsstring) (maxCount : N)
  (showVideoOnlyWithMatchKeyword forceRefresh : bool) (sv : Service)
  : outcome Response * Service :=
  let rawKey := lruKeyRaw search maxCount in
  let (raw, m1) := if forceRefresh then (None, lru sv)
                   else lruGet cfg nowGet rawKey (lru sv) in
  match raw with
  | Some hit =>
      respond rawKey keyword showVideoOnlyWithMatchKeyword true
        (items hit) (metrics hit) m1 (store sv)
  | None =>
      match scrapeFromSearch run search maxCount (store sv) with
      | Throws e => (Throws e, {| lru := m1; store := store sv |})
      | Diverges => (Diverges, {| lru := m1; store := store sv |})
      | Returns (a, mt, h1) =>
          match lruSet cfg nowSet rawKey (a, mt) m1 with
          | None => (Diverges, {| lru := []; store := h1 |})
          | Some m2 =>
              respond rawKey keyword showVideoOnlyWithMatchKeyword false
                a mt m2 h1
          end
      end
  end.

(** Cache admin helpers. *)
Definition clearCacheEntry `{JsRuntime} (search : option jsstring) (maxCount : N)
  (sv : Service) : bool * Service :=
  let key := lruKeyRaw search maxCount in
  (existsb (fun kv => jsstring_eqb (fst kv) key) (lru sv),
   {| lru := mapDelete key (lru sv); store := store sv |}).

Definition clearCacheAll (sv : Service) : nat * Service :=
  (List.length (lru sv), {| lru := []; store := store sv |}).

(** ** The browser

    A page is observed through asynchronous browser calls.  [page B k] is the
    page as the [k]-th call of a run finds it and [latency B k] the time that
    call takes beyond what it was asked to wait; a run threads the clock and
    the number of calls made.  The model covers runs in which the browser
    answers every call. *)

Record CommentNode := {
  textContent : option jsstring;
  (** the result of [findHandleFrom] for the node *)
  handle : option jsstring;
  (** text of the [comment-time] element of the wrapper, when there is one *)
  timeText : option jsstring;
  (** text of the [comment-like-count] element of the wrapper *)
  likeText : option jsstring
}.

Record PageState := {
  pageUrl : jsstring;
  (** [currentSrc] of the video element, when there is one *)
  currentSrc : option jsstring;
  (** [innerText] of the [video-desc] element, when there is one *)
  videoDesc : option jsstring;
  hasMain : bool;
  (** an explicit "next" control is present *)
  nextControl : bool;
  (** whether the [i]-th selector of [openSelectors] matches *)
  openButton : nat -> bool;
  (** the selector derived for the scrollable comment container *)
  containerSel : option jsstring;
  (** the nodes matching [comment-level-1] or [comment-text], in document
      order *)
  commentNodes : list CommentNode
}.

Record Browser := {
  page : nat -> PageState;
  latency : nat -> N
}.

Record World := {
  now : Z;
  calls : nat
}.

Definition current (B : Browser) (w : World) : PageState := page B (calls w).

(** An awaited browser call. *)
Definition call (B : Browser) (w : World) : World :=
  {| now := now w + Z.of_N (latency B (calls w)); calls := S (calls w) |}.

(** [await sleep(ms)] *)
Definition sleep (B : Browser) (ms : Z) (w : World) : World :=
  {| now := now w + ms + Z.of_N (latency B (calls w)); calls := S (calls w) |}.

(** ** Comments extractor *)

Definition isDigit (u : N) : bool := ((48 <=? u) && (u <=? 57))%N.

(** [Number(s.replace(/[^\d]/g, ''))] *)
Definition digitsValue (s : jsstring) : N :=
  fold_left (fun acc u => (10 * acc + (u - 48))%N) (filter isDigit s) 0%N.

(** The body of the extraction loop for one node; [None] is [continue]. *)
Definition commentOfNode (t : CommentNode) : option ScrapedComment :=
  let text := trim (collapseWhiteSpace (orEmpty (textContent t))) in
  if isEmpty text then None
  else
    let time := trim (orEmpty (timeText t)) in
    let likesStr := trim (orEmpty (likeText t)) in
    Some {| comment_username :=
              if truthy (handle t) then orEmpty (handle t) else lit "unknown";
            comment_text := text;
            comment_time := if isEmpty time then None else Some time;
            comment_likes :=
              if isEmpty likesStr then None else Some (digitsValue likesStr) |}.

Fixpoint collectComments (max : nat) (textNodes : list CommentNode)
  (results : list ScrapedComment) : list ScrapedComment :=
  match textNodes with
  | [] => results
  | t :: rest =>
      match commentOfNode t with
      | None => collectComments max rest results
      | Some c =>
          let results' := results ++ [c] in
          if (max <=? List.length results')%nat then results'
          else collectComments max rest results'
      end
  end.

(** The function evaluated in the page after the scroll loop; it ends with
    [results.slice(0, max)]. *)
Definition extractRendered (max : nat) (textNodes : list CommentNode)
  : list ScrapedComment :=
  firstn max (collectComments max textNodes []).

(** Try the open buttons in order; click the first that matches. *)
Fixpoint openPane (B : Browser) (selectors : list nat) (w : World) : World :=
  match selectors with
  | [] => w
  | i :: rest =>
      if openButton (current B w) i
      then sleep B 400 (call B (call B w))
      else openPane B rest (call B w)
  end.

Equations? scrollLoop (B : Browser) (limit : nat) (container : bool)
  (deadline : Z) (lastCount : nat) (w : World) : World
  by wf (Z.to_nat (deadline - now w)) lt :=
  scrollLoop B limit container deadline lastCount w
    with Z_lt_dec (now w) deadline => {
    | right _ := w;
    | left _ :=
        let w1 := sleep B 350 (call B w) in
        let count := List.length (commentNodes (current B w1)) in
        let w2 := call B w1 in
        if (limit <=? count)%nat then w2
        else
          let stalled := (0 <? count)%nat && (count =? lastCount)%nat
                         && container in
          scrollLoop B limit container deadline count
            (if stalled then sleep B 300 (call B w2) else w2) }.
Proof.
  destruct stalled; cbn; lia.
Qed.

(** [extractComments]: press "c", try the open buttons, wait until a comment
    shows (one call; in the code it ends after 3500 ms at the latest), find
    the container, scroll until the deadline, collect. *)
Definition extractComments (B : Browser) (limit : nat) (hardTimeoutMs : Z)
  (w : World) : list ScrapedComment * World :=
  let w1 := sleep B 300 (call B w) in
  let w2 := openPane B (seq 0 6) w1 in
  let w3 := call B w2 in
  let container := containerSel (current B w3) in
  let w4 := call B w3 in
  let deadline := (now w4 + hardTimeoutMs)%Z in
  let w5 := scrollLoop B limit (truthy container) deadline 0 w4 in
  (extractRendered limit (commentNodes (current B w5)), call B w5).

(** ** Page extractor: field resolution of [extractFromPage] *)

(** What the oEmbed endpoint answered. *)
Record OEmbed := {
  oembed_title : option jsstring;
  author_name : option jsstring;
  author_url : option jsstring;
  thumbnail_url : option jsstring
}.

(** What the function evaluated in the page returned. *)
Record DomData := {
  dom_caption : option jsstring;
  dom_username : option jsstring;
  dom_authorUrl : option jsstring;
  dom_videoSrc : option jsstring;
  dom_ogTitle : option jsstring;
  dom_metaDesc : option jsstring;
  dom_url : jsstring
}.

(** [h] without the prefix [n]. *)
Definition afterPrefix (h n : jsstring) : option jsstring :=
  if startsWith h n then Some (skipn (List.length n) h) else None.

(** [s.replace(/^@/, '')] *)
Definition stripAt (s : jsstring) : jsstring :=
  match s with
  | 64%N :: s' => s'
  | _ => s
  end.

Definition isSlash (u : N) : bool := N.eqb u 47.

(** The capture of [/tiktok\.com\/@([^/]+)/] in [u]. *)
Fixpoint usernameFromUrl (u : jsstring) : option jsstring :=
  match u with
  | [] => None
  | _ :: u' =>
      match afterPrefix u (lit "tiktok.com/@") with
      | Some r =>
          let h := fst (splitAtFirst isSlash r) in
          if isEmpty h then usernameFromUrl u' else Some h
      | None => usernameFromUrl u'
      end
  end.

(** The captures of [/\/@([^/]+)\/video\/(\d+)/] at the head of [p]. *)
Definition videoPathHere (p : jsstring) : option (jsstring * jsstring) :=
  match afterPrefix p (lit "/@") with
  | None => None
  | Some r =>
      let (user, r1) := splitAtFirst isSlash r in
      match afterPrefix r1 (lit "/video/") with
      | None => None
      | Some r2 =>
          let vid := fst (splitAtFirst (fun c => negb (isDigit c)) r2) in
          if isEmpty user || isEmpty vid then None else Some (user, vid)
      end
  end.

Fixpoint videoPath (p : jsstring) : option (jsstring * jsstring) :=
  match p with
  | [] => None
  | _ :: p' =>
      match videoPathHere p with
      | Some r => Some r
      | None => videoPath p'
      end
  end.

Definition normalizeVideoUrl `{JsRuntime} (raw : jsstring) : option jsstring :=
  match parseURL raw with
  | None => None
  | Some u =>
      match videoPath (pathname u) with
      | None => None
      | Some (user, vid) =>
          Some (lit "https://www.tiktok.com/@" ++ user ++ lit "/video/" ++ vid)
      end
  end.

(** [x ? x.replace(/^@/, '') : null] *)
Definition strippedIfTruthy (x : option jsstring) : option jsstring :=
  if truthy x then Some (stripAt (orEmpty x)) else None.

Definition field {A} (o : option OEmbed) (f : OEmbed -> option A) : option A :=
  match o with Some x => f x | None => None end.

Definition resolveCaption (oembed : option OEmbed) (domData : DomData)
  : option jsstring :=
  field oembed oembed_title ?? dom_caption domData ?? dom_metaDesc domData.

Definition resolveUsername (oembed : option OEmbed) (currentUrl : jsstring)
  (domData : DomData) : option jsstring :=
  strippedIfTruthy (field oembed author_name)
  ?? usernameFromUrl currentUrl
  ?? strippedIfTruthy (dom_username domData).

Definition resolveFields `{JsRuntime} (currentUrl : jsstring)
  (oembed : option OEmbed) (domData : DomData)
  (comments : list ScrapedComment) : ExtractedInfo :=
  let normalized := normalizeVideoUrl currentUrl in
  let caption := resolveCaption oembed domData in
  let username := resolveUsername oembed currentUrl domData in
  let authorUrl :=
    field oembed author_url
    ?? (if truthy username
        then Some (lit "https://www.tiktok.com/@" ++ orEmpty username)
        else None)
    ?? dom_authorUrl domData in
  let title :=
    dom_ogTitle domData ?? caption
    ?? Some (if truthy normalized then orEmpty normalized else currentUrl) in
  {| info_title := title;
     info_description := caption;
     info_caption := caption;
     info_username := username;
     info_authorUrl := authorUrl;
     info_videoSrc := dom_videoSrc domData;
     info_url := match normalized with
                 | Some n => n
                 | None => dom_url domData
                 end;
     info_comments := comments |}.

(** [ogTitle] as the function evaluated in the page computes it: the content
    of the og:title meta element, else [document.title], which is always a
    string. *)
Definition pageOgTitle (ogTitleContent : option jsstring)
  (documentTitle : jsstring) : option jsstring :=
  ogTitleContent ?? Some documentTitle.

(** ** Navigator: [goToNextVideo] *)

Record NavResult := {
  moved : bool;
  attempts : N;
  tookMs : Z
}.

Record Snapshot := {
  beforeUrl : jsstring;
  beforeVideoSrc : option jsstring;
  beforeCaption : jsstring
}.

Definition looksLikeVideo (u : jsstring) : bool := includes u (lit "/video/").

Definition hasChanged (B : Browser) (snap : Snapshot) (w : World)
  : bool * World :=
  if negb (jsstring_eqb (pageUrl (current B w)) (beforeUrl snap)) then (true, w)
  else
    let curSrc := currentSrc (current B w) in
    let w1 := call B w in
    if truthy (beforeVideoSrc snap) && truthy curSrc
       && negb (jsstring_eqb (orEmpty curSrc) (orEmpty (beforeVideoSrc snap)))
    then (true, w1)
    else
      let curCaption := orEmpty (videoDesc (current B w1)) in
      let w2 := call B w1 in
      if negb (isEmpty curCaption)
         && negb (jsstring_eqb curCaption (beforeCaption snap))
      then (true, w2)
      else (false, w2).

(** The poll after a ladder action: until the local deadline, look for a
    change every 200 ms. *)
Equations? poll (B : Browser) (snap : Snapshot) (localDeadline : Z) (w : World)
  : bool * World by wf (Z.to_nat (localDeadline - now w)) lt :=
  poll B snap localDeadline w with Z_lt_dec (now w) localDeadline => {
    | right _ := (false, w);
    | left _ :=
        if fst (hasChanged B snap w) then (true, snd (hasChanged B snap w))
        else poll B snap localDeadline
               (sleep B 200 (snd (hasChanged B snap w))) }.
Proof.
  unfold hasChanged.
  repeat match goal with |- context [if ?c then _ else _] => destruct c end;
    cbn; lia.
Qed.

Inductive rung :=
| ArrowDown | ArrowRight | PageDown | WheelScroll | NextButton | ClickArrowDown.

Definition actions : list rung :=
  [ArrowDown; ArrowRight; PageDown; WheelScroll; NextButton; ClickArrowDown].

(** The browser calls of one action; each action counts one attempt. *)
Definition act (B : Browser) (r : rung) (w : World) : World :=
  match r with
  | NextButton =>
      if nextControl (current B w) then call B (call B w) else call B w
  | ClickArrowDown => call B (call B w)
  | _ => call B w
  end.

Fixpoint climb (B : Browser) (snap : Snapshot) (deadline : Z)
  (rungs : list rung) (attempts : N) (w : World) : bool * N * World :=
  match rungs with
  | [] => (false, attempts, w)
  | r :: rest =>
      let w1 := act B r w in
      let attempts := (attempts + 1)%N in
      let (changed, w2) := poll B snap (now w1 + 2500)%Z w1 in
      if changed then
        if looksLikeVideo (pageUrl (current B w2)) then (true, attempts, w2)
        else (true, (attempts + 1)%N, sleep B 500 (call B w2))
      else if (now w2 >=? deadline)%Z then (false, attempts, w2)
      else climb B snap deadline rest attempts w2
  end.

(** Click the first of [video], [video-desc], [main], [body] that exists. *)
Fixpoint focusClick (B : Browser) (probes : list (PageState -> bool))
  (w : World) : World :=
  match probes with
  | [] => w
  | present :: rest =>
      if present (current B w) then call B (call B w)
      else focusClick B rest (call B w)
  end.

Definition isSome {A} (o : option A) : bool :=
  match o with Some _ => true | None => false end.

Definition goToNextVideo (B : Browser) (timeoutMs : Z) (w : World)
  : NavResult * World :=
  let t0 := now w in
  let w1 := focusClick B
              [fun p => isSome (currentSrc p); fun p => isSome (videoDesc p);
               hasMain; fun _ => true] (call B w) in
  let offVideo := negb (looksLikeVideo (pageUrl (current B w1))) in
  let w2 := if offVideo then sleep B 300 (call B w1) else w1 in
  let snap := {| beforeUrl := pageUrl (current B w2);
                 beforeVideoSrc := currentSrc (current B w2);
                 beforeCaption := orEmpty (videoDesc (current B (call B w2))) |} in
  let w3 := call B (call B w2) in
  let deadline := (now w3 + timeoutMs)%Z in
  let '(changed, n, w4) :=
    climb B snap deadline actions (if offVideo then 1%N else 0%N) w3 in
  ({| moved := changed; attempts := n; tookMs := now w4 - t0 |}, w4).

(** ** The video loop of [scrapeFromSearch] and [scrapeSequence]

    Besides the page of the [Browser], a run meets a challenge frame or not,
    an operator who answers the prompt or not, the answer of the oEmbed
    endpoint, the result of the function evaluated in the page, navigations
    that load or fail, and a results page with or without video links; each is
    given for the call at which it is asked.

    Two limits of this part.  The target [maxCount] is a whole number; the
    code compares whatever number it is given ([i < maxCount],
    [i === maxCount - 1]), so a fraction such as 2.5 gives three rounds and
    no last index.  And of the awaited calls that no [catch] guards only
    [page.goto] and the evaluation of [extractFromPage] are given an error
    here; the others ([page.$], [page.evaluate], [newPage], ...) are taken to
    answer, where in the code their rejection leaves the run. *)

Record Site := {
  browser : Browser;
  challenge : nat -> bool;
  operatorAnswers : nat -> bool;
  (** what [fetchOEmbed] resolves to: the answer, or null on any failure *)
  oembedAt : nat -> option OEmbed;
  (** the DOM data, or the message of the error the evaluation rejects with *)
  domDataAt : nat -> jsstring + DomData;
  (** the message of the error a [page.goto] rejects with, if it does *)
  gotoError : nat -> option jsstring;
  (** whether the [i]-th candidate selector finds a video link *)
  videoLink : nat -> nat -> bool;
  (** the [href] of the first anchor with "/video/" in it *)
  firstVideoHref : nat -> option jsstring;
  (** one of the three waits for a video page succeeds *)
  videoShown : nat -> bool
}.

Definition extractFromPage `{JsRuntime} (site : Site) (w : World)
  : outcome ExtractedInfo * World :=
  let B := browser site in
  let currentUrl := pageUrl (current B w) in
  let oembed := oembedAt site (calls w) in
  let w1 := call B w in
  match domDataAt site (calls w1) with
  | inl message => (Throws message, call B w1)
  | inr domData =>
      let (comments, w2) := extractComments B 20 12000 (call B w1) in
      (Returns (resolveFields currentUrl oembed domData comments), w2)
  end.

Definition initialMetrics (queryOrStartUrl : option jsstring) (maxCount : N)
  : ScrapeRunMetrics :=
  {| queryOrStartUrl := queryOrStartUrl; videosTargeted := maxCount;
     videosScraped := 0; navFailures := 0; captchas := 0; totalComments := 0;
     perVideo := [] |}.

(** [metrics.captchas++] *)
Definition addCaptcha (m : ScrapeRunMetrics) : ScrapeRunMetrics :=
  {| queryOrStartUrl := queryOrStartUrl m; videosTargeted := videosTargeted m;
     videosScraped := videosScraped m; navFailures := navFailures m;
     captchas := captchas m + 1; totalComments := totalComments m;
     perVideo := perVideo m |}.

(** [metrics.totalComments += commentsCount] *)
Definition addComments (m : ScrapeRunMetrics) (commentsCount : N)
  : ScrapeRunMetrics :=
  {| queryOrStartUrl := queryOrStartUrl m; videosTargeted := videosTargeted m;
     videosScraped := videosScraped m; navFailures := navFailures m;
     captchas := captchas m; totalComments := totalComments m + commentsCount;
     perVideo := perVideo m |}.

(** [metrics.navFailures++] *)
Definition addNavFailure (m : ScrapeRunMetrics) : ScrapeRunMetrics :=
  {| queryOrStartUrl := queryOrStartUrl m; videosTargeted := videosTargeted m;
     videosScraped := videosScraped m; navFailures := navFailures m + 1;
     captchas := captchas m; totalComments := totalComments m;
     perVideo := perVideo m |}.

(** [metrics.perVideo.push(per)] *)
Definition pushPerVideo (m : ScrapeRunMetrics) (per : PerVideoMetrics)
  : ScrapeRunMetrics :=
  {| queryOrStartUrl := queryOrStartUrl m; videosTargeted := videosTargeted m;
     videosScraped := videosScraped m; navFailures := navFailures m;
     captchas := captchas m; totalComments := totalComments m;
     perVideo := perVideo m ++ [per] |}.

(** [metrics.videosScraped = items.length] *)
Definition setVideosScraped (m : ScrapeRunMetrics) (n : N) : ScrapeRunMetrics :=
  {| queryOrStartUrl := queryOrStartUrl m; videosTargeted := videosTargeted m;
     videosScraped := n; navFailures := navFailures m;
     captchas := captchas m; totalComments := totalComments m;
     perVideo := perVideo m |}.

(** The record [per] of a step when it is pushed; [nav] is the result of
    [goToNextVideo] when the step came to it. *)
Definition stepMetrics (i : N) (pvStart ended extractionTime : Z)
  (nav : option NavResult) (comments : N) (errs : list jsstring)
  : PerVideoMetrics :=
  {| index := i; startedAt := pvStart; endedAt := ended;
     extractionMs := extractionTime;
     movedToNextMs := option_map tookMs nav;
     commentsCount := comments;
     navAttempts := match nav with Some r => attempts r | None => 0%N end;
     navSucceeded := match nav with Some r => moved r | None => false end;
     errors := errs |}.

(** The captcha checkpoint of [scrapeFromSearch]: probe for a challenge; when
    there is one, count it and wait for a line from the operator, without
    timeout.  [None]: the line never comes. *)
Definition captchaCheckpoint (site : Site) (m : ScrapeRunMetrics) (w : World)
  : option (ScrapeRunMetrics * World) :=
  let B := browser site in
  let w1 := call B w in
  if challenge site (calls w) then
    if operatorAnswers site (calls w1) then Some (addCaptcha m, call B w1)
    else None
  else Some (m, w1).

(** The [for] loop over the videos; [rounds] is the number of values of [i]
    left below [maxCount]. *)
Fixpoint videoLoop `{JsRuntime} (site : Site) (checkCaptcha : bool)
  (maxCount : N) (rounds : nat) (i : N) (infos : list ExtractedInfo)
  (m : ScrapeRunMetrics) (w : World)
  : outcome (list ExtractedInfo * ScrapeRunMetrics) * World :=
  match rounds with
  | O => (Returns (infos, m), w)
  | Datatypes.S rounds' =>
      let B := browser site in
      let pvStart := now w in
      match (if checkCaptcha then captchaCheckpoint site m w
             else Some (m, w)) with
      | None => (Diverges, w)
      | Some (m1, w1) =>
          let extStart := now w1 in
          let (ext, w2) := extractFromPage site w1 in
          let extractionTime :=
            match ext with Returns _ => (now w2 - extStart)%Z | _ => 0%Z end in
          let comments :=
            match ext with
            | Returns info => N.of_nat (List.length (info_comments info))
            | _ => 0%N
            end in
          let errs := match ext with Throws e => [e] | _ => [] end in
          let infos1 :=
            match ext with Returns info => infos ++ [info] | _ => infos end in
          let m2 := addComments m1 comments in
          if (i =? maxCount - 1)%N then
            (Returns (infos1,
                      pushPerVideo m2
                        (stepMetrics i pvStart (now w2) extractionTime None
                           comments errs)), w2)
          else
            let (navRes, w3) := goToNextVideo B 12000 w2 in
            let per := stepMetrics i pvStart (now w3) extractionTime
                         (Some navRes) comments errs in
            if negb (moved navRes)
            then (Returns (infos1, pushPerVideo (addNavFailure m2) per), w3)
            else videoLoop site checkCaptcha maxCount rounds' (i + 1)%N infos1
                   (pushPerVideo m2 per) (sleep B 600 w3)
      end
  end.

(** After the loop: [videosScraped] is the number of items, and the items are
    the object literals pushed. *)
Definition finishRun (r : list ExtractedInfo * ScrapeRunMetrics)
  : list ExtractedInfo * ScrapeRunMetrics :=
  (fst r, setVideosScraped (snd r) (N.of_nat (List.length (fst r)))).

Definition scrapeSequence `{JsRuntime} (site : Site) (startUrl : jsstring)
  (maxCount : N) (w : World)
  : outcome (list ScrapedItem * ScrapeRunMetrics) * World :=
  let B := browser site in
  let w1 := call B (call B w) in
  match gotoError site (calls w1) with
  | Some e => (Throws e, call B w1)
  | None =>
      match videoLoop site false maxCount (N.to_nat maxCount) 0 []
              (initialMetrics (Some startUrl) maxCount)
              (sleep B 800 (call B w1)) with
      | (Returns r, w2) =>
          (Returns (map itemOfInfo (fst (finishRun r)), snd (finishRun r)), w2)
      | (Throws e, w2) => (Throws e, w2)
      | (Diverges, w2) => (Diverges, w2)
      end
  end.

(** Click the first candidate selector that finds a video link. *)
Fixpoint clickVideoLink (site : Site) (candidates : list nat) (w : World)
  : bool * World :=
  match candidates with
  | [] => (false, w)
  | i :: rest =>
      if videoLink site (calls w) i
      then (true, call (browser site) (call (browser site) w))
      else clickVideoLink site rest (call (browser site) w)
  end.

Definition openFirstVideoFromSearch (site : Site) (searchUrl : jsstring)
  (w : World) : outcome unit * World :=
  let B := browser site in
  match afterScheme searchUrl with
  | None => (Throws (lit "Bad URL: " ++ searchUrl), w)
  | Some _ =>
      match gotoError site (calls w) with
      | Some e => (Throws e, call B w)
      | None =>
          let w1 := sleep B 600 (call B (sleep B 1200 (call B w))) in
          let (clicked, w2) := clickVideoLink site [0; 1; 2] w1 in
          let opened :=
            if clicked then inr w2
            else
              let href := firstVideoHref site (calls w2) in
              let w3 := call B w2 in
              if truthy href then
                match gotoError site (calls w3) with
                | Some e => inl (e, call B w3)
                | None => inr (call B w3)
                end
              else inl (lit "Failed to find a video link on the search results page.",
                        w3) in
          match opened with
          | inl (e, w') => (Throws e, w')
          | inr w4 =>
              let w5 := call B w4 in
              let w6 := if videoShown site (calls w4) then w5
                        else sleep B 700 (call B w5) in
              (Returns tt,
               sleep B 400
                 (focusClick B [fun p => isSome (currentSrc p); hasMain;
                                fun _ => true] w6))
          end
      end
  end.

(** What [scrapeFromSearch] does with the page once the search URL is built:
    open the first video, then walk the videos. *)
Definition searchTraversal `{JsRuntime} (site : Site) (search : option jsstring)
  (searchUrl : jsstring) (maxCount : N) (w : World)
  : outcome (list ExtractedInfo * ScrapeRunMetrics) * World :=
  match openFirstVideoFromSearch site searchUrl w with
  | (Throws e, w1) => (Throws e, w1)
  | (Diverges, w1) => (Diverges, w1)
  | (Returns _, w1) =>
      match videoLoop site true maxCount (N.to_nat maxCount) 0 []
              (initialMetrics search maxCount)
              (sleep (browser site) 1000 w1) with
      | (Returns r, w2) => (Returns (finishRun r), w2)
      | other => other
      end
  end.

(** The run of [scrapeFromSearch] on a site, for a page that could be
    opened. *)
Definition siteRun `{JsRuntime} (site : Site) (search : option jsstring)
  (w : World) : BrowserRun :=
  {| setup := None;
     traverse := fun searchUrl maxCount =>
       fst (searchTraversal site search searchUrl maxCount
              (call (browser site) (call (browser site) w))) |}.

(** *** Totals over a run *)

Definition commentTotal (infos : list ExtractedInfo) : N :=
  fold_right (fun info acc => (N.of_nat (List.length (info_comments info)) + acc)%N)
             0%N infos.

Definition countedComments (steps : list PerVideoMetrics) : N :=
  fold_right (fun p acc => (commentsCount p + acc)%N) 0%N steps.

(** The steps that recorded an error. *)
Definition failedSteps (steps : list PerVideoMetrics) : nat :=
  List.length (filter (fun p => match errors p with [] => false | _ => true end)
                      steps).

(** What holds of the videos and the metrics when round [i] begins. *)
Definition loopInvariant (i : N) (infos : list ExtractedInfo)
  (m : ScrapeRunMetrics) : Prop :=
  List.length (perVideo m) = N.to_nat i /\
  List.length infos + failedSteps (perVideo m) = List.length (perVideo m) /\
  navFailures m = 0%N /\
  totalComments m = commentTotal infos /\
  totalComments m = countedComments (perVideo m) /\
  Forall (fun info => List.length (info_comments info) <= 20) infos /\
  Forall (fun p => navSucceeded p = true) (perVideo m) /\
  map index (perVideo m) = map N.of_nat (seq 0 (List.length (perVideo m))) /\
  (captchas m <= i)%N.

(** What holds of them when the loop has run at least one round and
    returned. *)
Definition loopResult (maxCount : N) (infos : list ExtractedInfo)
  (m : ScrapeRunMetrics) : Prop :=
  List.length (perVideo m) <= N.to_nat maxCount /\
  List.length infos + failedSteps (perVideo m) = List.length (perVideo m) /\
  navFailures m
  = (if List.length (perVideo m) <? N.to_nat maxCount then 1%N else 0%N) /\
  totalComments m = commentTotal infos /\
  totalComments m = countedComments (perVideo m) /\
  Forall (fun info => List.length (info_comments info) <= 20) infos /\
  (exists steps last, perVideo m = steps ++ [last] /\
                      Forall (fun p => navSucceeded p = true) steps /\
                      navSucceeded last = false) /\
  map index (perVideo m) = map N.of_nat (seq 0 (List.length (perVideo m))) /\
  (captchas m <= N.of_nat (List.length (perVideo m)))%N.

(** ** Vocabulary of the specification *)

(** [n] is a substring of [h]. *)
Definition occursIn (n h : jsstring) : Prop :=
  exists pre post, h = pre ++ n ++ post.

(** The keyword appears, after normalization of both sides, in the description
    of the item or in the text of one of its comments. *)
Definition keywordAppears `{JsRuntime} (keyword : option jsstring)
  (v : ScrapedItem) : Prop :=
  occursIn (norm keyword) (norm (description v)) \/
  exists c, In c (commentsOf v) /\
            occursIn (norm keyword) (norm (Some (comment_text c))).

(** An item with a description and no comments. *)
Definition plainVideo : ScrapedItem :=
  {| url := lit "https://www.tiktok.com/@someone/video/1";
     title := None; description := Some (lit "abc"); caption := Some (lit "abc");
     username := None; authorUrl := None; videoSrc := None;
     comments := Some []; keywordMentioned := None |}.

(** Every object of [h] is in [h'], at the same address and unchanged. *)
Definition extends (h h' : heap) : Prop := exists e, h' = h ++ e.

(** A configuration and bindings for the examples. *)
Definition exampleConfig : Config :=
  {| CACHE_TTL_MS := 600000; CACHE_MAX_ENTRIES := 2 |}.

Definition noMetrics : ScrapeRunMetrics :=
  {| queryOrStartUrl := None; videosTargeted := 0; videosScraped := 0;
     navFailures := 0; captchas := 0; totalComments := 0; perVideo := [] |}.

(** The entry [lruSet] stores for [value] at time [t]. *)
Definition entryOf (value : loc * ScrapeRunMetrics) (t : Z) : CacheEntry :=
  {| items := fst value; metrics := snd value; createdAt := t |}.

(** The comments the nodes render to, in document order. *)
Definition renderedComments (textNodes : list CommentNode)
  : list ScrapedComment :=
  flat_map (fun t => match commentOfNode t with
                     | Some c => [c]
                     | None => []
                     end) textNodes.

(** The three navigation signals of a page. *)
Definition signals (p : PageState) : jsstring * option jsstring * jsstring :=
  (pageUrl p, currentSrc p, orEmpty (videoDesc p)).

(** The signals never change. *)
Definition staticSignals (B : Browser) : Prop :=
  forall i j, signals (page B i) = signals (page B j).

(** Browser calls take no time. *)
Definition instantCalls (B : Browser) : Prop :=
  forall k, latency B k = 0%N.

(** A video page that stays as it is, behind a browser that answers at
    once. *)
Definition staticPage : PageState :=
  {| pageUrl := lit "https://www.tiktok.com/@someone/video/1";
     currentSrc := Some (lit "blob:1");
     videoDesc := Some (lit "a caption");
     hasMain := true; nextControl := false;
     openButton := fun _ => false; containerSel := None;
     commentNodes := [] |}.

Definition staticBrowser : Browser :=
  {| page := fun _ => staticPage; latency := fun _ => 0%N |}.

Definition startOfRun : World := {| now := 0; calls := 0 |}.

(** The page shows what the snapshot recorded, at every call. *)
Definition unchanged (B : Browser) (snap : Snapshot) : Prop :=
  forall k, signals (page B k)
            = (beforeUrl snap, beforeVideoSrc snap, beforeCaption snap).

(** Every cache entry reads as items without [keywordMentioned]. *)
Definition rawCache (sv : Service) : Prop :=
  forall k e, In (k, e) (lru sv) ->
    exists vs, readItems (store sv) (items e) = Some vs /\
               Forall (fun v => keywordMentioned v = None) vs.

(** The first value of a precedence chain that is there; [present] says
    which strings count. *)
Fixpoint firstPresent (present : jsstring -> bool)
  (chain : list (option jsstring)) : option jsstring :=
  match chain with
  | [] => None
  | Some x :: rest => if present x then Some x else firstPresent present rest
  | None :: rest => firstPresent present rest
  end.

(** The sources of the caption and of the username, highest precedence
    first, as the specification lists them. *)
Definition captionSources (oembed : option OEmbed) (domData : DomData)
  : list (option jsstring) :=
  [field oembed oembed_title; dom_caption domData; dom_metaDesc domData].

Definition usernameSources (oembed : option OEmbed) (currentUrl : jsstring)
  (domData : DomData) : list (option jsstring) :=
  [option_map stripAt (field oembed author_name);
   usernameFromUrl currentUrl;
   dom_username domData].

(** The precedence rule of the specification, for a reading of "present". *)
Definition precedenceRule (present : jsstring -> bool) : Prop :=
  forall oembed currentUrl domData,
    resolveCaption oembed domData
    = firstPresent present (captionSources oembed domData) /\
    resolveUsername oembed currentUrl domData
    = firstPresent present (usernameSources oembed currentUrl domData).

Definition anyString (s : jsstring) : bool := true.
Definition nonEmpty (s : jsstring) : bool := negb (isEmpty s).

(** The DOM data of a page without the elements looked for; its
    [document.title] is the empty string. *)
Definition noDomData : DomData :=
  {| dom_caption := None; dom_username := None; dom_authorUrl := None;
     dom_videoSrc := None; dom_ogTitle := Some []; dom_metaDesc := None;
     dom_url := lit "https://www.tiktok.com/@bob/video/1" |}.

(** The largest whole number below which every whole number is a JavaScript
    number of its own, printed digit by digit: 2^53 - 1. *)
Definition maxSafeInteger : N := 9007199254740991.

(** A search URL on a host that only contains the name of the target
    domain. *)
Definition foreignHostUrl : jsstring := lit "https://nottiktok.com/foo".

(** A run that finds one video. *)
Definition oneVideo : ExtractedInfo :=
  {| info_title := None; info_description := Some (lit "abc");
     info_caption := Some (lit "abc"); info_username := None;
     info_authorUrl := None; info_videoSrc := None;
     info_url := lit "https://www.tiktok.com/@someone/video/1";
     info_comments := [] |}.

Definition oneVideoRun : BrowserRun :=
  {| setup := None;
     traverse := fun _ _ => Returns ([oneVideo], noMetrics) |}.

Definition emptyService : Service := {| lru := []; store := [] |}.

(** Every element is a UTF-16 code unit. *)
Definition codeUnits (s : jsstring) : Prop :=
  Forall (fun u => (u < 65536)%N) s.

Definition allWhiteSpace (s : jsstring) : Prop :=
  Forall (fun u => isWhiteSpace u = true) s.

(** Neither the first nor the last unit is white space. *)
Definition noOuterWhiteSpace (s : jsstring) : Prop :=
  (forall u r, s = u :: r -> isWhiteSpace u = false) /\
  (forall r u, s = r ++ [u] -> isWhiteSpace u = false).

(** A unit that may stand in a URL: an unreserved character or "%". *)
Definition urlSafe (u : N) : bool := isUnreserved u || N.eqb u 37.

Definition isSurrogate (u : N) : bool := isHighSurrogate u || isLowSurrogate u.

(** What [encodeURIComponent] writes for a code point that is no surrogate. *)
Definition encodeUnit (c : N) : jsstring :=
  if isUnreserved c then [c] else flat_map percentEncode (utf8 c).

Definition searchUrlPrefix : jsstring := lit "https://www.tiktok.com/search?q=".

(** The canonical form of a video URL. *)
Definition canonicalVideoUrl (user vid : jsstring) : jsstring :=
  lit "https://www.tiktok.com/@" ++ user ++ lit "/video/" ++ vid.

(** A path segment that can be a handle, and a video id. *)
Definition isHandle (user : jsstring) : Prop :=
  user <> [] /\ Forall (fun u => isSlash u = false) user.

Definition isVideoId (vid : jsstring) : Prop :=
  vid <> [] /\ Forall (fun u => isDigit u = true) vid.

(** White space occurs in [s] only as single spaces: no white-space unit other
    than U+0020, and none right after another ([afterWhiteSpace] tells whether
    the unit before [s] was white space). *)
Fixpoint singleSpaced (afterWhiteSpace : bool) (s : jsstring) : bool :=
  match s with
  | [] => true
  | u :: r =>
      if isWhiteSpace u
      then negb afterWhiteSpace && N.eqb u 32 && singleSpaced true r
      else singleSpaced false r
  end.

(** What a round adds to the videos: nothing when the extraction threw, one
    video of at most twenty comments when it returned. *)
Definition roundAdds (infos infos1 : list ExtractedInfo) (comments : N)
  (errs : list jsstring) : Prop :=
  (infos1 = infos /\ comments = 0%N /\ errs <> []) \/
  (exists info, infos1 = infos ++ [info] /\
                comments = N.of_nat (List.length (info_comments info)) /\
                errs = [] /\ List.length (info_comments info) <= 20).

(** The comments of the items of a run, counted. *)
Definition itemComments (items : list ScrapedItem) : N :=
  fold_right
    (fun it acc =>
       (N.of_nat (List.length (match comments it with
                               | Some cs => cs
                               | None => []
                               end)) + acc)%N)
    0%N items.

(** A run of [scrapeSequence] or of [scrapeFromSearch] on the site, for the
    target count, returned these items with these metrics. *)
Definition ranTo `{JsRuntime} (site : Site) (maxCount : N)
  (items : list ScrapedItem) (m : ScrapeRunMetrics) : Prop :=
  (exists startUrl w,
      fst (scrapeSequence site startUrl maxCount w) = Returns (items, m)) \/
  (exists search w h a h',
      scrapeFromSearch (siteRun site search w) search maxCount h
      = Returns (a, m, h') /\
      readItems h' a = Some items).

(** A site whose page never changes: no challenge, no oEmbed answer, no DOM
    data, every navigation loads. *)
Definition staticSite : Site :=
  {| browser := staticBrowser;
     challenge := fun _ => false;
     operatorAnswers := fun _ => false;
     oembedAt := fun _ => None;
     domDataAt := fun _ => inr noDomData;
     gotoError := fun _ => None;
     videoLink := fun _ _ => true;
     firstVideoHref := fun _ => None;
     videoShown := fun _ => true |}.


(** What the static site returns for two videos from a start URL. *)
Definition staticRunResult : list ScrapedItem * ScrapeRunMetrics :=
  match fst (@scrapeSequence RefRuntime staticSite
               (lit "https://www.tiktok.com/@someone/video/1") 2 startOfRun) with
  | Returns r => r
  | _ => ([], noMetrics)
  end.



(** The call of a harvest started at [w] that waits, for at most 3500 ms,
    until a comment shows. *)
Definition paneWait (B : Browser) (w : World) : nat :=
  calls (openPane B (seq 0 6) (sleep B 300 (call B w))).

(** Browser calls take no time from call [n] on. *)
Definition instantFrom (B : Browser) (n : nat) : Prop :=
  forall j, n <= j -> latency B j = 0%N.

(** Browser calls take no time, but for call [k], which takes at most [d]
    ms. *)
Definition instantBut (B : Browser) (k : nat) (d : N) : Prop :=
  (forall j, j <> k -> latency B j = 0%N) /\ (latency B k <= d)%N.

(** The static page behind a browser whose wait for a comment, the ninth
    call of a harvest, runs into its timeout. *)
Definition slowPaneBrowser : Browser :=
  {| page := fun _ => staticPage;
     latency := fun k => if Nat.eqb k 8 then 3500%N else 0%N |}.


Unset Implicit Arguments.

(** ** Strings *)

Lemma jsstring_eqb_eq a b : jsstring_eqb a b = true <-> a = b.
Proof.
  unfold jsstring_eqb. destruct (list_eq_dec N.eq_dec a b); split; congruence.
Qed.

Lemma jsstring_eqb_refl a : jsstring_eqb a a = true.
Proof. apply jsstring_eqb_eq. reflexivity. Qed.

Lemma jsstring_eqb_neq a b : jsstring_eqb a b = false <-> a <> b.
Proof.
  unfold jsstring_eqb. destruct (list_eq_dec N.eq_dec a b); split; congruence.
Qed.

Lemma isEmpty_nil s : isEmpty s = true <-> s = [].
Proof. destruct s; cbn; split; congruence. Qed.

Lemma startsWith_prefix h n :
  startsWith h n = true <-> exists post, h = n ++ post.
Proof.
  revert h. induction n as [|a n IH]; intros h; cbn.
  - split; [exists h; reflexivity | reflexivity].
  - destruct h as [|b h].
    + split; [discriminate | intros [post E]; discriminate].
    + rewrite andb_true_iff, N.eqb_eq, IH. split.
      * intros [-> [post ->]]. exists post. reflexivity.
      * intros [post E]. injection E as -> ->. split; [reflexivity | eauto].
Qed.

Lemma includes_occursIn h n : includes h n = true <-> occursIn n h.
Proof.
  unfold occursIn. induction h as [|b h IH]; cbn [includes].
  - rewrite orb_false_r, startsWith_prefix. split.
    + intros [post E]. exists [], post. exact E.
    + intros [pre [post E]]. destruct pre; [eauto | discriminate].
  - rewrite orb_true_iff, startsWith_prefix, IH. split.
    + intros [[post E] | [pre [post E]]].
      * exists [], post. exact E.
      * exists (b :: pre), post. cbn. rewrite E. reflexivity.
    + intros [pre [post E]]. destruct pre as [|c pre]; cbn in E.
      * left. eauto.
      * right. injection E as _ E. eauto.
Qed.

(** ** The matcher and the annotation *)

Lemma norm_null `{JsRuntime} : norm None = [].
Proof.
  unfold norm, removeDiacritics. cbn [orEmpty].
  rewrite toLowerCase_empty, normalizeNFD_empty. reflexivity.
Qed.

Lemma norm_empty `{JsRuntime} : norm (Some []) = [].
Proof.
  unfold norm, removeDiacritics. cbn [orEmpty].
  rewrite toLowerCase_empty, normalizeNFD_empty. reflexivity.
Qed.

Lemma contains_spec `{JsRuntime} h n :
  contains h n = true <-> norm n <> [] /\ occursIn (norm n) (norm h).
Proof.
  unfold contains. cbv zeta.
  rewrite andb_true_iff, negb_true_iff, includes_occursIn.
  destruct (norm n); cbn; intuition congruence.
Qed.

Lemma contains_empty_needle `{JsRuntime} h n : norm n = [] -> contains h n = false.
Proof. unfold contains. intros ->. reflexivity. Qed.

Lemma mentioned_spec `{JsRuntime} keyword v :
  mentioned keyword v = true <->
  norm keyword <> [] /\ keywordAppears keyword v.
Proof.
  unfold mentioned, keywordAppears.
  rewrite orb_true_iff, contains_spec, existsb_exists. split.
  - intros [[Hn Ho] | [c [Hc Hm]]].
    + tauto.
    + apply contains_spec in Hm. destruct Hm. split; [assumption | eauto].
  - intros [Hn [Ho | [c [Hc Ho]]]].
    + left. tauto.
    + right. exists c. split; [assumption |]. apply contains_spec. tauto.
Qed.

Lemma mentioned_empty_needle `{JsRuntime} keyword v :
  norm keyword = [] -> mentioned keyword v = false.
Proof.
  intros E. destruct (mentioned keyword v) eqn:M; [|reflexivity].
  apply mentioned_spec in M. tauto.
Qed.

Lemma mentioned_withKeywordMentioned `{JsRuntime} keyword v b :
  mentioned keyword (withKeywordMentioned v b) = mentioned keyword v.
Proof. reflexivity. Qed.

(** C1, as stated, fails for the empty keyword: the empty string occurs in
    every text, yet the matcher answers false on an empty needle. *)
Lemma annotate_empty_keyword_counterexample :
  @keywordAppears RefRuntime (Some []) plainVideo /\
  map keywordMentioned (@annotate RefRuntime (Some []) [plainVideo])
  = [Some false].
Proof.
  split; [| reflexivity].
  left. exists [], (lit "abc"). reflexivity.
Qed.

(** C1 (amended): annotation replaces [keywordMentioned] of each item, leaving
    its other fields, and the flag is true exactly when the normalized keyword
    is not empty and occurs, as a substring, in the normalized description or
    in the normalized text of one of the comments; the matcher ignores
    diacritics and case on "caf\u00E9"/"cafe" and "CAFE"/"cafe". *)
Theorem annotate_keywordMentioned_iff :
  (forall (R : JsRuntime) keyword items,
      Forall2 (fun v v' =>
                 exists b, v' = withKeywordMentioned v b /\
                           (b = true <->
                            norm keyword <> [] /\ keywordAppears keyword v))
              items (annotate keyword items)) /\
  @contains RefRuntime (Some (lit "caf" ++ [233%N])) (Some (lit "cafe")) = true /\
  @contains RefRuntime (Some (lit "CAFE")) (Some (lit "cafe")) = true.
Proof.
  split; [| split; reflexivity].
  intros R keyword items. induction items as [|v items IH]; cbn.
  - constructor.
  - constructor; [| exact IH].
    exists (mentioned keyword v). split; [reflexivity |].
    apply mentioned_spec.
Qed.

(** ** The object store *)

Lemma extends_refl h : extends h h.
Proof. exists []. symmetry. apply app_nil_r. Qed.

Lemma extends_trans h1 h2 h3 : extends h1 h2 -> extends h2 h3 -> extends h1 h3.
Proof. intros [e1 ->] [e2 ->]. exists (e1 ++ e2). symmetry. apply app_assoc. Qed.

Lemma extends_lookup h h' l o :
  extends h h' -> nth_error h l = Some o -> nth_error h' l = Some o.
Proof.
  intros [e ->] E. rewrite nth_error_app1; [exact E |].
  apply nth_error_Some. congruence.
Qed.

Lemma readItem_extends h h' l v :
  extends h h' -> readItem h l = Some v -> readItem h' l = Some v.
Proof.
  unfold readItem. intros X E.
  destruct (nth_error h l) as [o|] eqn:N; [| discriminate].
  rewrite (extends_lookup _ _ _ _ X N). exact E.
Qed.

Lemma readArray_extends h h' l ls :
  extends h h' -> readArray h l = Some ls -> readArray h' l = Some ls.
Proof.
  unfold readArray. intros X E.
  destruct (nth_error h l) as [o|] eqn:N; [| discriminate].
  rewrite (extends_lookup _ _ _ _ X N). exact E.
Qed.

Lemma readAll_extends h h' ls vs :
  extends h h' -> readAll h ls = Some vs -> readAll h' ls = Some vs.
Proof.
  intros X. revert vs. induction ls as [|l ls IH]; cbn; intros vs E.
  - exact E.
  - destruct (readItem h l) as [v|] eqn:Ev; [| discriminate].
    destruct (readAll h ls) as [vs'|]; [| discriminate].
    rewrite (readItem_extends _ _ _ _ X Ev), (IH vs' eq_refl). exact E.
Qed.

Lemma readItems_extends h h' a vs :
  extends h h' -> readItems h a = Some vs -> readItems h' a = Some vs.
Proof.
  unfold readItems. intros X E.
  destruct (readArray h a) as [ls|] eqn:A; [| discriminate].
  rewrite (readArray_extends _ _ _ _ X A). eapply readAll_extends; eassumption.
Qed.

Lemma allocItems_spec vs h :
  allocItems vs h = (seq (List.length h) (List.length vs), h ++ map ItemObject vs).
Proof.
  revert h. induction vs as [|v vs IH]; intros h; cbn.
  - rewrite app_nil_r. reflexivity.
  - rewrite IH, length_app. cbn. rewrite <- app_assoc.
    replace (List.length h + 1) with (S (List.length h)) by lia. reflexivity.
Qed.

Lemma readAll_fresh h vs e :
  readAll (h ++ map ItemObject vs ++ e) (seq (List.length h) (List.length vs))
  = Some vs.
Proof.
  revert h. induction vs as [|v vs IH]; intros h; cbn.
  - reflexivity.
  - unfold readItem. rewrite nth_error_app2 by lia. rewrite Nat.sub_diag. cbn.
    specialize (IH (h ++ [ItemObject v])).
    rewrite length_app in IH. cbn in IH.
    replace (List.length h + 1) with (S (List.length h)) in IH by lia.
    rewrite <- app_assoc in IH. cbn in IH. rewrite IH. reflexivity.
Qed.

Lemma readItems_alloc_fresh h vs :
  readItems (h ++ map ItemObject vs ++ [ItemArray (seq (List.length h) (List.length vs))])
            (List.length (h ++ map ItemObject vs)) = Some vs.
Proof.
  unfold readItems, readArray.
  rewrite app_assoc, nth_error_app2 by lia. rewrite Nat.sub_diag. cbn.
  rewrite <- app_assoc. apply readAll_fresh.
Qed.

Lemma annotateArray_spec `{JsRuntime} keyword a h vs :
  readItems h a = Some vs ->
  exists a' h', annotateArray keyword a h = Some (a', h') /\
                extends h h' /\
                readItems h' a' = Some (annotate keyword vs).
Proof.
  intros E. unfold annotateArray. rewrite E, allocItems_spec. unfold alloc.
  eexists _, _. split; [reflexivity |]. split.
  - eexists. rewrite <- app_assoc. reflexivity.
  - rewrite <- app_assoc. apply readItems_alloc_fresh.
Qed.

Lemma readAll_filter h ls vs :
  readAll h ls = Some vs ->
  readAll h (filter (fun l => match readItem h l with
                              | Some v => isMatched v
                              | None => false
                              end) ls)
  = Some (filter isMatched vs).
Proof.
  revert vs. induction ls as [|l ls IH]; cbn; intros vs E.
  - injection E as <-. reflexivity.
  - destruct (readItem h l) as [v|] eqn:Ev; [| discriminate].
    destruct (readAll h ls) as [vs'|]; [| discriminate].
    injection E as <-. specialize (IH vs' eq_refl). cbn.
    destruct (isMatched v); cbn; rewrite ?Ev, IH; reflexivity.
Qed.

Lemma filterArray_spec a h vs :
  readItems h a = Some vs ->
  exists a' h', filterArray a h = Some (a', h') /\
                extends h h' /\
                readItems h' a' = Some (filter isMatched vs).
Proof.
  unfold readItems, filterArray. intros E.
  destruct (readArray h a) as [ls|]; [| discriminate]. unfold alloc.
  eexists _, _. split; [reflexivity |]. split; [eexists; reflexivity |].
  unfold readArray. rewrite nth_error_app2 by lia. rewrite Nat.sub_diag. cbn.
  eapply readAll_extends; [eexists; reflexivity |].
  apply readAll_filter. exact E.
Qed.

(** What [respond] answers when the raw items can be read. *)
Lemma respond_spec `{JsRuntime} rawKey keyword showOnly hit a mt m h vs :
  readItems h a = Some vs ->
  exists out h',
    respond rawKey keyword showOnly hit a mt m h
    = (Returns {| resp_key := rawKey; resp_items := out;
                  resp_metrics := mt; fromCache := hit |},
       {| lru := m; store := h' |}) /\
    extends h h' /\
    readItems h' out = Some (filterMatched showOnly (annotate keyword vs)).
Proof.
  intros E. unfold respond.
  destruct (annotateArray_spec keyword _ _ _ E) as [a1 [h1 [-> [X1 R1]]]].
  destruct showOnly; cbn [filterMatched].
  - destruct (filterArray_spec _ _ _ R1) as [a2 [h2 [-> [X2 R2]]]].
    eexists _, _. split; [reflexivity |]. split; [| exact R2].
    eapply extends_trans; eassumption.
  - eexists _, _. split; [reflexivity |]. split; assumption.
Qed.

(** ** The LRU cache *)

Lemma mapGet_mapDelete key m : mapGet key (mapDelete key m) = None.
Proof.
  unfold mapGet, mapDelete. induction m as [|[k e] m IH]; cbn; [reflexivity |].
  destruct (jsstring_eqb k key) eqn:E; cbn; [exact IH |].
  rewrite E. exact IH.
Qed.

Lemma mapGet_mapDelete_other key k m :
  k <> key -> mapGet k (mapDelete key m) = mapGet k m.
Proof.
  intros D. unfold mapGet, mapDelete.
  induction m as [|[k' e] m IH]; cbn; [reflexivity |].
  destruct (jsstring_eqb k' key) eqn:E; cbn.
  - apply jsstring_eqb_eq in E. subst k'.
    destruct (jsstring_eqb key k) eqn:E2; [| exact IH].
    apply jsstring_eqb_eq in E2. congruence.
  - destruct (jsstring_eqb k' k); [reflexivity | exact IH].
Qed.

Lemma mapGet_app key m m' :
  mapGet key (m ++ m') =
  match mapGet key m with Some e => Some e | None => mapGet key m' end.
Proof.
  unfold mapGet. induction m as [|[k e] m IH]; cbn; [reflexivity |].
  destruct (jsstring_eqb k key); [reflexivity | exact IH].
Qed.

Lemma mapGet_suffix key q p : mapGet key (q ++ p) = None -> mapGet key p = None.
Proof.
  rewrite mapGet_app. destruct (mapGet key q); [discriminate | trivial].
Qed.

Lemma mapGet_single key e : mapGet key [(key, e)] = Some e.
Proof. unfold mapGet. cbn. rewrite jsstring_eqb_refl. reflexivity. Qed.

Lemma mapDelete_absent key m :
  existsb (fun kv => jsstring_eqb (fst kv) key) m = false -> mapDelete key m = m.
Proof.
  unfold mapDelete. induction m as [|[k e] m IH]; cbn; [reflexivity |].
  rewrite orb_false_iff. intros [-> E]. cbn. rewrite (IH E). reflexivity.
Qed.

Lemma mapDelete_app key m m' :
  mapDelete key (m ++ m') = mapDelete key m ++ mapDelete key m'.
Proof. apply filter_app. Qed.

Lemma mapDelete_single_other key k e :
  k <> key -> mapDelete key [(k, e)] = [(k, e)].
Proof.
  intros D. unfold mapDelete. cbn.
  apply jsstring_eqb_neq in D. rewrite D. reflexivity.
Qed.

Lemma mapDelete_single key e : mapDelete key [(key, e)] = [].
Proof. unfold mapDelete. cbn. rewrite jsstring_eqb_refl. reflexivity. Qed.

Lemma mapDelete_not_bound key m :
  ~ In key (keysOf m) -> mapDelete key m = m.
Proof.
  unfold mapDelete. induction m as [|[k e] m IH]; cbn; [reflexivity |].
  intros NI. destruct (jsstring_eqb k key) eqn:E.
  - apply jsstring_eqb_eq in E. tauto.
  - cbn. rewrite IH by tauto. reflexivity.
Qed.

(** Keys being unique, deleting the oldest key drops the head of the list:
    this is the step of [evictOldest]. *)
Lemma mapDelete_oldest kv m :
  wellFormed (kv :: m) -> mapDelete (fst kv) (kv :: m) = m.
Proof.
  unfold wellFormed. cbn [keysOf map]. intros ND. inversion ND as [|k ks NI _]; subst.
  unfold mapDelete. cbn [filter]. rewrite jsstring_eqb_refl. cbn [negb].
  apply mapDelete_not_bound. exact NI.
Qed.

Lemma keysOf_mapDelete key m k :
  In k (keysOf (mapDelete key m)) -> In k (keysOf m) /\ k <> key.
Proof.
  unfold keysOf, mapDelete. intros I. apply in_map_iff in I.
  destruct I as [[k' e] [<- I]]. apply filter_In in I. destruct I as [I E].
  cbn in *. split.
  - apply in_map_iff. exists (k', e). split; [reflexivity | exact I].
  - apply negb_true_iff, jsstring_eqb_neq in E. exact E.
Qed.

Lemma mapDelete_wellFormed key m : wellFormed m -> wellFormed (mapDelete key m).
Proof.
  unfold wellFormed. induction m as [|[k e] m IH]; cbn; [trivial |].
  intros ND. inversion ND as [|k' ks NI ND']; subst.
  destruct (jsstring_eqb k key); cbn; [apply IH; exact ND' |].
  constructor; [| apply IH; exact ND'].
  intros I. apply NI. exact (proj1 (keysOf_mapDelete key m k I)).
Qed.

Lemma evictOldest_wellFormed max m m' :
  evictOldest max m = Some m' -> wellFormed m -> wellFormed m'.
Proof.
  unfold wellFormed. revert m'. induction m as [|kv m IH]; intros m'; cbn [evictOldest].
  - destruct (0 >? max)%Z; [discriminate |]. intros [= <-]. trivial.
  - destruct (Z.of_nat (List.length (kv :: m)) >? max)%Z.
    + intros E ND. apply IH; [exact E |]. inversion ND; assumption.
    + intros [= <-]. trivial.
Qed.

Lemma snoc_wellFormed key e m :
  wellFormed (mapDelete key m) -> wellFormed (mapDelete key m ++ [(key, e)]).
Proof.
  unfold wellFormed, keysOf. rewrite map_app. cbn. intros ND.
  apply NoDup_app; [exact ND | repeat constructor; intros [] |].
  intros k I [<- | []].
  destruct (keysOf_mapDelete key m key I) as [_ D]. congruence.
Qed.

(** The cache operations keep the keys unique. *)
Lemma lruGet_wellFormed cfg now key m :
  wellFormed m -> wellFormed (snd (lruGet cfg now key m)).
Proof.
  intros W. unfold lruGet, mapAppend. destruct (mapGet key m) as [hit|]; [| exact W].
  destruct ((CACHE_TTL_MS cfg >? 0)%Z && (now - createdAt hit >? CACHE_TTL_MS cfg)%Z);
    cbn [snd].
  - apply mapDelete_wellFormed. exact W.
  - apply snoc_wellFormed, mapDelete_wellFormed. exact W.
Qed.

Lemma lruSet_wellFormed cfg now key value m m' :
  lruSet cfg now key value m = Some m' -> wellFormed m -> wellFormed m'.
Proof.
  unfold lruSet, mapAppend. intros E W.
  apply (evictOldest_wellFormed _ _ _ E).
  destruct (existsb (fun kv => jsstring_eqb (fst kv) key) m) eqn:X.
  - apply snoc_wellFormed, mapDelete_wellFormed. exact W.
  - rewrite <- (mapDelete_absent key m X) at 1.
    apply snoc_wellFormed. rewrite (mapDelete_absent key m X). exact W.
Qed.

(** With a capacity that is not negative the eviction loop ends and keeps the
    newest bindings. *)
Lemma evictOldest_keeps_newest max m :
  (0 <= max)%Z ->
  evictOldest max m = Some (skipn (List.length m - Z.to_nat max) m).
Proof.
  intros Hmax. induction m as [|kv m IH].
  - cbn. destruct (Z.gtb_spec 0 max); [lia | reflexivity].
  - cbn [evictOldest].
    destruct (Z.gtb_spec (Z.of_nat (List.length (kv :: m))) max) as [G|G];
      cbn [List.length] in *.
    + rewrite IH.
      replace (S (List.length m) - Z.to_nat max)
        with (S (List.length m - Z.to_nat max)) by lia.
      reflexivity.
    + replace (S (List.length m) - Z.to_nat max) with 0 by lia. reflexivity.
Qed.

Lemma evictOldest_negative max m : (max < 0)%Z -> evictOldest max m = None.
Proof.
  intros Hmax. induction m as [|kv m IH]; cbn [evictOldest].
  - destruct (Z.gtb_spec 0 max); [reflexivity | lia].
  - destruct (Z.gtb_spec (Z.of_nat (List.length (kv :: m))) max); [exact IH | lia].
Qed.

Lemma lruSet_keeps_newest cfg now key value m :
  (0 <= CACHE_MAX_ENTRIES cfg)%Z ->
  let m2 := mapDelete key m ++ [(key, entryOf value now)] in
  lruSet cfg now key value m
  = Some (skipn (List.length m2 - Z.to_nat (CACHE_MAX_ENTRIES cfg)) m2).
Proof.
  intros Hmax m2. unfold lruSet, mapAppend.
  replace (if existsb (fun kv => jsstring_eqb (fst kv) key) m
           then mapDelete key m else m) with (mapDelete key m).
  - apply evictOldest_keeps_newest. exact Hmax.
  - destruct (existsb _ m) eqn:E; [reflexivity |].
    apply mapDelete_absent. exact E.
Qed.

(** The binding just set survives the eviction when the capacity is at least
    one, and it is the newest. *)
Lemma lruSet_newest cfg now key value m :
  (1 <= CACHE_MAX_ENTRIES cfg)%Z ->
  exists q p, mapDelete key m = q ++ p /\
              lruSet cfg now key value m = Some (p ++ [(key, entryOf value now)]).
Proof.
  intros Hmax. rewrite lruSet_keeps_newest by lia.
  set (d := mapDelete key m). set (c := Z.to_nat (CACHE_MAX_ENTRIES cfg)).
  rewrite length_app. cbn [List.length].
  exists (firstn (List.length d + 1 - c) d), (skipn (List.length d + 1 - c) d).
  split; [symmetry; apply firstn_skipn |].
  rewrite skipn_app.
  replace (List.length d + 1 - c - List.length d) with 0 by lia.
  reflexivity.
Qed.

Lemma lruSet_then_mapGet cfg now key value m :
  (1 <= CACHE_MAX_ENTRIES cfg)%Z ->
  exists m', lruSet cfg now key value m = Some m' /\
             mapGet key m' = Some (entryOf value now).
Proof.
  intros Hmax.
  destruct (lruSet_newest cfg now key value m Hmax) as [q [p [D ->]]].
  eexists. split; [reflexivity |].
  rewrite mapGet_app, mapGet_single.
  rewrite (mapGet_suffix key q p); [reflexivity |].
  rewrite <- D. apply mapGet_mapDelete.
Qed.

Lemma lruGet_absent cfg now key m :
  mapGet key m = None -> lruGet cfg now key m = (None, m).
Proof. unfold lruGet. intros ->. reflexivity. Qed.

Lemma lruGet_fresh cfg now key m e :
  mapGet key m = Some e ->
  (CACHE_TTL_MS cfg <= 0 \/ now - createdAt e <= CACHE_TTL_MS cfg)%Z ->
  lruGet cfg now key m = (Some e, mapDelete key m ++ [(key, e)]).
Proof.
  unfold lruGet, mapAppend. intros -> F.
  destruct (Z.gtb_spec (CACHE_TTL_MS cfg) 0);
    destruct (Z.gtb_spec (now - createdAt e) (CACHE_TTL_MS cfg));
    cbn; try reflexivity; lia.
Qed.

Lemma lruGet_expired cfg now key m e :
  mapGet key m = Some e ->
  (0 < CACHE_TTL_MS cfg)%Z -> (CACHE_TTL_MS cfg < now - createdAt e)%Z ->
  lruGet cfg now key m = (None, mapDelete key m).
Proof.
  unfold lruGet. intros -> P X.
  destruct (Z.gtb_spec (CACHE_TTL_MS cfg) 0);
    destruct (Z.gtb_spec (now - createdAt e) (CACHE_TTL_MS cfg));
    cbn; try reflexivity; lia.
Qed.

(** C3: an entry set at [t0] (capacity at least one) is in the cache with
    [createdAt = t0]; under a positive TTL [T] a get at [createdAt + T - 1]
    returns the stored entry, and a get at [createdAt + T + 1] deletes it and
    returns null; with TTL 0 the entry is returned at every time; a get of an
    absent key returns null and leaves the cache as it is. *)
Theorem lruGet_ttl :
  (forall cfg t0 key value m,
      (1 <= CACHE_MAX_ENTRIES cfg)%Z ->
      exists m', lruSet cfg t0 key value m = Some m' /\
                 mapGet key m' = Some (entryOf value t0)) /\
  (forall cfg key m e,
      mapGet key m = Some e ->
      (0 < CACHE_TTL_MS cfg)%Z ->
      lruGet cfg (createdAt e + CACHE_TTL_MS cfg - 1) key m
      = (Some e, mapDelete key m ++ [(key, e)]) /\
      lruGet cfg (createdAt e + CACHE_TTL_MS cfg + 1) key m
      = (None, mapDelete key m) /\
      mapGet key (mapDelete key m) = None) /\
  (forall cfg now key m e,
      mapGet key m = Some e ->
      CACHE_TTL_MS cfg = 0%Z ->
      lruGet cfg now key m = (Some e, mapDelete key m ++ [(key, e)])) /\
  (forall cfg now key m,
      mapGet key m = None -> lruGet cfg now key m = (None, m)).
Proof.
  split; [exact lruSet_then_mapGet |]. split; [| split].
  - intros cfg key m e G T. split; [| split].
    + apply lruGet_fresh; [exact G | lia].
    + apply (lruGet_expired _ _ _ _ e); [exact G | exact T | lia].
    + apply mapGet_mapDelete.
  - intros cfg now key m e G T. apply lruGet_fresh; [exact G | lia].
  - exact lruGet_absent.
Qed.

(** An entry set at 1000 under a TTL of 600000 ms: found at 600999, gone at
    601001. *)
Lemma lruGet_ttl_witness :
  (1 <= CACHE_MAX_ENTRIES exampleConfig)%Z /\
  (0 < CACHE_TTL_MS exampleConfig)%Z /\
  exists m',
    lruSet exampleConfig 1000 (lit "foo+5") (0, noMetrics) [] = Some m' /\
    fst (lruGet exampleConfig (1000 + 600000 - 1) (lit "foo+5") m')
    = Some (entryOf (0, noMetrics) 1000) /\
    fst (lruGet exampleConfig (1000 + 600000 + 1) (lit "foo+5") m') = None.
Proof.
  assert (C : (1 <= CACHE_MAX_ENTRIES exampleConfig)%Z) by (cbn; lia).
  assert (T : (0 < CACHE_TTL_MS exampleConfig)%Z) by (cbn; lia).
  split; [exact C |]. split; [exact T |].
  destruct lruGet_ttl as [S [G _]].
  destruct (S exampleConfig 1000%Z (lit "foo+5") (0, noMetrics) [] C)
    as [m' [E M]].
  destruct (G exampleConfig (lit "foo+5") m' (entryOf (0, noMetrics) 1000) M T)
    as [G1 [G2 _]].
  exists m'. split; [exact E |]. split.
  - exact (f_equal fst G1).
  - exact (f_equal fst G2).
Defined.

Lemma skipn_newest_two {X} (l : list X) (x y : X) :
  skipn (List.length (l ++ [x; y]) - 2) (l ++ [x; y]) = [x; y].
Proof.
  rewrite length_app. cbn [List.length].
  replace (List.length l + 2 - 2) with (List.length l) by lia.
  rewrite skipn_app, skipn_all, Nat.sub_diag. reflexivity.
Qed.

(** Rewriting with the comparisons of keys known to differ. *)
Ltac compare_keys :=
  repeat match goal with
         | H : ?a <> ?b |- _ =>
             let E := fresh "E" in
             assert (E : jsstring_eqb a b = false) by (apply jsstring_eqb_neq; exact H);
             let E' := fresh "E" in
             assert (E' : jsstring_eqb b a = false)
               by (apply jsstring_eqb_neq; congruence);
             clear H
         end;
  unfold mapGet, mapDelete, mapAppend; cbn;
  repeat (rewrite ?jsstring_eqb_refl;
          repeat match goal with
                 | E : jsstring_eqb _ _ = false |- _ => rewrite E
                 end; cbn).

(** C4: a fresh get moves the binding to the newest end; a set keeps the
    newest [CACHE_MAX_ENTRIES] bindings and drops the older ones; with capacity
    2, after set(A); set(B); get(A); set(C) the cache is A, C: B is gone, A and
    C are found. *)
Theorem lru_recency :
  (forall cfg now key m e,
      mapGet key m = Some e ->
      (CACHE_TTL_MS cfg <= 0 \/ now - createdAt e <= CACHE_TTL_MS cfg)%Z ->
      lruGet cfg now key m = (Some e, mapDelete key m ++ [(key, e)])) /\
  (forall cfg now key value m,
      (0 <= CACHE_MAX_ENTRIES cfg)%Z ->
      let m2 := mapDelete key m ++ [(key, entryOf value now)] in
      lruSet cfg now key value m
      = Some (skipn (List.length m2 - Z.to_nat (CACHE_MAX_ENTRIES cfg)) m2)) /\
  (forall cfg A B C vA vB vC m t1 t2 t3 t4,
      CACHE_MAX_ENTRIES cfg = 2%Z -> A <> B -> A <> C -> B <> C ->
      (CACHE_TTL_MS cfg <= 0 \/ t3 - t1 <= CACHE_TTL_MS cfg)%Z ->
      exists m1 m2 m3 m4,
        lruSet cfg t1 A vA m = Some m1 /\
        lruSet cfg t2 B vB m1 = Some m2 /\
        lruGet cfg t3 A m2 = (Some (entryOf vA t1), m3) /\
        lruSet cfg t4 C vC m3 = Some m4 /\
        m4 = [(A, entryOf vA t1); (C, entryOf vC t4)] /\
        mapGet B m4 = None /\
        mapGet A m4 = Some (entryOf vA t1) /\
        mapGet C m4 = Some (entryOf vC t4)).
Proof.
  split; [exact lruGet_fresh |]. split; [exact lruSet_keeps_newest |].
  intros cfg A B C vA vB vC m t1 t2 t3 t4 Hcap AB AC BC Fresh.
  destruct (lruSet_newest cfg t1 A vA m) as [q [p [_ S1]]]; [lia |].
  assert (S2 : lruSet cfg t2 B vB (p ++ [(A, entryOf vA t1)])
               = Some [(A, entryOf vA t1); (B, entryOf vB t2)]).
  { rewrite lruSet_keeps_newest by lia. cbv zeta.
    rewrite mapDelete_app, mapDelete_single_other by exact AB.
    rewrite <- app_assoc, Hcap. cbn [app].
    change (Z.to_nat 2) with 2. rewrite skipn_newest_two. reflexivity. }
  assert (G3 : lruGet cfg t3 A [(A, entryOf vA t1); (B, entryOf vB t2)]
               = (Some (entryOf vA t1),
                  [(B, entryOf vB t2); (A, entryOf vA t1)])).
  { rewrite (lruGet_fresh cfg t3 A _ (entryOf vA t1)).
    - compare_keys. reflexivity.
    - compare_keys. reflexivity.
    - exact Fresh. }
  assert (S4 : lruSet cfg t4 C vC [(B, entryOf vB t2); (A, entryOf vA t1)]
               = Some [(A, entryOf vA t1); (C, entryOf vC t4)]).
  { rewrite lruSet_keeps_newest by lia. rewrite Hcap. compare_keys. reflexivity. }
  eexists _, _, _, _.
  split; [exact S1 |]. split; [exact S2 |]. split; [exact G3 |].
  split; [exact S4 |]. split; [reflexivity |].
  repeat split; compare_keys; reflexivity.
Qed.

(** From the empty cache: a, b, get a, c leaves a and c. *)
Lemma lru_recency_witness :
  exists m4,
    m4 = [(lit "a+5", entryOf (0, noMetrics) 1);
          (lit "c+5", entryOf (2, noMetrics) 4)] /\
    mapGet (lit "b+5") m4 = None.
Proof.
  destruct lru_recency as [_ [_ H]].
  destruct (H exampleConfig (lit "a+5") (lit "b+5") (lit "c+5")
              (0, noMetrics) (1, noMetrics) (2, noMetrics) [] 1%Z 2%Z 3%Z 4%Z)
    as [m1 [m2 [m3 [m4 [_ [_ [_ [_ [E [GB _]]]]]]]]]];
    try reflexivity; try discriminate.
  - right. cbn. lia.
  - exists m4. split; [exact E | exact GB].
Defined.

(** ** The cache key *)

Lemma lit_injective a b : lit a = lit b -> a = b.
Proof.
  unfold lit. intros E.
  rewrite <- (string_of_list_ascii_of_string a), <- (string_of_list_ascii_of_string b).
  f_equal. revert E.
  generalize (list_ascii_of_string a) (list_ascii_of_string b).
  induction l as [|x l IH]; intros [|y l']; cbn; intros E;
    try discriminate; [reflexivity |].
  injection E as E1 E2. f_equal; [| apply IH; exact E2].
  rewrite <- (ascii_N_embedding x), <- (ascii_N_embedding y), E1. reflexivity.
Qed.

Lemma renderCount_injective n1 n2 : renderCount n1 = renderCount n2 -> n1 = n2.
Proof.
  unfold renderCount. intros E. apply lit_injective in E.
  apply DecimalN.Unsigned.to_uint_inj.
  assert (U : forall d, NilEmpty.uint_of_string (NilEmpty.string_of_uint d) = Some d)
    by apply NilEmpty.usu.
  pose proof (U (N.to_uint n1)) as U1. rewrite E, U in U1. congruence.
Qed.

(** C5: the key is the trimmed, lower-cased search text, "+", and the count;
    " Foo " and "foo" give the same key for every count, and two different
    counts never give the same key for one search text. *)
Theorem lruKeyRaw_normalized :
  (forall (R : JsRuntime) search maxCount,
      lruKeyRaw search maxCount
      = toLowerCase (trim (orEmpty search)) ++ lit "+" ++ renderCount maxCount) /\
  (forall n, @lruKeyRaw RefRuntime (Some (lit " Foo ")) n
             = @lruKeyRaw RefRuntime (Some (lit "foo")) n) /\
  (forall (R : JsRuntime) search n1 n2,
      n1 <> n2 -> lruKeyRaw search n1 <> lruKeyRaw search n2).
Proof.
  split; [reflexivity |]. split; [reflexivity |].
  intros R search n1 n2 D E. apply D. unfold lruKeyRaw in E.
  apply app_inv_head in E. apply app_inv_head in E.
  apply renderCount_injective. exact E.
Qed.

(** Counts 5 and 6 give different keys for "foo". *)
Lemma lruKeyRaw_normalized_witness :
  5%N <> 6%N /\
  @lruKeyRaw RefRuntime (Some (lit "foo")) 5 <> @lruKeyRaw RefRuntime (Some (lit "foo")) 6.
Proof.
  assert (D : 5%N <> 6%N) by discriminate.
  split; [exact D |].
  exact (proj2 (proj2 lruKeyRaw_normalized) RefRuntime (Some (lit "foo")) 5%N 6%N D).
Defined.

(** ** The comment harvest *)

Lemma collectComments_spec max textNodes results :
  List.length results < max ->
  collectComments max textNodes results
  = firstn max (results ++ renderedComments textNodes).
Proof.
  revert results. induction textNodes as [|t rest IH]; intros results L.
  - cbn. rewrite app_nil_r, firstn_all2 by lia. reflexivity.
  - cbn [collectComments].
    change (renderedComments (t :: rest))
      with (match commentOfNode t with Some c => [c] | None => [] end
            ++ renderedComments rest).
    destruct (commentOfNode t) as [c|]; [| apply IH; exact L].
    rewrite app_assoc.
    destruct (Nat.leb_spec max (List.length (results ++ [c]))) as [G|G].
    + rewrite length_app in G. cbn in G.
      replace max with (List.length (results ++ [c]))
        by (rewrite length_app; cbn; lia).
      rewrite firstn_app, firstn_all, Nat.sub_diag. cbn.
      rewrite app_nil_r. reflexivity.
    + apply IH. exact G.
Qed.

Lemma extractRendered_spec max textNodes :
  extractRendered max textNodes = firstn max (renderedComments textNodes).
Proof.
  unfold extractRendered. destruct max as [|max]; [reflexivity |].
  rewrite collectComments_spec by (cbn; lia). cbn [app].
  rewrite firstn_firstn, Nat.min_id. reflexivity.
Qed.

Lemma commentOfNode_text t c :
  commentOfNode t = Some c ->
  comment_text c <> [] /\
  comment_text c = trim (collapseWhiteSpace (orEmpty (textContent t))).
Proof.
  unfold commentOfNode.
  destruct (trim (collapseWhiteSpace (orEmpty (textContent t)))) as [|u s] eqn:E;
    cbn; [discriminate |].
  intros [= <-]. cbn. split; [discriminate | reflexivity].
Qed.

Lemma renderedComments_text textNodes :
  Forall (fun c => comment_text c <> [] /\
                   exists t, In t textNodes /\
                             comment_text c
                             = trim (collapseWhiteSpace (orEmpty (textContent t))))
         (renderedComments textNodes).
Proof.
  apply Forall_forall. intros c I. unfold renderedComments in I.
  apply in_flat_map in I. destruct I as [t [It Ic]].
  destruct (commentOfNode t) as [c'|] eqn:E; [| destruct Ic].
  destruct Ic as [<- | []].
  destruct (commentOfNode_text _ _ E) as [N T]. eauto.
Qed.

Lemma Forall_firstn {X} (P : X -> Prop) n l :
  Forall P l -> Forall P (firstn n l).
Proof.
  intros F. revert n. induction F as [|x l Px F IH]; intros [|n]; cbn;
    constructor; auto.
Qed.

(** C6: for every browser, limit and timeout the harvest returns; what it
    returns are the first [limit] comments, in document order, that the nodes
    of the page render to: at most [limit] of them, none with an empty text,
    each text being the white-space-collapsed, trimmed text of a node. *)
Theorem extractComments_bounded B limit hardTimeoutMs w :
  let result := fst (extractComments B limit hardTimeoutMs w) in
  List.length result <= limit /\
  exists k,
    result = firstn limit (renderedComments (commentNodes (page B k))) /\
    Forall (fun c => comment_text c <> [] /\
                     exists t, In t (commentNodes (page B k)) /\
                               comment_text c
                               = trim (collapseWhiteSpace
                                         (orEmpty (textContent t))))
           result.
Proof.
  cbv zeta. unfold extractComments. cbn [fst].
  rewrite extractRendered_spec. split.
  - apply firstn_le_length.
  - eexists. split; [reflexivity |].
    apply Forall_firstn. apply renderedComments_text.
Qed.

(** ** The navigator *)

Lemma hasChanged_unchanged B snap w :
  unchanged B snap -> hasChanged B snap w = (false, call B (call B w)).
Proof.
  intros U. unfold hasChanged, current.
  assert (Hu : forall k, pageUrl (page B k) = beforeUrl snap)
    by (intros k; specialize (U k); unfold signals in U; congruence).
  assert (Hs : forall k, currentSrc (page B k) = beforeVideoSrc snap)
    by (intros k; specialize (U k); unfold signals in U; congruence).
  assert (Hc : forall k, orEmpty (videoDesc (page B k)) = beforeCaption snap)
    by (intros k; specialize (U k); unfold signals in U; congruence).
  rewrite Hu, Hs, Hc, !jsstring_eqb_refl. cbn [negb].
  rewrite !andb_false_r. reflexivity.
Qed.

Lemma poll_past B snap ld w : (ld <= now w)%Z -> poll B snap ld w = (false, w).
Proof.
  intros P. funelim (poll B snap ld w); [lia | reflexivity].
Qed.

Lemma poll_unchanged B snap ld w :
  unchanged B snap -> fst (poll B snap ld w) = false.
Proof.
  intros U. funelim (poll B snap ld w); [| reflexivity].
  rewrite hasChanged_unchanged in * by exact U. cbn [fst snd] in *. auto.
Qed.

Lemma call_instant B w : instantCalls B -> now (call B w) = now w.
Proof. intros I. cbn. rewrite I. cbn. lia. Qed.

Lemma sleep_instant B ms w : instantCalls B -> now (sleep B ms w) = (now w + ms)%Z.
Proof. intros I. cbn. rewrite I. cbn. lia. Qed.

(** With an unchanged page and instant calls a poll ends at its local
    deadline or within one 200 ms interval after it. *)
Lemma poll_unchanged_clock B snap ld w :
  unchanged B snap -> instantCalls B -> (now w < ld)%Z ->
  (ld <= now (snd (poll B snap ld w)) < ld + 200)%Z.
Proof.
  intros U I. funelim (poll B snap ld w); [| lia].
  intros _. rewrite hasChanged_unchanged in * by exact U. cbn [fst snd] in *.
  assert (N : now (sleep B 200 (call B (call B w))) = (now w + 200)%Z)
    by (rewrite sleep_instant, !call_instant by exact I; reflexivity).
  destruct (Z_lt_dec (now (sleep B 200 (call B (call B w)))) localDeadline) as [L|L].
  - auto.
  - rewrite poll_past by lia. cbn [snd]. lia.
Qed.

Lemma act_instant B r w : instantCalls B -> now (act B r w) = now w.
Proof.
  intros I. destruct r; cbn [act];
    try destruct (nextControl (current B w));
    rewrite ?call_instant by exact I; reflexivity.
Qed.

Lemma focusClick_instant B probes w :
  instantCalls B -> now (focusClick B probes w) = now w.
Proof.
  intros I. revert w. induction probes as [|p probes IH]; intros w; cbn.
  - reflexivity.
  - destruct (p (current B w)).
    + rewrite !call_instant by exact I. reflexivity.
    + rewrite IH, call_instant by exact I. reflexivity.
Qed.

Lemma climb_unchanged B snap deadline rungs n w :
  unchanged B snap ->
  fst (fst (climb B snap deadline rungs n w)) = false /\
  (snd (fst (climb B snap deadline rungs n w)) <= n + N.of_nat (List.length rungs))%N.
Proof.
  intros U. revert n w. induction rungs as [|r rungs IH]; intros n w.
  - cbn. split; [reflexivity | lia].
  - cbn [climb].
    pose proof (poll_unchanged B snap (now (act B r w) + 2500) (act B r w) U) as P.
    destruct (poll B snap (now (act B r w) + 2500) (act B r w)) as [changed w2].
    cbn in P. subst changed.
    destruct (now w2 >=? deadline)%Z.
    + cbn. split; [reflexivity | lia].
    + destruct (IH (n + 1)%N w2) as [M A]. split; [exact M |].
      cbn [List.length]. lia.
Qed.

Lemma climb_unchanged_clock B snap deadline rungs n w :
  unchanged B snap -> instantCalls B ->
  (now (snd (climb B snap deadline rungs n w)) < Z.max (now w) deadline + 2700)%Z.
Proof.
  intros U I. revert n w. induction rungs as [|r rungs IH]; intros n w.
  - cbn. lia.
  - cbn [climb].
    pose proof (poll_unchanged B snap (now (act B r w) + 2500) (act B r w) U) as P.
    pose proof (poll_unchanged_clock B snap (now (act B r w) + 2500) (act B r w) U I)
      as T.
    destruct (poll B snap (now (act B r w) + 2500) (act B r w)) as [changed w2].
    cbn in P, T. subst changed. rewrite act_instant in T by exact I.
    destruct (Z.geb_spec (now w2) deadline) as [G|G].
    + cbn. lia.
    + specialize (IH (n + 1)%N w2). lia.
Qed.

Lemma staticSignals_unchanged B i j :
  staticSignals B ->
  unchanged B {| beforeUrl := pageUrl (page B i);
                 beforeVideoSrc := currentSrc (page B i);
                 beforeCaption := orEmpty (videoDesc (page B j)) |}.
Proof.
  intros S k. cbn.
  pose proof (S k i) as Si. pose proof (S k j) as Sj.
  unfold signals in *. congruence.
Qed.

(** C7, as stated, fails: on a video page that never changes, with calls that
    take no time and the default 12000 ms, the navigator gives up after five
    rungs of 2600 ms, at 13000 ms. *)
Lemma goToNextVideo_past_deadline_counterexample :
  staticSignals staticBrowser /\
  fst (goToNextVideo staticBrowser 12000 startOfRun)
  = {| moved := false; attempts := 5; tookMs := 13000 |} /\
  ~ (tookMs (fst (goToNextVideo staticBrowser 12000 startOfRun)) <= 12000)%Z.
Proof.
  split; [intros i j; reflexivity |].
  assert (E : fst (goToNextVideo staticBrowser 12000 startOfRun)
              = {| moved := false; attempts := 5; tookMs := 13000 |})
    by (vm_compute; reflexivity).
  split; [exact E |]. rewrite E. cbn. lia.
Qed.

(** C7 (amended): on a page whose three navigation signals never change,
    [goToNextVideo] returns [moved = false] after at most six ladder actions
    (seven attempts with the initial Enter); the deadline is looked at only
    after the 2.5 s poll of an action, so the return can come after it: when
    browser calls take no time, less than 3000 ms after [timeoutMs]. *)
Theorem goToNextVideo_static B timeoutMs w :
  staticSignals B ->
  moved (fst (goToNextVideo B timeoutMs w)) = false /\
  (attempts (fst (goToNextVideo B timeoutMs w)) <= 7)%N /\
  (instantCalls B -> (0 <= timeoutMs)%Z ->
   (tookMs (fst (goToNextVideo B timeoutMs w)) < timeoutMs + 3000)%Z).
Proof.
  intros S. unfold goToNextVideo.
  set (w1 := focusClick B _ (call B w)).
  set (offVideo := negb (looksLikeVideo (pageUrl (current B w1)))).
  set (w2 := if offVideo then sleep B 300 (call B w1) else w1).
  set (snap := {| beforeUrl := _; beforeVideoSrc := _; beforeCaption := _ |}).
  assert (U : unchanged B snap) by (apply staticSignals_unchanged; exact S).
  set (w3 := call B (call B w2)).
  set (n0 := if offVideo then 1%N else 0%N).
  pose proof (climb_unchanged B snap (now w3 + timeoutMs) actions n0 w3 U) as [M A].
  pose proof (climb_unchanged_clock B snap (now w3 + timeoutMs) actions n0 w3 U) as T.
  destruct (climb B snap (now w3 + timeoutMs) actions n0 w3) as [[changed n] w4].
  cbn [fst snd moved attempts tookMs] in M, A, T |- *.
  change (N.of_nat (List.length actions)) with 6%N in A.
  split; [exact M |]. split.
  - subst n0. destruct offVideo; lia.
  - intros I Ht. specialize (T I).
    assert (N3 : (now w3 <= now w + 300)%Z).
    { subst w3 w2 w1. rewrite !call_instant by exact I.
      destruct offVideo;
        rewrite ?sleep_instant, ?call_instant, focusClick_instant, call_instant
          by exact I; lia. }
    lia.
Qed.

(** The unchanging video page of [staticBrowser]. *)
Lemma goToNextVideo_static_witness :
  staticSignals staticBrowser /\
  moved (fst (goToNextVideo staticBrowser 12000 startOfRun)) = false.
Proof.
  assert (S : staticSignals staticBrowser) by (intros i j; reflexivity).
  split; [exact S |].
  exact (proj1 (goToNextVideo_static staticBrowser 12000 startOfRun S)).
Defined.

(** ** Field precedence of the page extractor *)

(** The precedence rule fails whichever way "present" is read.  If every non-null
    value is present, an empty resolver author name should be the username,
    but the code passes over it and takes the handle of the URL.  If only
    non-empty values are present, an in-page caption should win over an empty
    resolver title, but the code keeps the empty title. *)
Lemma precedence_counterexample :
  ~ precedenceRule anyString /\ ~ precedenceRule nonEmpty.
Proof.
  split; intros P.
  - destruct (P (Some {| oembed_title := None; author_name := Some [];
                         author_url := None; thumbnail_url := None |})
                (lit "https://www.tiktok.com/@bob/video/1") noDomData)
      as [_ U].
    vm_compute in U. discriminate U.
  - destruct (P (Some {| oembed_title := Some []; author_name := None;
                         author_url := None; thumbnail_url := None |})
                (lit "https://www.tiktok.com/@bob/video/1")
                {| dom_caption := Some (lit "a caption"); dom_username := None;
                   dom_authorUrl := None; dom_videoSrc := None;
                   dom_ogTitle := Some []; dom_metaDesc := None;
                   dom_url := lit "https://www.tiktok.com/@bob/video/1" |})
      as [C _].
    vm_compute in C. discriminate C.
Qed.

(** C9: the caption chain and an empty resolver title.  The resolver answers
    with the title "" and the page has the caption "a caption": the first
    value with data among (resolver title, in-page caption, in-page meta
    description) is "a caption", yet the record gets the caption and the
    description "".  On the same input the username chain passes over the
    empty author name of the resolver and takes the handle of the URL. *)
Theorem caption_keeps_empty_resolver_title :
  let oembed := Some {| oembed_title := Some []; author_name := Some [];
                        author_url := None; thumbnail_url := None |} in
  let currentUrl := lit "https://www.tiktok.com/@bob/video/1" in
  let domData := {| dom_caption := Some (lit "a caption");
                    dom_username := None; dom_authorUrl := None;
                    dom_videoSrc := None; dom_ogTitle := Some (lit "a page");
                    dom_metaDesc := None; dom_url := currentUrl |} in
  let info := @resolveFields RefRuntime currentUrl oembed domData [] in
  firstPresent nonEmpty (captionSources oembed domData)
  = Some (lit "a caption") /\
  info_caption info = Some [] /\
  info_description info = Some [] /\
  firstPresent nonEmpty (usernameSources oembed currentUrl domData)
  = Some (lit "bob") /\
  info_username info = Some (lit "bob").
Proof.
  cbv zeta.
  split; [reflexivity |]. split; [reflexivity |]. split; [reflexivity |].
  split; reflexivity.
Qed.

Lemma strippedIfTruthy_none x : strippedIfTruthy x = None <-> truthy x = false.
Proof. unfold strippedIfTruthy. destruct (truthy x); split; congruence. Qed.

(** What the two chains compute, for every input: the caption is the first
    non-null value of (resolver title,
    in-page caption, in-page meta description), an empty string included; the
    username is the first value of (resolver author name when it is not empty,
    without one leading "@"; handle from the URL path; in-page author name
    when it is not empty, without one leading "@"); the caption is null exactly
    when the three sources are null, the username exactly when both names are
    null or empty and the URL has no handle; the record carries both. *)
Theorem resolve_precedence (R : JsRuntime) oembed currentUrl domData comments :
  resolveCaption oembed domData
  = firstPresent anyString (captionSources oembed domData) /\
  resolveUsername oembed currentUrl domData
  = firstPresent anyString
      [strippedIfTruthy (field oembed author_name);
       usernameFromUrl currentUrl;
       strippedIfTruthy (dom_username domData)] /\
  (resolveCaption oembed domData = None <->
   field oembed oembed_title = None /\ dom_caption domData = None /\
   dom_metaDesc domData = None) /\
  (resolveUsername oembed currentUrl domData = None <->
   truthy (field oembed author_name) = false /\
   usernameFromUrl currentUrl = None /\
   truthy (dom_username domData) = false) /\
  info_caption (resolveFields currentUrl oembed domData comments)
  = resolveCaption oembed domData /\
  info_description (resolveFields currentUrl oembed domData comments)
  = resolveCaption oembed domData /\
  info_username (resolveFields currentUrl oembed domData comments)
  = resolveUsername oembed currentUrl domData.
Proof.
  unfold resolveCaption, resolveUsername, captionSources.
  repeat split; try reflexivity.
  - cbn. destruct (field oembed oembed_title), (dom_caption domData),
      (dom_metaDesc domData); reflexivity.
  - cbn. destruct (strippedIfTruthy (field oembed author_name)),
      (usernameFromUrl currentUrl), (strippedIfTruthy (dom_username domData));
      reflexivity.
  - destruct (field oembed oembed_title); [discriminate | reflexivity].
  - destruct (field oembed oembed_title), (dom_caption domData);
      try discriminate; reflexivity.
  - destruct (field oembed oembed_title), (dom_caption domData),
      (dom_metaDesc domData); try discriminate; reflexivity.
  - intros [-> [-> ->]]. reflexivity.
  - apply strippedIfTruthy_none.
    destruct (strippedIfTruthy (field oembed author_name));
      [discriminate | reflexivity].
  - destruct (strippedIfTruthy (field oembed author_name)),
      (usernameFromUrl currentUrl); try discriminate; reflexivity.
  - apply strippedIfTruthy_none.
    destruct (strippedIfTruthy (field oembed author_name)),
      (usernameFromUrl currentUrl), (strippedIfTruthy (dom_username domData));
      try discriminate; reflexivity.
  - intros [A [-> D]].
    apply strippedIfTruthy_none in A. apply strippedIfTruthy_none in D.
    rewrite A, D. reflexivity.
Qed.

(** ** Requests *)

Lemma mapGet_In key m e : mapGet key m = Some e -> In (key, e) m.
Proof.
  unfold mapGet. destruct (find _ m) as [[k e']|] eqn:F; [| discriminate].
  intros [= <-]. apply find_some in F. destruct F as [I E]. cbn in E.
  apply jsstring_eqb_eq in E. subst k. exact I.
Qed.

Lemma mapDelete_In key m kv : In kv (mapDelete key m) -> In kv m.
Proof. unfold mapDelete. intros I. apply filter_In in I. tauto. Qed.

Lemma evictOldest_In max m m' kv :
  evictOldest max m = Some m' -> In kv m' -> In kv m.
Proof.
  revert m'. induction m as [|x m IH]; intros m'; cbn [evictOldest].
  - destruct (0 >? max)%Z; [discriminate |]. intros [= <-]. trivial.
  - destruct (Z.of_nat (List.length (x :: m)) >? max)%Z.
    + intros E I. right. eapply IH; eassumption.
    + intros [= <-]. trivial.
Qed.

Lemma lruGet_In cfg now key m kv :
  In kv (snd (lruGet cfg now key m)) -> In kv m.
Proof.
  unfold lruGet, mapAppend. destruct (mapGet key m) as [hit|] eqn:G; [| trivial].
  destruct ((CACHE_TTL_MS cfg >? 0)%Z && (now - createdAt hit >? CACHE_TTL_MS cfg)%Z);
    cbn [snd].
  - apply mapDelete_In.
  - intros I. apply in_app_or in I. destruct I as [I | [<- | []]].
    + eapply mapDelete_In. exact I.
    + apply mapGet_In. exact G.
Qed.

Lemma lruSet_In cfg now key value m m' kv :
  lruSet cfg now key value m = Some m' -> In kv m' ->
  In kv m \/ kv = (key, entryOf value now).
Proof.
  unfold lruSet, mapAppend. intros E I.
  apply (evictOldest_In _ _ _ kv E) in I.
  apply in_app_or in I. destruct I as [I | [<- | []]]; [left | right; reflexivity].
  destruct (existsb _ m); [eapply mapDelete_In |]; exact I.
Qed.

Lemma annotate_again `{JsRuntime} kw1 kw2 vs :
  annotate kw2 (annotate kw1 vs) = annotate kw2 vs.
Proof.
  unfold annotate. rewrite map_map. apply map_ext. intros v. reflexivity.
Qed.

Lemma annotateArray_extends `{JsRuntime} keyword a h a' h' :
  annotateArray keyword a h = Some (a', h') -> extends h h'.
Proof.
  unfold annotateArray. destruct (readItems h a) as [vs|]; [| discriminate].
  rewrite allocItems_spec. unfold alloc. intros [= _ <-].
  eexists. rewrite <- app_assoc. reflexivity.
Qed.

Lemma filterArray_extends a h a' h' :
  filterArray a h = Some (a', h') -> extends h h'.
Proof.
  unfold filterArray. destruct (readArray h a) as [ls|]; [| discriminate].
  unfold alloc. intros [= _ <-]. eexists. reflexivity.
Qed.

(** [respond] leaves the cache as it is and only allocates. *)
Lemma respond_state `{JsRuntime} rawKey keyword showOnly hit a mt m h :
  lru (snd (respond rawKey keyword showOnly hit a mt m h)) = m /\
  extends h (store (snd (respond rawKey keyword showOnly hit a mt m h))).
Proof.
  unfold respond.
  destruct (annotateArray keyword a h) as [[a1 h1]|] eqn:A;
    [| split; [reflexivity | apply extends_refl]].
  apply annotateArray_extends in A.
  destruct showOnly.
  - destruct (filterArray a1 h1) as [[a2 h2]|] eqn:F; cbn.
    + apply filterArray_extends in F. split; [reflexivity |].
      eapply extends_trans; eassumption.
    + split; [reflexivity | exact A].
  - cbn. split; [reflexivity | exact A].
Qed.

(** When [respond] returns, the raw items could be read and the answer reads
    as their annotation, filtered when asked. *)
Lemma respond_returns `{JsRuntime} rawKey keyword showOnly hit a mt m h r sv' :
  respond rawKey keyword showOnly hit a mt m h = (Returns r, sv') ->
  exists vs, readItems h a = Some vs /\
             readItems (store sv') (resp_items r)
             = Some (filterMatched showOnly (annotate keyword vs)).
Proof.
  intros E. destruct (readItems h a) as [vs|] eqn:Rd.
  - destruct (respond_spec rawKey keyword showOnly hit a mt m h vs Rd)
      as [out [h' [E' [_ Rd']]]].
    rewrite E' in E. injection E as <- <-. exists vs. split; [reflexivity | exact Rd'].
  - unfold respond, annotateArray in E. rewrite Rd in E. discriminate E.
Qed.

Lemma scrapeFromSearch_returns `{JsRuntime} run search maxCount h a mt h' :
  scrapeFromSearch run search maxCount h = Returns (a, mt, h') ->
  exists searchUrl infos,
    setup run = None /\
    buildSearchUrl search = Returns searchUrl /\
    traverse run searchUrl maxCount = Returns (infos, mt) /\
    extends h h' /\
    readItems h' a = Some (map itemOfInfo infos).
Proof.
  unfold scrapeFromSearch.
  destruct (setup run); [discriminate |].
  destruct (buildSearchUrl search) as [u| |]; try discriminate.
  destruct (traverse run u maxCount) as [[infos m]| |] eqn:T; try discriminate.
  rewrite allocItems_spec. unfold alloc. intros [= <- <- <-].
  exists u, infos. split; [reflexivity |]. split; [reflexivity |].
  split; [exact T |]. split.
  - eexists. rewrite <- app_assoc. reflexivity.
  - rewrite <- app_assoc. apply readItems_alloc_fresh.
Qed.

Lemma scrapeFromSearch_runs `{JsRuntime} run search maxCount h searchUrl infos mt :
  setup run = None ->
  buildSearchUrl search = Returns searchUrl ->
  traverse run searchUrl maxCount = Returns (infos, mt) ->
  exists a h',
    scrapeFromSearch run search maxCount h = Returns (a, mt, h') /\
    extends h h' /\
    readItems h' a = Some (map itemOfInfo infos).
Proof.
  intros S U T. unfold scrapeFromSearch. rewrite S, U, T, allocItems_spec.
  unfold alloc. eexists _, _. split; [reflexivity |]. split.
  - eexists. rewrite <- app_assoc. reflexivity.
  - rewrite <- app_assoc. apply readItems_alloc_fresh.
Qed.

Lemma itemOfInfo_raw infos :
  Forall (fun v => keywordMentioned v = None) (map itemOfInfo infos).
Proof. apply Forall_forall. intros v I. apply in_map_iff in I. destruct I as [i [<- _]]. reflexivity. Qed.

(** A request that misses (or is forced) and whose run returns. *)
Lemma request_miss `{JsRuntime} cfg run nowGet nowSet search keyword maxCount
  showOnly forceRefresh sv searchUrl infos mt :
  (forceRefresh = true \/ mapGet (lruKeyRaw search maxCount) (lru sv) = None) ->
  setup run = None ->
  buildSearchUrl search = Returns searchUrl ->
  traverse run searchUrl maxCount = Returns (infos, mt) ->
  (0 <= CACHE_MAX_ENTRIES cfg)%Z ->
  exists r sv' a,
    scrapeAnnotateAndCache cfg run nowGet nowSet search keyword maxCount
      showOnly forceRefresh sv = (Returns r, sv') /\
    fromCache r = false /\
    resp_metrics r = mt /\
    extends (store sv) (store sv') /\
    lruSet cfg nowSet (lruKeyRaw search maxCount) (a, mt) (lru sv)
    = Some (lru sv') /\
    readItems (store sv') a = Some (map itemOfInfo infos) /\
    readItems (store sv') (resp_items r)
    = Some (filterMatched showOnly (annotate keyword (map itemOfInfo infos))).
Proof.
  intros Miss S U T Cap. unfold scrapeAnnotateAndCache.
  assert (G : (if forceRefresh then (None, lru sv)
               else lruGet cfg nowGet (lruKeyRaw search maxCount) (lru sv))
              = (None, lru sv)).
  { destruct forceRefresh; [reflexivity |].
    destruct Miss as [|M]; [discriminate |]. apply lruGet_absent. exact M. }
  rewrite G.
  destruct (scrapeFromSearch_runs run search maxCount (store sv) _ _ _ S U T)
    as [a [h1 [-> [X1 R1]]]].
  rewrite lruSet_keeps_newest by exact Cap. cbv zeta.
  destruct (respond_spec (lruKeyRaw search maxCount) keyword showOnly false a mt
              (skipn
                 (List.length
                    (mapDelete (lruKeyRaw search maxCount) (lru sv) ++
                     [(lruKeyRaw search maxCount, entryOf (a, mt) nowSet)]) -
                  Z.to_nat (CACHE_MAX_ENTRIES cfg))
                 (mapDelete (lruKeyRaw search maxCount) (lru sv) ++
                  [(lruKeyRaw search maxCount, entryOf (a, mt) nowSet)]))
              h1 _ R1)
    as [out [h2 [-> [X2 R2]]]].
  eexists _, _, a. split; [reflexivity |]. cbn.
  repeat split.
  - eapply extends_trans; eassumption.
  - apply lruSet_keeps_newest. exact Cap.
  - eapply readItems_extends; eassumption.
  - exact R2.
Qed.

(** A request served from a fresh cache entry. *)
Lemma request_hit `{JsRuntime} cfg run nowGet nowSet search keyword maxCount
  showOnly sv e vs :
  mapGet (lruKeyRaw search maxCount) (lru sv) = Some e ->
  (CACHE_TTL_MS cfg <= 0 \/ nowGet - createdAt e <= CACHE_TTL_MS cfg)%Z ->
  readItems (store sv) (items e) = Some vs ->
  exists r sv',
    scrapeAnnotateAndCache cfg run nowGet nowSet search keyword maxCount
      showOnly false sv = (Returns r, sv') /\
    fromCache r = true /\
    resp_metrics r = metrics e /\
    extends (store sv) (store sv') /\
    lru sv' = mapDelete (lruKeyRaw search maxCount) (lru sv)
              ++ [(lruKeyRaw search maxCount, e)] /\
    readItems (store sv') (resp_items r)
    = Some (filterMatched showOnly (annotate keyword vs)).
Proof.
  intros G F Rd. unfold scrapeAnnotateAndCache.
  rewrite (lruGet_fresh _ _ _ _ _ G F).
  destruct (respond_spec (lruKeyRaw search maxCount) keyword showOnly true
              (items e) (metrics e)
              (mapDelete (lruKeyRaw search maxCount) (lru sv)
               ++ [(lruKeyRaw search maxCount, e)]) (store sv) vs Rd)
    as [out [h2 [-> [X2 R2]]]].
  eexists _, _. split; [reflexivity |]. cbn. repeat split; assumption.
Qed.

(** What a request, whatever its outcome, does to the service: the store only
    grows, and a binding of the cache is an earlier binding or the raw result
    of the run. *)
Lemma request_state `{JsRuntime} cfg run nowGet nowSet search keyword maxCount
  showOnly forceRefresh sv :
  let sv' := snd (scrapeAnnotateAndCache cfg run nowGet nowSet search keyword
                    maxCount showOnly forceRefresh sv) in
  extends (store sv) (store sv') /\
  forall k e, In (k, e) (lru sv') ->
    In (k, e) (lru sv) \/
    exists infos, readItems (store sv') (items e) = Some (map itemOfInfo infos).
Proof.
  cbv zeta. unfold scrapeAnnotateAndCache.
  assert (G : forall kv,
             In kv (snd (if forceRefresh then (None, lru sv)
                         else lruGet cfg nowGet (lruKeyRaw search maxCount) (lru sv))) ->
             In kv (lru sv)).
  { intros kv. destruct forceRefresh; [trivial | apply lruGet_In]. }
  destruct (if forceRefresh then (None, lru sv)
            else lruGet cfg nowGet (lruKeyRaw search maxCount) (lru sv))
    as [raw m1].
  cbn [snd] in G. destruct raw as [hit|].
  - destruct (respond_state (lruKeyRaw search maxCount) keyword showOnly true
                (items hit) (metrics hit) m1 (store sv)) as [L X].
    split; [exact X |]. intros k e I. left. apply G. rewrite L in I. exact I.
  - destruct (scrapeFromSearch run search maxCount (store sv))
      as [[[a mt] h1]| |] eqn:Sc; cbn [snd lru store];
      try (split; [apply extends_refl | intros k e I; left; apply G; exact I]).
    destruct (scrapeFromSearch_returns _ _ _ _ _ _ _ Sc)
      as [u [infos [_ [_ [_ [X1 R1]]]]]].
    destruct (lruSet cfg nowSet (lruKeyRaw search maxCount) (a, mt) m1)
      as [m2|] eqn:St; cbn [snd lru store].
    + destruct (respond_state (lruKeyRaw search maxCount) keyword showOnly false
                  a mt m2 h1) as [L X].
      split; [eapply extends_trans; eassumption |].
      intros k e I. rewrite L in I.
      destruct (lruSet_In _ _ _ _ _ _ _ St I) as [I' | [= -> ->]].
      * left. apply G. exact I'.
      * right. exists infos. cbn. eapply readItems_extends; eassumption.
    + split; [exact X1 | intros k e []].
Qed.

Lemma request_returns `{JsRuntime} cfg run nowGet nowSet search keyword maxCount
  showOnly forceRefresh sv r sv' :
  scrapeAnnotateAndCache cfg run nowGet nowSet search keyword maxCount
    showOnly forceRefresh sv = (Returns r, sv') ->
  exists vs, readItems (store sv') (resp_items r)
             = Some (filterMatched showOnly (annotate keyword vs)).
Proof.
  unfold scrapeAnnotateAndCache.
  destruct (if forceRefresh then (None, lru sv)
            else lruGet cfg nowGet (lruKeyRaw search maxCount) (lru sv))
    as [[hit|] m1].
  - intros E. apply respond_returns in E. destruct E as [vs [_ E]]. eauto.
  - destruct (scrapeFromSearch run search maxCount (store sv))
      as [[[a mt] h1]| |]; try discriminate.
    destruct (lruSet cfg nowSet (lruKeyRaw search maxCount) (a, mt) m1);
      [| discriminate].
    intros E. apply respond_returns in E. destruct E as [vs [_ E]]. eauto.
Qed.

Lemma request_keeps_raw `{JsRuntime} cfg run nowGet nowSet search keyword
  maxCount showOnly forceRefresh sv :
  rawCache sv ->
  rawCache (snd (scrapeAnnotateAndCache cfg run nowGet nowSet search keyword
                   maxCount showOnly forceRefresh sv)).
Proof.
  intros Raw k e I.
  destruct (request_state cfg run nowGet nowSet search keyword maxCount
              showOnly forceRefresh sv) as [X Old].
  destruct (Old k e I) as [I' | [infos Rd]].
  - destruct (Raw k e I') as [vs [Rd F]]. exists vs. split; [| exact F].
    eapply readItems_extends; eassumption.
  - exists (map itemOfInfo infos). split; [exact Rd | apply itemOfInfo_raw].
Qed.

(** C2: annotating twice is annotating with the last keyword; annotation
    builds a new array of new objects and leaves the array it reads, and every
    other stored object, as it was; a request leaves the objects of the store
    untouched and keeps a cache of raw items raw; a second request with
    another keyword, served from the entry the first one stored, annotates the
    same raw items. *)
Theorem annotation_never_stored :
  (forall (R : JsRuntime) kw1 kw2 vs,
      annotate kw2 (annotate kw1 vs) = annotate kw2 vs) /\
  (forall (R : JsRuntime) keyword a h vs,
      readItems h a = Some vs ->
      exists a' h',
        annotateArray keyword a h = Some (a', h') /\
        extends h h' /\
        readItems h' a = Some vs /\
        readItems h' a' = Some (annotate keyword vs)) /\
  (forall (R : JsRuntime) cfg run nowGet nowSet search keyword maxCount
          showOnly forceRefresh sv,
      let sv' := snd (scrapeAnnotateAndCache cfg run nowGet nowSet search
                        keyword maxCount showOnly forceRefresh sv) in
      extends (store sv) (store sv') /\ (rawCache sv -> rawCache sv')) /\
  (forall (R : JsRuntime) cfg run run' t1 t2 t3 t4 search kw1 kw2 maxCount
          show1 show2 forceRefresh sv searchUrl infos mt,
      (forceRefresh = true \/
       mapGet (lruKeyRaw search maxCount) (lru sv) = None) ->
      setup run = None ->
      buildSearchUrl search = Returns searchUrl ->
      traverse run searchUrl maxCount = Returns (infos, mt) ->
      (1 <= CACHE_MAX_ENTRIES cfg)%Z ->
      (CACHE_TTL_MS cfg <= 0 \/ t3 - t2 <= CACHE_TTL_MS cfg)%Z ->
      exists r1 sv1 r2 sv2,
        scrapeAnnotateAndCache cfg run t1 t2 search kw1 maxCount show1
          forceRefresh sv = (Returns r1, sv1) /\
        readItems (store sv1) (resp_items r1)
        = Some (filterMatched show1 (annotate kw1 (map itemOfInfo infos))) /\
        scrapeAnnotateAndCache cfg run' t3 t4 search kw2 maxCount show2
          false sv1 = (Returns r2, sv2) /\
        fromCache r2 = true /\
        readItems (store sv2) (resp_items r2)
        = Some (filterMatched show2 (annotate kw2 (map itemOfInfo infos)))).
Proof.
  split; [intros; apply annotate_again |]. split; [| split].
  - intros R keyword a h vs Rd.
    destruct (annotateArray_spec keyword a h vs Rd) as [a' [h' [E [X Rd']]]].
    exists a', h'. split; [exact E |]. split; [exact X |].
    split; [eapply readItems_extends; eassumption | exact Rd'].
  - intros R cfg run nowGet nowSet search keyword maxCount showOnly forceRefresh sv.
    cbv zeta. split.
    + apply request_state.
    + apply request_keeps_raw.
  - intros R cfg run run' t1 t2 t3 t4 search kw1 kw2 maxCount show1 show2
      forceRefresh sv searchUrl infos mt Miss S U T Cap Fresh.
    destruct (request_miss cfg run t1 t2 search kw1 maxCount show1 forceRefresh
                sv searchUrl infos mt Miss S U T)
      as [r1 [sv1 [a [E1 [_ [_ [_ [St [Ra R1]]]]]]]]]; [lia |].
    destruct (lruSet_then_mapGet cfg t2 (lruKeyRaw search maxCount) (a, mt)
                (lru sv) Cap) as [m' [St' G]].
    rewrite St in St'. injection St' as <-.
    destruct (request_hit cfg run' t3 t4 search kw2 maxCount show2 sv1
                (entryOf (a, mt) t2) (map itemOfInfo infos) G Fresh Ra)
      as [r2 [sv2 [E2 [F2 [_ [_ [_ R2]]]]]]].
    exists r1, sv1, r2, sv2. repeat split; assumption.
Qed.

(** A cold request for keyword "abc", then a request for "body" served from
    the cache: the one video matches the first keyword and not the second. *)
Lemma annotation_never_stored_witness :
  exists r1 sv1 r2 sv2,
    @scrapeAnnotateAndCache RefRuntime exampleConfig oneVideoRun 0 10
      (Some (lit "science fact")) (Some (lit "abc")) 3 false false emptyService
    = (Returns r1, sv1) /\
    @scrapeAnnotateAndCache RefRuntime exampleConfig oneVideoRun 20 30
      (Some (lit "science fact")) (Some (lit "body")) 3 false false sv1
    = (Returns r2, sv2) /\
    fromCache r2 = true /\
    option_map (map keywordMentioned) (readItems (store sv1) (resp_items r1))
    = Some [Some true] /\
    option_map (map keywordMentioned) (readItems (store sv2) (resp_items r2))
    = Some [Some false].
Proof.
  destruct annotation_never_stored as [_ [_ [_ H]]].
  destruct (H RefRuntime exampleConfig oneVideoRun oneVideoRun 0%Z 10%Z 20%Z 30%Z
              (Some (lit "science fact")) (Some (lit "abc")) (Some (lit "body"))
              3%N false false false emptyService
              (lit "https://www.tiktok.com/search?q=science%20fact")
              [oneVideo] noMetrics)
    as [r1 [sv1 [r2 [sv2 [E1 [R1 [E2 [F2 R2]]]]]]]];
    try reflexivity.
  - right. reflexivity.
  - cbn. lia.
  - right. cbn. lia.
  - exists r1, sv1, r2, sv2.
    split; [exact E1 |]. split; [exact E2 |]. split; [exact F2 |].
    rewrite R1, R2. split; reflexivity.
Defined.

(** ** The empty keyword *)

Lemma annotate_empty_needle `{JsRuntime} keyword vs :
  norm keyword = [] ->
  annotate keyword vs = map (fun v => withKeywordMentioned v false) vs.
Proof.
  intros E. unfold annotate. apply map_ext. intros v.
  unfold annotateItem. rewrite mentioned_empty_needle by exact E. reflexivity.
Qed.

Lemma filterMatched_none vs :
  filterMatched true (map (fun v => withKeywordMentioned v false) vs) = [].
Proof. cbn. induction vs as [|v vs IH]; cbn; [reflexivity | exact IH]. Qed.

(** C10: a keyword that is absent or empty normalizes to the empty needle, on
    which the matcher answers false; annotation then marks every item
    [keywordMentioned = false] and the filter keeps nothing, so a request with
    such a keyword and [showVideoOnlyWithMatchKeyword] returns, when it
    returns, an empty list; it does return on a fresh cache hit and on a miss
    whose run returns. *)
Theorem empty_keyword_matches_nothing :
  (forall (R : JsRuntime), norm None = [] /\ norm (Some []) = []) /\
  (forall (R : JsRuntime) haystack keyword,
      norm keyword = [] -> contains haystack keyword = false) /\
  (forall (R : JsRuntime) keyword vs,
      norm keyword = [] ->
      Forall (fun v => keywordMentioned v = Some false) (annotate keyword vs) /\
      List.length (annotate keyword vs) = List.length vs /\
      filterMatched true (annotate keyword vs) = []) /\
  (forall (R : JsRuntime) cfg run nowGet nowSet search keyword maxCount
          forceRefresh sv r sv',
      norm keyword = [] ->
      scrapeAnnotateAndCache cfg run nowGet nowSet search keyword maxCount
        true forceRefresh sv = (Returns r, sv') ->
      readItems (store sv') (resp_items r) = Some []) /\
  (forall (R : JsRuntime) cfg run nowGet nowSet search keyword maxCount sv e vs,
      norm keyword = [] ->
      mapGet (lruKeyRaw search maxCount) (lru sv) = Some e ->
      (CACHE_TTL_MS cfg <= 0 \/ nowGet - createdAt e <= CACHE_TTL_MS cfg)%Z ->
      readItems (store sv) (items e) = Some vs ->
      exists r sv',
        scrapeAnnotateAndCache cfg run nowGet nowSet search keyword maxCount
          true false sv = (Returns r, sv') /\
        readItems (store sv') (resp_items r) = Some []) /\
  (forall (R : JsRuntime) cfg run nowGet nowSet search keyword maxCount
          forceRefresh sv searchUrl infos mt,
      norm keyword = [] ->
      (forceRefresh = true \/
       mapGet (lruKeyRaw search maxCount) (lru sv) = None) ->
      setup run = None ->
      buildSearchUrl search = Returns searchUrl ->
      traverse run searchUrl maxCount = Returns (infos, mt) ->
      (0 <= CACHE_MAX_ENTRIES cfg)%Z ->
      exists r sv',
        scrapeAnnotateAndCache cfg run nowGet nowSet search keyword maxCount
          true forceRefresh sv = (Returns r, sv') /\
        readItems (store sv') (resp_items r) = Some []).
Proof.
  split; [intros R; split; [apply norm_null | apply norm_empty] |].
  split; [intros R h n; apply contains_empty_needle |].
  split; [| split; [| split]].
  - intros R keyword vs E. rewrite annotate_empty_needle by exact E.
    split; [| split].
    + apply Forall_forall. intros v I. apply in_map_iff in I.
      destruct I as [v0 [<- _]]. reflexivity.
    + apply length_map.
    + apply filterMatched_none.
  - intros R cfg run nowGet nowSet search keyword maxCount forceRefresh sv r sv' E Rq.
    apply request_returns in Rq. destruct Rq as [vs Rd].
    rewrite Rd, annotate_empty_needle, filterMatched_none by exact E. reflexivity.
  - intros R cfg run nowGet nowSet search keyword maxCount sv e vs E G F Rd.
    destruct (request_hit cfg run nowGet nowSet search keyword maxCount true sv
                e vs G F Rd) as [r [sv' [Rq [_ [_ [_ [_ Rd']]]]]]].
    exists r, sv'. split; [exact Rq |].
    rewrite Rd', annotate_empty_needle, filterMatched_none by exact E. reflexivity.
  - intros R cfg run nowGet nowSet search keyword maxCount forceRefresh sv
      searchUrl infos mt E Miss S U T Cap.
    destruct (request_miss cfg run nowGet nowSet search keyword maxCount true
                forceRefresh sv searchUrl infos mt Miss S U T Cap)
      as [r [sv' [a [Rq [_ [_ [_ [_ [_ Rd']]]]]]]]].
    exists r, sv'. split; [exact Rq |].
    rewrite Rd', annotate_empty_needle, filterMatched_none by exact E. reflexivity.
Qed.

(** A cold request with the empty keyword and the filter on. *)
Lemma empty_keyword_matches_nothing_witness :
  @norm RefRuntime (Some []) = [] /\
  exists r sv',
    @scrapeAnnotateAndCache RefRuntime exampleConfig oneVideoRun 0 10
      (Some (lit "science fact")) (Some []) 3 true false emptyService
    = (Returns r, sv') /\
    readItems (store sv') (resp_items r) = Some [].
Proof.
  assert (E : @norm RefRuntime (Some []) = []) by reflexivity.
  split; [exact E |].
  destruct empty_keyword_matches_nothing as [_ [_ [_ [_ [_ H]]]]].
  apply (H RefRuntime exampleConfig oneVideoRun 0%Z 10%Z
           (Some (lit "science fact")) (Some []) 3%N false emptyService
           (lit "https://www.tiktok.com/search?q=science%20fact")
           [oneVideo] noMetrics E); try reflexivity.
  - right. reflexivity.
  - cbn. lia.
Defined.

(** ** Invalid searches *)

Lemma buildSearchUrl_empty `{JsRuntime} search :
  trim (orEmpty search) = [] ->
  buildSearchUrl search = Throws (lit "Empty search query").
Proof. unfold buildSearchUrl. intros ->. reflexivity. Qed.

Lemma buildSearchUrl_other_host `{JsRuntime} search u :
  trim (orEmpty search) <> [] ->
  afterScheme (trim (orEmpty search)) <> None ->
  parseURL (trim (orEmpty search)) = Some u ->
  includes (hostname u) (lit "tiktok.com") = false ->
  buildSearchUrl search = Throws (lit "Not a TikTok URL").
Proof.
  unfold buildSearchUrl. intros N S P I.
  destruct (trim (orEmpty search)) as [|c s] eqn:E; [congruence |].
  cbn [isEmpty]. destruct (afterScheme (c :: s)); [| congruence].
  rewrite P, I. reflexivity.
Qed.

(** A search that [buildSearchUrl] rejects fails the request with the same
    error and leaves the service as it was, when the request is not served
    from the cache and the page could be opened. *)
Lemma invalid_search_rejected `{JsRuntime} cfg run nowGet nowSet search keyword
  maxCount showOnly forceRefresh sv message :
  buildSearchUrl search = Throws message ->
  setup run = None ->
  (forceRefresh = true \/ mapGet (lruKeyRaw search maxCount) (lru sv) = None) ->
  scrapeAnnotateAndCache cfg run nowGet nowSet search keyword maxCount
    showOnly forceRefresh sv = (Throws message, sv).
Proof.
  intros B S Miss. unfold scrapeAnnotateAndCache, scrapeFromSearch.
  assert (G : (if forceRefresh then (None, lru sv)
               else lruGet cfg nowGet (lruKeyRaw search maxCount) (lru sv))
              = (None, lru sv)).
  { destruct forceRefresh; [reflexivity |].
    destruct Miss as [|M]; [discriminate |]. apply lruGet_absent. exact M. }
  rewrite G, S, B. destruct sv. reflexivity.
Qed.

(** C8 fails on the code for a host that merely contains "tiktok.com": the
    reference parser reads the host of [foreignHostUrl] as "nottiktok.com",
    [buildSearchUrl] accepts it and searches for its path, the run goes ahead
    and its result is cached. *)
Theorem buildSearchUrl_accepts_foreign_host :
  @parseURL RefRuntime foreignHostUrl
  = Some {| hostname := lit "nottiktok.com"; pathname := lit "/foo";
            searchParams_q := None |} /\
  @buildSearchUrl RefRuntime (Some foreignHostUrl)
  = Returns (lit "https://www.tiktok.com/search?q=foo") /\
  exists r sv',
    @scrapeAnnotateAndCache RefRuntime exampleConfig oneVideoRun 0 10
      (Some foreignHostUrl) (Some (lit "abc")) 5 false false emptyService
    = (Returns r, sv') /\
    fromCache r = false /\
    keysOf (lru sv') = [lit "https://nottiktok.com/foo+5"].
Proof.
  split; [reflexivity |]. split; [reflexivity |].
  eexists _, _. split; [vm_compute; reflexivity |]. split; reflexivity.
Qed.

(** ** More on strings *)

Lemma encodeUTF16_cons c cs :
  encodeUTF16 (c :: cs) = encodeCodePoint c ++ encodeUTF16 cs.
Proof. reflexivity. Qed.

Lemma encodeCodePoint_unit u : (u < 65536)%N -> encodeCodePoint u = [u].
Proof.
  intros L. unfold encodeCodePoint. destruct (N.ltb_spec u 65536); [reflexivity | lia].
Qed.

Lemma encodeCodePoint_pair h l :
  isHighSurrogate h && isLowSurrogate l = true ->
  encodeCodePoint (65536 + (h - 55296) * 1024 + (l - 56320)) = [h; l].
Proof.
  unfold isHighSurrogate, isLowSurrogate, encodeCodePoint.
  rewrite !andb_true_iff, !N.leb_le. intros [[H1 H2] [L1 L2]].
  destruct (N.ltb_spec (65536 + (h - 55296) * 1024 + (l - 56320)) 65536); [lia |].
  replace (65536 + (h - 55296) * 1024 + (l - 56320) - 65536)%N
    with ((l - 56320) + (h - 55296) * 1024)%N by lia.
  rewrite N.div_add by lia. rewrite N.Div0.mod_add.
  rewrite N.div_small, N.mod_small by lia.
  f_equal; [lia | f_equal; lia].
Qed.

(** Decoding surrogate pairs and encoding the code points again gives the
    string back. *)
Lemma encodeUTF16_decodeUTF16 s :
  codeUnits s -> encodeUTF16 (decodeUTF16 s) = s.
Proof.
  assert (G : forall n s, List.length s <= n -> codeUnits s ->
                          encodeUTF16 (decodeUTF16 s) = s).
  { induction n as [|n IH]; intros s0 L V.
    - destruct s0; [reflexivity | cbn in L; lia].
    - destruct s0 as [|h [|l s'']]; [reflexivity | |].
      + cbn. inversion V; subst. rewrite encodeCodePoint_unit by assumption.
        reflexivity.
      + change (decodeUTF16 (h :: l :: s''))
          with (if isHighSurrogate h && isLowSurrogate l
                then (65536 + (h - 55296) * 1024 + (l - 56320))%N :: decodeUTF16 s''
                else h :: decodeUTF16 (l :: s'')).
        inversion V as [|? ? Vh V']; subst. inversion V' as [|? ? Vl V'']; subst.
        destruct (isHighSurrogate h && isLowSurrogate l) eqn:P;
          rewrite encodeUTF16_cons.
        * rewrite encodeCodePoint_pair by exact P.
          rewrite IH; [reflexivity | cbn in L |- *; lia | exact V''].
        * rewrite encodeCodePoint_unit by exact Vh.
          rewrite IH; [reflexivity | cbn in L |- *; lia | exact V']. }
  intros V. apply (G (List.length s)); [lia | exact V].
Qed.

Lemma filter_all {X} (p : X -> bool) l :
  Forall (fun x => p x = true) l -> filter p l = l.
Proof.
  induction 1 as [|x l Px _ IH]; cbn; [reflexivity |]. rewrite Px, IH. reflexivity.
Qed.

(** X1: on a string of code units none of whose code points has the property
    Diacritic, the replacement of [norm] changes nothing. *)
Theorem removeDiacritics_unchanged (R : JsRuntime) s :
  codeUnits s ->
  Forall (fun c => isDiacritic c = false) (decodeUTF16 s) ->
  removeDiacritics s = s.
Proof.
  intros V D. unfold removeDiacritics. rewrite filter_all.
  - apply encodeUTF16_decodeUTF16. exact V.
  - eapply Forall_impl; [| exact D]. cbn. intros c ->. reflexivity.
Qed.

Lemma removeDiacritics_unchanged_witness :
  codeUnits (lit "science fact") /\
  @removeDiacritics RefRuntime (lit "science fact") = lit "science fact".
Proof.
  assert (V : codeUnits (lit "science fact"))
    by (repeat constructor).
  split; [exact V |].
  apply (removeDiacritics_unchanged RefRuntime _ V).
  repeat constructor.
Defined.

Lemma occursIn_refl s : occursIn s s.
Proof. exists [], []. rewrite app_nil_r. reflexivity. Qed.

Lemma occursIn_trans a b c : occursIn a b -> occursIn b c -> occursIn a c.
Proof.
  intros [p1 [q1 ->]] [p2 [q2 ->]]. exists (p2 ++ p1), (q1 ++ q2).
  rewrite <- !app_assoc. reflexivity.
Qed.

(** X2: a text whose normalized form is not empty contains itself, and a
    keyword that matches an item keeps matching when it is replaced by a
    keyword whose non-empty normalized form occurs inside its own: whatever
    "cafes" matches, "cafe" matches. *)
Theorem keyword_match_monotone (R : JsRuntime) :
  (forall s, contains s s = negb (isEmpty (norm s))) /\
  (forall long short v,
      mentioned long v = true ->
      norm short <> [] ->
      occursIn (norm short) (norm long) ->
      mentioned short v = true).
Proof.
  split.
  - intros s. unfold contains. cbv zeta.
    replace (includes (norm s) (norm s)) with true; [apply andb_true_r |].
    symmetry. apply includes_occursIn, occursIn_refl.
  - intros long short v M N O. apply mentioned_spec in M. destruct M as [_ M].
    apply mentioned_spec. split; [exact N |].
    destruct M as [M | [c [I M]]].
    + left. eapply occursIn_trans; eassumption.
    + right. exists c. split; [exact I |]. eapply occursIn_trans; eassumption.
Qed.

Lemma keyword_match_monotone_witness :
  @mentioned RefRuntime (Some (lit "ab")) plainVideo = true /\
  @mentioned RefRuntime (Some (lit "B")) plainVideo = true.
Proof.
  assert (M : @mentioned RefRuntime (Some (lit "ab")) plainVideo = true)
    by reflexivity.
  split; [exact M |].
  apply (proj2 (keyword_match_monotone RefRuntime) (Some (lit "ab"))
           (Some (lit "B")) plainVideo M).
  - discriminate.
  - exists (lit "a"), []. reflexivity.
Defined.

(** ** Trimming *)

Lemma trimStart_allWhiteSpace pre s :
  allWhiteSpace pre -> trimStart (pre ++ s) = trimStart s.
Proof.
  induction 1 as [|u pre Wu _ IH]; cbn; [reflexivity |]. rewrite Wu. exact IH.
Qed.

Lemma trimStart_app s t :
  trimStart s <> [] -> trimStart (s ++ t) = trimStart s ++ t.
Proof.
  induction s as [|u s IH]; cbn; [congruence |].
  destruct (isWhiteSpace u); [exact IH | reflexivity].
Qed.

Lemma trimStart_app_empty s t :
  trimStart s = [] -> trimStart (s ++ t) = trimStart t.
Proof.
  induction s as [|u s IH]; cbn; [reflexivity |].
  destruct (isWhiteSpace u); [exact IH | discriminate].
Qed.

Lemma trimEnd_allWhiteSpace s post :
  allWhiteSpace post -> trimEnd (s ++ post) = trimEnd s.
Proof.
  intros W. unfold trimEnd. rewrite rev_app_distr, trimStart_allWhiteSpace;
    [reflexivity |].
  apply Forall_forall. intros u I. apply in_rev in I.
  revert u I. apply Forall_forall. exact W.
Qed.

Lemma trimStart_suffix s : exists pre, allWhiteSpace pre /\ s = pre ++ trimStart s.
Proof.
  induction s as [|u s [pre [W E]]]; cbn.
  - exists []. split; [constructor | reflexivity].
  - destruct (isWhiteSpace u) eqn:Wu.
    + exists (u :: pre). split; [constructor; assumption |]. cbn. congruence.
    + exists []. split; [constructor | reflexivity].
Qed.

Lemma trimStart_head s u r : trimStart s = u :: r -> isWhiteSpace u = false.
Proof.
  induction s as [|v s IH]; cbn; [discriminate |].
  destruct (isWhiteSpace v) eqn:Wv; [exact IH |]. intros [= <- _]. exact Wv.
Qed.

Lemma trimEnd_prefix s : exists post, allWhiteSpace post /\ s = trimEnd s ++ post.
Proof.
  unfold trimEnd. destruct (trimStart_suffix (rev s)) as [pre [W E]].
  exists (rev pre). split.
  - apply Forall_forall. intros u I. apply in_rev in I.
    revert u I. apply Forall_forall. exact W.
  - rewrite <- rev_app_distr, <- E, rev_involutive. reflexivity.
Qed.

Lemma trimEnd_last s r u : trimEnd s = r ++ [u] -> isWhiteSpace u = false.
Proof.
  unfold trimEnd. intros E. apply (f_equal (@rev N)) in E.
  rewrite rev_involutive, rev_app_distr in E. cbn in E.
  eapply trimStart_head. exact E.
Qed.

Lemma trim_allWhiteSpace s : allWhiteSpace s -> trim s = [].
Proof.
  intros W. unfold trim.
  rewrite <- (app_nil_r s), trimStart_allWhiteSpace by exact W. reflexivity.
Qed.

(** White space around a string does not survive [trim]. *)
Lemma trim_surrounded pre s post :
  allWhiteSpace pre -> allWhiteSpace post -> trim (pre ++ s ++ post) = trim s.
Proof.
  intros Wpre Wpost. unfold trim. rewrite trimStart_allWhiteSpace by exact Wpre.
  destruct (trimStart s) as [|u r] eqn:E.
  - rewrite trimStart_app_empty by exact E.
    fold (trim post). rewrite trim_allWhiteSpace by exact Wpost. reflexivity.
  - rewrite trimStart_app by congruence. rewrite E.
    apply trimEnd_allWhiteSpace. exact Wpost.
Qed.

Lemma trim_noOuterWhiteSpace s : noOuterWhiteSpace (trim s).
Proof.
  unfold trim. split.
  - intros u r E.
    destruct (trimEnd_prefix (trimStart s)) as [post [_ P]].
    rewrite E in P. cbn in P. eapply trimStart_head. exact P.
  - intros r u E. eapply trimEnd_last. exact E.
Qed.

Lemma trim_fixpoint s : noOuterWhiteSpace s -> trim s = s.
Proof.
  intros [H T]. unfold trim.
  assert (S : trimStart s = s).
  { destruct s as [|u r]; [reflexivity |]. cbn. rewrite (H u r eq_refl). reflexivity. }
  rewrite S. unfold trimEnd.
  destruct (rev s) as [|u r] eqn:E.
  - apply (f_equal (@rev N)) in E. rewrite rev_involutive in E. subst s. reflexivity.
  - assert (E' : s = rev r ++ [u])
      by (rewrite <- (rev_involutive s), E; reflexivity).
    cbn. rewrite (T _ _ E'). cbn. symmetry. exact E'.
Qed.

(** ** More on the cache key *)

Lemma string_of_uint_digits d :
  Forall (fun u => isDigit u = true) (lit (NilEmpty.string_of_uint d)).
Proof.
  unfold lit. induction d; cbn; constructor; try assumption; reflexivity.
Qed.

Lemma renderCount_digits n : Forall (fun u => isDigit u = true) (renderCount n).
Proof. apply string_of_uint_digits. Qed.

Lemma split_at_separator {X} (x : X) l1 l2 r1 r2 :
  ~ In x l1 -> ~ In x l2 -> l1 ++ x :: r1 = l2 ++ x :: r2 -> l1 = l2 /\ r1 = r2.
Proof.
  revert l2. induction l1 as [|a l1 IH]; intros [|b l2] N1 N2 E; cbn in *.
  - injection E as <-. split; reflexivity.
  - injection E as <- _. tauto.
  - injection E as -> _. tauto.
  - injection E as <- E.
    assert (H : l1 = l2 /\ r1 = r2) by (apply IH; tauto).
    destruct H as [-> ->]. split; reflexivity.
Qed.

Lemma split_at_last_separator {X} (x : X) l1 l2 r1 r2 :
  ~ In x r1 -> ~ In x r2 -> l1 ++ x :: r1 = l2 ++ x :: r2 -> l1 = l2 /\ r1 = r2.
Proof.
  intros N1 N2 E. apply (f_equal (@rev X)) in E.
  rewrite !rev_app_distr in E. cbn in E. rewrite <- !app_assoc in E. cbn in E.
  apply split_at_separator in E; try (rewrite <- in_rev; assumption).
  destruct E as [Er El].
  apply (f_equal (@rev X)) in Er, El. rewrite !rev_involutive in Er, El.
  split; assumption.
Qed.

Lemma renderCount_no_plus n : ~ In 43%N (renderCount n).
Proof.
  intros I. pose proof (renderCount_digits n) as D.
  rewrite Forall_forall in D. specialize (D _ I). discriminate D.
Qed.

(** X3: for counts that are whole numbers up to 2^53 - 1, which
    [`${maxCount}`] prints digit by digit, two requests share a cache key
    exactly when their trimmed, lower-cased search texts and their counts are
    the same: a "+" inside the search text cannot make two such requests
    collide.  (A count from 10^21 on is printed with an exponent, "1e+21",
    and is not covered.) *)
Theorem lruKeyRaw_injective (R : JsRuntime) s1 n1 s2 n2 :
  (n1 <= maxSafeInteger)%N -> (n2 <= maxSafeInteger)%N ->
  (lruKeyRaw s1 n1 = lruKeyRaw s2 n2 <->
   toLowerCase (trim (orEmpty s1)) = toLowerCase (trim (orEmpty s2)) /\
   n1 = n2).
Proof.
  intros _ _. unfold lruKeyRaw. split.
  - intros E. cbn [lit list_ascii_of_string map app] in E.
    change (lit "+" ++ renderCount n1) with (43%N :: renderCount n1) in E.
    change (lit "+" ++ renderCount n2) with (43%N :: renderCount n2) in E.
    apply split_at_last_separator in E; try apply renderCount_no_plus.
    destruct E as [E1 E2]. split; [exact E1 | apply renderCount_injective; exact E2].
  - intros [-> ->]. reflexivity.
Qed.

Lemma lruKeyRaw_injective_witness :
  (2 <= maxSafeInteger)%N /\ (12 <= maxSafeInteger)%N /\
  @lruKeyRaw RefRuntime (Some (lit "a+1")) 2
  <> @lruKeyRaw RefRuntime (Some (lit "a")) 12.
Proof.
  assert (S2 : (2 <= maxSafeInteger)%N) by (unfold maxSafeInteger; lia).
  assert (S12 : (12 <= maxSafeInteger)%N) by (unfold maxSafeInteger; lia).
  split; [exact S2 |]. split; [exact S12 |].
  intros E.
  apply (lruKeyRaw_injective RefRuntime (Some (lit "a+1")) 2 (Some (lit "a")) 12
           S2 S12) in E.
  destruct E as [_ E]. discriminate E.
Defined.

(** X4: white space before and after the search text never reaches the key,
    and a null search has the key of the empty text. *)
Theorem lruKeyRaw_ignores_outer_white_space (R : JsRuntime) pre s post n :
  allWhiteSpace pre -> allWhiteSpace post ->
  lruKeyRaw (Some (pre ++ s ++ post)) n = lruKeyRaw (Some s) n /\
  lruKeyRaw (Some pre) n = lruKeyRaw None n /\
  lruKeyRaw None n = lit "+" ++ renderCount n.
Proof.
  intros Wpre Wpost. unfold lruKeyRaw. cbn [orEmpty].
  rewrite trim_surrounded by assumption.
  rewrite (trim_allWhiteSpace pre) by exact Wpre.
  change (trim []) with (@nil N). rewrite toLowerCase_empty.
  repeat split.
Qed.

Lemma lruKeyRaw_ignores_outer_white_space_witness :
  allWhiteSpace (lit "  ") /\ allWhiteSpace [9%N; 160%N] /\
  @lruKeyRaw RefRuntime (Some (lit "  " ++ lit "Science Fact" ++ [9%N; 160%N])) 3
  = @lruKeyRaw RefRuntime (Some (lit "Science Fact")) 3.
Proof.
  assert (W1 : allWhiteSpace (lit "  ")) by (repeat constructor).
  assert (W2 : allWhiteSpace [9%N; 160%N]) by (repeat constructor).
  split; [exact W1 |]. split; [exact W2 |].
  exact (proj1 (lruKeyRaw_ignores_outer_white_space RefRuntime _
                  (lit "Science Fact") _ 3%N W1 W2)).
Defined.

(** ** More on the cache *)

Lemma mapDelete_length key m : List.length (mapDelete key m) <= List.length m.
Proof. apply filter_length_le. Qed.

Lemma mapDelete_length_bound key m e :
  mapGet key m = Some e -> List.length (mapDelete key m) < List.length m.
Proof.
  unfold mapGet, mapDelete. induction m as [|[k e'] m IH]; cbn; [discriminate |].
  destruct (jsstring_eqb k key); cbn.
  - intros _. pose proof (filter_length_le
                            (fun kv => negb (jsstring_eqb (fst kv) key)) m). lia.
  - intros G. specialize (IH G). lia.
Qed.

Lemma lruGet_length cfg now key m :
  List.length (snd (lruGet cfg now key m)) <= List.length m.
Proof.
  unfold lruGet, mapAppend. destruct (mapGet key m) as [hit|] eqn:G; [| cbn; lia].
  pose proof (mapDelete_length_bound key m hit G).
  destruct ((CACHE_TTL_MS cfg >? 0)%Z && (now - createdAt hit >? CACHE_TTL_MS cfg)%Z);
    cbn [snd]; [lia |].
  rewrite length_app. cbn. lia.
Qed.

Lemma lruSet_length cfg now key value m m' :
  (0 <= CACHE_MAX_ENTRIES cfg)%Z ->
  lruSet cfg now key value m = Some m' ->
  List.length m' <= Z.to_nat (CACHE_MAX_ENTRIES cfg).
Proof.
  intros C. rewrite lruSet_keeps_newest by exact C. cbv zeta.
  intros [= <-]. rewrite length_skipn. lia.
Qed.

(** X5: the cache operations keep every key at most once, a get never makes
    the cache larger, and after a set the cache holds at most
    [CACHE_MAX_ENTRIES] bindings. *)
Theorem cache_keeps_unique_keys_and_capacity :
  (forall cfg now key m,
      wellFormed m ->
      wellFormed (snd (lruGet cfg now key m)) /\
      List.length (snd (lruGet cfg now key m)) <= List.length m) /\
  (forall cfg now key value m m',
      wellFormed m ->
      (0 <= CACHE_MAX_ENTRIES cfg)%Z ->
      lruSet cfg now key value m = Some m' ->
      wellFormed m' /\
      List.length m' <= Z.to_nat (CACHE_MAX_ENTRIES cfg)).
Proof.
  split.
  - intros cfg now key m W. split; [apply lruGet_wellFormed; exact W |].
    apply lruGet_length.
  - intros cfg now key value m m' W C S. split.
    + eapply lruSet_wellFormed; eassumption.
    + eapply lruSet_length; eassumption.
Qed.

Lemma cache_keeps_unique_keys_and_capacity_witness :
  wellFormed [] /\
  exists m', lruSet exampleConfig 5 (lit "foo+5") (0, noMetrics) [] = Some m' /\
             wellFormed m' /\ List.length m' <= 2.
Proof.
  assert (W : wellFormed []) by constructor.
  split; [exact W |].
  exists [(lit "foo+5", entryOf (0, noMetrics) 5)].
  split; [reflexivity |].
  apply (proj2 cache_keeps_unique_keys_and_capacity exampleConfig 5%Z
           (lit "foo+5") (0, noMetrics) [] _ W).
  - cbn. lia.
  - reflexivity.
Defined.

(** X6: the capacity decides whether a set can work at all.  With a negative
    [CACHE_MAX_ENTRIES] the eviction loop of [lruSet] never ends, so a request
    whose run returned never answers; with capacity 0 the loop evicts the
    binding it has just stored and the cache stays empty. *)
Theorem lruSet_without_capacity :
  (forall cfg now key value m,
      (CACHE_MAX_ENTRIES cfg < 0)%Z -> lruSet cfg now key value m = None) /\
  (forall cfg now key value m,
      CACHE_MAX_ENTRIES cfg = 0%Z -> lruSet cfg now key value m = Some []) /\
  (forall (R : JsRuntime) cfg run nowGet nowSet search keyword maxCount
          showOnly forceRefresh sv searchUrl infos mt,
      (CACHE_MAX_ENTRIES cfg < 0)%Z ->
      (forceRefresh = true \/
       mapGet (lruKeyRaw search maxCount) (lru sv) = None) ->
      setup run = None ->
      buildSearchUrl search = Returns searchUrl ->
      traverse run searchUrl maxCount = Returns (infos, mt) ->
      fst (scrapeAnnotateAndCache cfg run nowGet nowSet search keyword maxCount
             showOnly forceRefresh sv) = Diverges).
Proof.
  split; [| split].
  - intros cfg now key value m C. unfold lruSet. apply evictOldest_negative. exact C.
  - intros cfg now key value m C. rewrite lruSet_keeps_newest by lia. cbv zeta.
    rewrite C. cbn [Z.to_nat]. rewrite Nat.sub_0_r, skipn_all. reflexivity.
  - intros R cfg run nowGet nowSet search keyword maxCount showOnly forceRefresh
      sv searchUrl infos mt C Miss S U T.
    unfold scrapeAnnotateAndCache.
    assert (G : (if forceRefresh then (None, lru sv)
                 else lruGet cfg nowGet (lruKeyRaw search maxCount) (lru sv))
                = (None, lru sv)).
    { destruct forceRefresh; [reflexivity |].
      destruct Miss as [|M]; [discriminate |]. apply lruGet_absent. exact M. }
    rewrite G.
    destruct (scrapeFromSearch_runs run search maxCount (store sv) _ _ _ S U T)
      as [a [h1 [-> _]]].
    unfold lruSet. rewrite evictOldest_negative by exact C. reflexivity.
Qed.

Lemma lruSet_without_capacity_witness :
  lruSet {| CACHE_TTL_MS := 0; CACHE_MAX_ENTRIES := -1 |} 5 (lit "foo+5")
    (0, noMetrics) [] = None.
Proof.
  apply (proj1 lruSet_without_capacity). cbn. lia.
Defined.

Lemma mapGet_snoc_other key k e m :
  k <> key -> mapGet k (m ++ [(key, e)]) = mapGet k m.
Proof.
  intros D. rewrite mapGet_app. destruct (mapGet k m); [reflexivity |].
  unfold mapGet. cbn. apply not_eq_sym, jsstring_eqb_neq in D. rewrite D. reflexivity.
Qed.

(** X7: a get concerns one key only: whatever it does to its own binding
    (touch or expiry), every other key stays bound to the same entry; after a
    fresh get the key is still bound to the entry returned, after an expired
    one it is unbound. *)
Theorem lruGet_touches_one_key cfg now key m :
  (forall k, k <> key ->
             mapGet k (snd (lruGet cfg now key m)) = mapGet k m) /\
  mapGet key (snd (lruGet cfg now key m)) = fst (lruGet cfg now key m).
Proof.
  unfold lruGet, mapAppend. destruct (mapGet key m) as [hit|] eqn:G.
  - destruct ((CACHE_TTL_MS cfg >? 0)%Z && (now - createdAt hit >? CACHE_TTL_MS cfg)%Z);
      cbn [fst snd]; split.
    + intros k D. apply mapGet_mapDelete_other. exact D.
    + apply mapGet_mapDelete.
    + intros k D. rewrite mapGet_snoc_other by exact D.
      apply mapGet_mapDelete_other. exact D.
    + rewrite mapGet_app, mapGet_mapDelete. apply mapGet_single.
  - cbn [fst snd]. split; [reflexivity | exact G].
Qed.

(** X8: while there is room a set evicts nothing: the new binding becomes the
    newest and every other key stays bound to the same entry. *)
Theorem lruSet_with_room cfg now key value m :
  (Z.of_nat (List.length (mapDelete key m)) < CACHE_MAX_ENTRIES cfg)%Z ->
  lruSet cfg now key value m
  = Some (mapDelete key m ++ [(key, entryOf value now)]) /\
  forall m', lruSet cfg now key value m = Some m' ->
             mapGet key m' = Some (entryOf value now) /\
             forall k, k <> key -> mapGet k m' = mapGet k m.
Proof.
  intros Room.
  assert (S : lruSet cfg now key value m
              = Some (mapDelete key m ++ [(key, entryOf value now)])).
  { rewrite lruSet_keeps_newest by lia. cbv zeta. rewrite length_app. cbn [List.length].
    replace (List.length (mapDelete key m) + 1 - Z.to_nat (CACHE_MAX_ENTRIES cfg))
      with 0 by lia.
    reflexivity. }
  split; [exact S |]. intros m' E. rewrite S in E. injection E as <-. split.
  - rewrite mapGet_app, mapGet_mapDelete. apply mapGet_single.
  - intros k D. rewrite mapGet_snoc_other by exact D.
    apply mapGet_mapDelete_other. exact D.
Qed.

Lemma lruSet_with_room_witness :
  (Z.of_nat (List.length (mapDelete (lit "b+5") [(lit "a+5", entryOf (0%nat, noMetrics) 1)]))
   < CACHE_MAX_ENTRIES exampleConfig)%Z /\
  lruSet exampleConfig 2 (lit "b+5") (1%nat, noMetrics)
    [(lit "a+5", entryOf (0%nat, noMetrics) 1)]
  = Some (mapDelete (lit "b+5") [(lit "a+5", entryOf (0%nat, noMetrics) 1)]
          ++ [(lit "b+5", entryOf (1%nat, noMetrics) 2)]).
Proof.
  assert (H : (Z.of_nat (List.length (mapDelete (lit "b+5")
                                        [(lit "a+5", entryOf (0%nat, noMetrics) 1)]))
               < CACHE_MAX_ENTRIES exampleConfig)%Z) by (cbn; lia).
  split; [exact H |].
  exact (proj1 (lruSet_with_room exampleConfig 2%Z (lit "b+5") (1%nat, noMetrics)
                  [(lit "a+5", entryOf (0%nat, noMetrics) 1)] H)).
Defined.

Lemma existsb_bound key m :
  existsb (fun kv => jsstring_eqb (fst kv) key) m = true <->
  exists e, mapGet key m = Some e.
Proof.
  unfold mapGet. induction m as [|[k e] m IH]; cbn.
  - split; [discriminate | intros [e E]; discriminate].
  - destruct (jsstring_eqb k key); cbn; [split; eauto | exact IH].
Qed.

(** X9: [clearCacheEntry] answers whether the key was bound, unbinds it and
    nothing else, and does not touch the store; a request for that key that
    follows is not served from the cache.  [clearCacheAll] answers the number
    of bindings and leaves none. *)
Theorem clearCache_clears (R : JsRuntime) search maxCount sv :
  let key := lruKeyRaw search maxCount in
  let sv' := snd (clearCacheEntry search maxCount sv) in
  (fst (clearCacheEntry search maxCount sv) = true <->
   exists e, mapGet key (lru sv) = Some e) /\
  mapGet key (lru sv') = None /\
  (forall k, k <> key -> mapGet k (lru sv') = mapGet k (lru sv)) /\
  store sv' = store sv /\
  (forall cfg now, lruGet cfg now key (lru sv') = (None, lru sv')) /\
  fst (clearCacheAll sv) = List.length (lru sv) /\
  (forall k, mapGet k (lru (snd (clearCacheAll sv))) = None).
Proof.
  cbv zeta. unfold clearCacheEntry, clearCacheAll. cbn [fst snd lru store].
  split; [apply existsb_bound |].
  split; [apply mapGet_mapDelete |].
  split; [intros k D; apply mapGet_mapDelete_other; exact D |].
  split; [reflexivity |].
  split; [intros cfg now; apply lruGet_absent, mapGet_mapDelete |].
  split; reflexivity.
Qed.

(** ** More on requests *)

Lemma miss_reads_nothing cfg nowGet key forceRefresh m :
  (forceRefresh = true \/ mapGet key m = None) ->
  (if forceRefresh then (None, m) else lruGet cfg nowGet key m) = (None, m).
Proof.
  intros Miss. destruct forceRefresh; [reflexivity |].
  destruct Miss as [|M]; [discriminate |]. apply lruGet_absent. exact M.
Qed.

(** X10: a request served from a fresh entry never runs the browser: its
    answer and the state it leaves are the same for every run and every later
    clock reading.  It answers [fromCache = true] with the metrics of the
    entry, and it moves the entry to the newest end without renewing
    [createdAt]. *)
Theorem cache_hit_skips_the_run (R : JsRuntime) cfg nowGet search keyword
  maxCount showOnly sv e vs :
  mapGet (lruKeyRaw search maxCount) (lru sv) = Some e ->
  (CACHE_TTL_MS cfg <= 0 \/ nowGet - createdAt e <= CACHE_TTL_MS cfg)%Z ->
  readItems (store sv) (items e) = Some vs ->
  exists r sv',
    (forall run nowSet,
        scrapeAnnotateAndCache cfg run nowGet nowSet search keyword maxCount
          showOnly false sv = (Returns r, sv')) /\
    fromCache r = true /\
    resp_metrics r = metrics e /\
    lru sv' = mapDelete (lruKeyRaw search maxCount) (lru sv)
              ++ [(lruKeyRaw search maxCount, e)] /\
    mapGet (lruKeyRaw search maxCount) (lru sv') = Some e.
Proof.
  intros G F Rd.
  destruct (request_hit cfg oneVideoRun nowGet 0%Z search keyword maxCount showOnly
              sv e vs G F Rd) as [r [sv' [E [Fc [Mt [_ [L _]]]]]]].
  exists r, sv'. split; [| split; [exact Fc | split; [exact Mt | split; [exact L |]]]].
  - intros run nowSet. rewrite <- E. unfold scrapeAnnotateAndCache.
    rewrite (lruGet_fresh _ _ _ _ _ G F). reflexivity.
  - rewrite L, mapGet_app, mapGet_mapDelete. apply mapGet_single.
Qed.

Lemma cache_hit_skips_the_run_witness :
  exists r sv',
    @scrapeAnnotateAndCache RefRuntime exampleConfig
      {| setup := Some (lit "no browser"); traverse := fun _ _ => Diverges |}
      20 30 (Some (lit "foo")) (Some (lit "abc")) 5 false false
      {| lru := [(lit "foo+5", entryOf (0, noMetrics) 10)];
         store := [ItemArray []] |}
    = (Returns r, sv') /\ fromCache r = true.
Proof.
  destruct (cache_hit_skips_the_run RefRuntime exampleConfig 20%Z
              (Some (lit "foo")) (Some (lit "abc")) 5%N false
              {| lru := [(lit "foo+5", entryOf (0, noMetrics) 10)];
                 store := [ItemArray []] |}
              (entryOf (0, noMetrics) 10) [])
    as [r [sv' [E [F _]]]].
  - reflexivity.
  - right. cbn. lia.
  - reflexivity.
  - exists r, sv'. split; [apply E | exact F].
Defined.

(** X11: a request that does not return adds nothing to the cache: every
    binding it leaves was there before. *)
Theorem failed_request_adds_nothing (R : JsRuntime) cfg run nowGet nowSet
  search keyword maxCount showOnly forceRefresh sv :
  (forall r, fst (scrapeAnnotateAndCache cfg run nowGet nowSet search keyword
                    maxCount showOnly forceRefresh sv) <> Returns r) ->
  forall kv,
    In kv (lru (snd (scrapeAnnotateAndCache cfg run nowGet nowSet search keyword
                       maxCount showOnly forceRefresh sv))) ->
    In kv (lru sv).
Proof.
  unfold scrapeAnnotateAndCache.
  assert (G : forall kv,
             In kv (snd (if forceRefresh then (None, lru sv)
                         else lruGet cfg nowGet (lruKeyRaw search maxCount) (lru sv))) ->
             In kv (lru sv)).
  { intros kv. destruct forceRefresh; [trivial | apply lruGet_In]. }
  destruct (if forceRefresh then (None, lru sv)
            else lruGet cfg nowGet (lruKeyRaw search maxCount) (lru sv))
    as [raw m1].
  cbn [snd] in G. destruct raw as [hit|].
  - intros _ kv I.
    rewrite (proj1 (respond_state (lruKeyRaw search maxCount) keyword showOnly
                      true (items hit) (metrics hit) m1 (store sv))) in I.
    apply G. exact I.
  - destruct (scrapeFromSearch run search maxCount (store sv))
      as [[[a mt] h1]| |] eqn:Sc; cbn [fst snd lru]; try (intros _; exact G).
    destruct (scrapeFromSearch_returns _ _ _ _ _ _ _ Sc)
      as [u [infos [_ [_ [_ [_ R1]]]]]].
    destruct (lruSet cfg nowSet (lruKeyRaw search maxCount) (a, mt) m1) as [m2|];
      cbn [fst snd lru]; [| intros _ kv []].
    destruct (respond_spec (lruKeyRaw search maxCount) keyword showOnly false a mt
                m2 h1 _ R1) as [out [h2 [-> _]]].
    intros N. exfalso. eapply N. reflexivity.
Qed.

Lemma failed_request_adds_nothing_witness :
  lru (snd (@scrapeAnnotateAndCache RefRuntime exampleConfig oneVideoRun 0 10
              (Some (lit "   ")) (Some (lit "abc")) 5 false false emptyService))
  = [].
Proof.
  pose proof (failed_request_adds_nothing RefRuntime exampleConfig oneVideoRun
                0%Z 10%Z (Some (lit "   ")) (Some (lit "abc")) 5%N false false
                emptyService) as H.
  destruct (lru (snd (@scrapeAnnotateAndCache RefRuntime exampleConfig oneVideoRun
                        0 10 (Some (lit "   ")) (Some (lit "abc")) 5 false false
                        emptyService))) as [|kv m] eqn:E; [reflexivity |].
  exfalso. apply (H (fun r => ltac:(discriminate)) kv). left. reflexivity.
Defined.

(** X12: a forced request whose run returns overwrites what the cache held
    for the key: the key is bound to the new raw items and metrics, stamped
    with the clock reading of this [lruSet], and the answer is not from the
    cache. *)
Theorem forceRefresh_overwrites (R : JsRuntime) cfg run nowGet nowSet search
  keyword maxCount showOnly sv searchUrl infos mt :
  setup run = None ->
  buildSearchUrl search = Returns searchUrl ->
  traverse run searchUrl maxCount = Returns (infos, mt) ->
  (1 <= CACHE_MAX_ENTRIES cfg)%Z ->
  exists r sv' e,
    scrapeAnnotateAndCache cfg run nowGet nowSet search keyword maxCount
      showOnly true sv = (Returns r, sv') /\
    fromCache r = false /\
    resp_metrics r = mt /\
    mapGet (lruKeyRaw search maxCount) (lru sv') = Some e /\
    createdAt e = nowSet /\
    metrics e = mt /\
    readItems (store sv') (items e) = Some (map itemOfInfo infos).
Proof.
  intros S U T C.
  destruct (request_miss cfg run nowGet nowSet search keyword maxCount showOnly
              true sv searchUrl infos mt (or_introl eq_refl) S U T)
    as [r [sv' [a [E [Fc [Mt [_ [St [Ra _]]]]]]]]]; [lia |].
  destruct (lruSet_then_mapGet cfg nowSet (lruKeyRaw search maxCount) (a, mt)
              (lru sv) C) as [m' [St' G]].
  rewrite St in St'. injection St' as <-.
  exists r, sv', (entryOf (a, mt) nowSet).
  repeat split; assumption.
Qed.

Lemma forceRefresh_overwrites_witness :
  exists r sv' e,
    @scrapeAnnotateAndCache RefRuntime exampleConfig oneVideoRun 20 30
      (Some (lit "foo")) (Some (lit "abc")) 5 false true
      {| lru := [(lit "foo+5", entryOf (0, noMetrics) 10)];
         store := [ItemArray []] |}
    = (Returns r, sv') /\
    mapGet (lit "foo+5") (lru sv') = Some e /\ createdAt e = 30%Z.
Proof.
  destruct (forceRefresh_overwrites RefRuntime exampleConfig oneVideoRun 20%Z 30%Z
              (Some (lit "foo")) (Some (lit "abc")) 5%N false
              {| lru := [(lit "foo+5", entryOf (0, noMetrics) 10)];
                 store := [ItemArray []] |}
              (lit "https://www.tiktok.com/search?q=foo") [oneVideo] noMetrics)
    as [r [sv' [e [E [_ [_ [G [Cr _]]]]]]]]; try reflexivity.
  - cbn. lia.
  - exists r, sv', e. split; [exact E |]. split; [exact G | exact Cr].
Defined.

(** X13: a search that is empty after trimming, and a URL whose host does not
    contain "tiktok.com", are refused when the request is not served from the
    cache and the page could be opened: the request throws "Empty search
    query" or "Not a TikTok URL", and cache and store are left exactly as they
    were. *)
Theorem invalid_search_leaves_service_unchanged (R : JsRuntime) cfg run nowGet
  nowSet search keyword maxCount showOnly forceRefresh sv :
  setup run = None ->
  (forceRefresh = true \/ mapGet (lruKeyRaw search maxCount) (lru sv) = None) ->
  (trim (orEmpty search) = [] ->
   scrapeAnnotateAndCache cfg run nowGet nowSet search keyword maxCount
     showOnly forceRefresh sv = (Throws (lit "Empty search query"), sv)) /\
  (forall u,
      trim (orEmpty search) <> [] ->
      afterScheme (trim (orEmpty search)) <> None ->
      parseURL (trim (orEmpty search)) = Some u ->
      includes (hostname u) (lit "tiktok.com") = false ->
      scrapeAnnotateAndCache cfg run nowGet nowSet search keyword maxCount
        showOnly forceRefresh sv = (Throws (lit "Not a TikTok URL"), sv)).
Proof.
  intros S Miss. split.
  - intros E. apply invalid_search_rejected; try assumption.
    apply buildSearchUrl_empty. exact E.
  - intros u N H P I. apply invalid_search_rejected; try assumption.
    eapply buildSearchUrl_other_host; eassumption.
Qed.

Lemma invalid_search_leaves_service_unchanged_witness :
  @scrapeAnnotateAndCache RefRuntime exampleConfig oneVideoRun 0 10
    (Some (lit "http://example.com/x")) (Some (lit "abc")) 5 false false
    emptyService
  = (Throws (lit "Not a TikTok URL"), emptyService).
Proof.
  refine (proj2 (invalid_search_leaves_service_unchanged RefRuntime exampleConfig
                   oneVideoRun 0%Z 10%Z (Some (lit "http://example.com/x"))
                   (Some (lit "abc")) 5%N false false emptyService eq_refl
                   (or_intror eq_refl))
                {| hostname := lit "example.com"; pathname := lit "/x";
                   searchParams_q := None |} _ _ eq_refl eq_refl);
    discriminate.
Defined.

(** X14: a request keeps the cache well formed and within capacity: if every
    key is bound once before it, so it is after, and if the cache held at most
    [CACHE_MAX_ENTRIES] bindings it still does, whatever the outcome. *)
Theorem request_keeps_cache_invariants (R : JsRuntime) cfg run nowGet nowSet
  search keyword maxCount showOnly forceRefresh sv :
  let sv' := snd (scrapeAnnotateAndCache cfg run nowGet nowSet search keyword
                    maxCount showOnly forceRefresh sv) in
  (wellFormed (lru sv) -> wellFormed (lru sv')) /\
  ((0 <= CACHE_MAX_ENTRIES cfg)%Z ->
   List.length (lru sv) <= Z.to_nat (CACHE_MAX_ENTRIES cfg) ->
   List.length (lru sv') <= Z.to_nat (CACHE_MAX_ENTRIES cfg)).
Proof.
  cbv zeta. unfold scrapeAnnotateAndCache.
  assert (G : (wellFormed (lru sv) ->
               wellFormed (snd (if forceRefresh then (None, lru sv)
                                else lruGet cfg nowGet (lruKeyRaw search maxCount)
                                       (lru sv)))) /\
              List.length (snd (if forceRefresh then (None, lru sv)
                                else lruGet cfg nowGet (lruKeyRaw search maxCount)
                                       (lru sv)))
              <= List.length (lru sv)).
  { destruct forceRefresh; cbn [snd].
    - split; [trivial | lia].
    - split; [apply lruGet_wellFormed | apply lruGet_length]. }
  destruct (if forceRefresh then (None, lru sv)
            else lruGet cfg nowGet (lruKeyRaw search maxCount) (lru sv))
    as [raw m1].
  cbn [snd] in G. destruct G as [GW GL]. destruct raw as [hit|].
  - rewrite (proj1 (respond_state (lruKeyRaw search maxCount) keyword showOnly
                      true (items hit) (metrics hit) m1 (store sv))).
    split; [exact GW | lia].
  - destruct (scrapeFromSearch run search maxCount (store sv))
      as [[[a mt] h1]| |]; cbn [snd lru]; try (split; [exact GW | lia]).
    destruct (lruSet cfg nowSet (lruKeyRaw search maxCount) (a, mt) m1)
      as [m2|] eqn:St; cbn [snd lru].
    + rewrite (proj1 (respond_state (lruKeyRaw search maxCount) keyword showOnly
                        false a mt m2 h1)).
      split.
      * intros W. eapply lruSet_wellFormed; [exact St | apply GW; exact W].
      * intros C _. eapply lruSet_length; eassumption.
    + split; [intros _; constructor | cbn; lia].
Qed.

Lemma request_keeps_cache_invariants_witness :
  wellFormed (lru emptyService) /\
  wellFormed (lru (snd (@scrapeAnnotateAndCache RefRuntime exampleConfig
                          oneVideoRun 0 10 (Some (lit "foo")) (Some (lit "abc"))
                          5 false false emptyService))).
Proof.
  assert (W : wellFormed (lru emptyService)) by constructor.
  split; [exact W |].
  exact (proj1 (request_keeps_cache_invariants RefRuntime exampleConfig
                  oneVideoRun 0%Z 10%Z (Some (lit "foo")) (Some (lit "abc")) 5%N
                  false false emptyService) W).
Defined.

Lemma isMatched_annotateItem `{JsRuntime} keyword v :
  isMatched (annotateItem keyword v) = mentioned keyword v.
Proof. unfold isMatched, annotateItem. cbn. destruct (mentioned keyword v); reflexivity. Qed.

(** X15: the filter of the response keeps exactly the items that mention the
    keyword, in their order, each flagged true; filtering twice is filtering
    once; without the filter the response has one item per raw item. *)
Theorem filterMatched_keeps_the_matches (R : JsRuntime) keyword vs :
  filterMatched true (annotate keyword vs)
  = annotate keyword (filter (mentioned keyword) vs) /\
  Forall (fun v => keywordMentioned v = Some true)
         (filterMatched true (annotate keyword vs)) /\
  filterMatched true (filterMatched true (annotate keyword vs))
  = filterMatched true (annotate keyword vs) /\
  List.length (filterMatched false (annotate keyword vs)) = List.length vs.
Proof.
  assert (E : filterMatched true (annotate keyword vs)
              = annotate keyword (filter (mentioned keyword) vs)).
  { cbn [filterMatched]. unfold annotate.
    induction vs as [|v vs IH]; cbn [map filter]; [reflexivity |].
    rewrite isMatched_annotateItem.
    destruct (mentioned keyword v); cbn [map]; rewrite IH; reflexivity. }
  assert (F : Forall (fun v => keywordMentioned v = Some true)
                     (filterMatched true (annotate keyword vs))).
  { rewrite E. apply Forall_forall. intros v I. unfold annotate in I.
    apply in_map_iff in I. destruct I as [v0 [<- I]].
    apply filter_In in I. destruct I as [_ M]. cbn. rewrite M. reflexivity. }
  split; [exact E |]. split; [exact F |]. split.
  - cbn [filterMatched] in *. apply filter_all.
    eapply Forall_impl; [| exact F]. cbn. intros v K. unfold isMatched.
    rewrite K. reflexivity.
  - cbn. unfold annotate. apply length_map.
Qed.

(** ** More on the search URL *)

Lemma decodeUTF16_bound s :
  codeUnits s -> Forall (fun c => (c < 1114112)%N) (decodeUTF16 s).
Proof.
  assert (G : forall n s, List.length s <= n -> codeUnits s ->
                          Forall (fun c => (c < 1114112)%N) (decodeUTF16 s)).
  { induction n as [|n IH]; intros s0 L V.
    - destruct s0; [constructor | cbn in L; lia].
    - destruct s0 as [|h [|l s'']]; [constructor | |].
      + cbn. inversion V; subst. constructor; [lia | constructor].
      + change (decodeUTF16 (h :: l :: s''))
          with (if isHighSurrogate h && isLowSurrogate l
                then (65536 + (h - 55296) * 1024 + (l - 56320))%N :: decodeUTF16 s''
                else h :: decodeUTF16 (l :: s'')).
        inversion V as [|? ? Vh V']; subst. inversion V' as [|? ? Vl V'']; subst.
        destruct (isHighSurrogate h && isLowSurrogate l) eqn:P.
        * constructor; [| apply IH; [cbn in L |- *; lia | exact V'']].
          unfold isHighSurrogate, isLowSurrogate in P.
          rewrite !andb_true_iff, !N.leb_le in P. lia.
        * constructor; [lia | apply IH; [cbn in L |- *; lia | exact V']]. }
  intros V. apply (G (List.length s)); [lia | exact V].
Qed.

Lemma decodeUTF16_no_surrogates s :
  Forall (fun u => isSurrogate u = false) s -> decodeUTF16 s = s.
Proof.
  induction 1 as [|h s Hh _ IH]; [reflexivity |].
  destruct s as [|l s'']; [reflexivity |].
  change (decodeUTF16 (h :: l :: s''))
    with (if isHighSurrogate h && isLowSurrogate l
          then (65536 + (h - 55296) * 1024 + (l - 56320))%N :: decodeUTF16 s''
          else h :: decodeUTF16 (l :: s'')).
  unfold isSurrogate in Hh. apply orb_false_iff in Hh. destruct Hh as [-> _].
  cbn [andb]. rewrite IH. reflexivity.
Qed.

Lemma hexDigit_unreserved d : (d < 16)%N -> isUnreserved (hexDigit d) = true.
Proof.
  intros L.
  assert (H : (d = 0 \/ d = 1 \/ d = 2 \/ d = 3 \/ d = 4 \/ d = 5 \/ d = 6 \/ d = 7
               \/ d = 8 \/ d = 9 \/ d = 10 \/ d = 11 \/ d = 12 \/ d = 13 \/ d = 14
               \/ d = 15)%N) by lia.
  repeat (destruct H as [-> | H]; [reflexivity |]). subst d. reflexivity.
Qed.

Lemma percentEncode_safe b :
  (b < 256)%N -> Forall (fun u => urlSafe u = true) (percentEncode b).
Proof.
  intros L. unfold percentEncode, urlSafe.
  repeat constructor.
  - rewrite hexDigit_unreserved; [reflexivity |].
    apply N.Div0.div_lt_upper_bound. lia.
  - rewrite hexDigit_unreserved; [reflexivity |]. apply N.mod_lt. lia.
Qed.

Lemma utf8_bytes c : (c < 1114112)%N -> Forall (fun b => (b < 256)%N) (utf8 c).
Proof.
  intros L. unfold utf8.
  assert (M : forall x, (x mod 64 < 64)%N) by (intros x; apply N.mod_lt; lia).
  destruct (N.ltb_spec c 128); [repeat constructor; lia |].
  destruct (N.ltb_spec c 2048).
  { assert (c / 64 < 32)%N by (apply N.Div0.div_lt_upper_bound; lia).
    pose proof (M c). repeat constructor; lia. }
  destruct (N.ltb_spec c 65536).
  { assert (c / 4096 < 16)%N by (apply N.Div0.div_lt_upper_bound; lia).
    pose proof (M c). pose proof (M (c / 64)%N). repeat constructor; lia. }
  assert (c / 262144 < 8)%N by (apply N.Div0.div_lt_upper_bound; lia).
  pose proof (M c). pose proof (M (c / 64)%N). pose proof (M (c / 4096)%N).
  repeat constructor; lia.
Qed.

Lemma encodeUnit_safe c :
  (c < 1114112)%N -> Forall (fun u => urlSafe u = true) (encodeUnit c).
Proof.
  intros L. unfold encodeUnit. destruct (isUnreserved c) eqn:U.
  - repeat constructor. unfold urlSafe. rewrite U. reflexivity.
  - pose proof (utf8_bytes c L) as B. induction B as [|b bs Hb _ IH]; cbn [flat_map].
    + constructor.
    + apply Forall_app. split; [apply percentEncode_safe; exact Hb | exact IH].
Qed.

Lemma encodePoints_spec cs :
  encodePoints cs =
  if existsb isSurrogate cs then None else Some (flat_map encodeUnit cs).
Proof.
  induction cs as [|c cs IH]; [reflexivity |].
  cbn [encodePoints existsb flat_map]. fold (isSurrogate c).
  destruct (isSurrogate c); [reflexivity |]. cbn [orb].
  rewrite IH. destruct (existsb isSurrogate cs); reflexivity.
Qed.

(** X16: [encodeURIComponent] fails exactly on a lone surrogate; otherwise it
    writes each code point alone when it is unreserved and as "%XX" bytes when
    not, so that its result, for a string of code units, holds nothing but
    unreserved characters and "%"; a string of unreserved characters is
    returned as it is. *)
Theorem encodeURIComponent_output :
  (forall s, encodeURIComponent s = None <->
             existsb isSurrogate (decodeUTF16 s) = true) /\
  (forall s e, codeUnits s -> encodeURIComponent s = Some e ->
               Forall (fun u => urlSafe u = true) e) /\
  (forall s, Forall (fun u => isUnreserved u = true) s ->
             encodeURIComponent s = Some s).
Proof.
  unfold encodeURIComponent. split; [| split].
  - intros s. rewrite encodePoints_spec.
    destruct (existsb isSurrogate (decodeUTF16 s)); split; congruence.
  - intros s e V. rewrite encodePoints_spec.
    destruct (existsb isSurrogate (decodeUTF16 s)); [discriminate |].
    intros [= <-]. pose proof (decodeUTF16_bound s V) as B.
    induction B as [|c cs Hc _ IH]; cbn [flat_map]; [constructor |].
    apply Forall_app. split; [apply encodeUnit_safe; exact Hc | exact IH].
  - intros s U.
    assert (NS : Forall (fun u => isSurrogate u = false) s).
    { eapply Forall_impl; [| exact U]. cbn. intros u Hu.
      unfold isUnreserved in Hu. unfold isSurrogate, isHighSurrogate, isLowSurrogate.
      destruct (N.leb_spec 55296 u); [| destruct (N.leb_spec 56320 u); [lia | reflexivity]].
      exfalso. revert Hu.
      repeat match goal with
             | |- context [(?a <=? ?b)%N] => destruct (N.leb_spec a b); try lia
             | |- context [(?a =? ?b)%N] => destruct (N.eqb_spec a b); try lia
             end; cbn; discriminate. }
    rewrite decodeUTF16_no_surrogates, encodePoints_spec by exact NS.
    replace (existsb isSurrogate s) with false.
    + f_equal. induction U as [|u s0 Hu _ IH]; [reflexivity |].
      cbn. unfold encodeUnit at 1. rewrite Hu. cbn. f_equal. apply IH.
      inversion NS; assumption.
    + symmetry. apply not_true_is_false. intros X.
      apply existsb_exists in X. destruct X as [u [I X]].
      rewrite Forall_forall in NS. rewrite (NS u I) in X. discriminate.
Qed.

Lemma encodeURIComponent_output_witness :
  codeUnits (lit "science fact") /\
  encodeURIComponent (lit "science fact") = Some (lit "science%20fact") /\
  Forall (fun u => urlSafe u = true) (lit "science%20fact").
Proof.
  assert (V : codeUnits (lit "science fact")) by (repeat constructor).
  assert (E : encodeURIComponent (lit "science fact") = Some (lit "science%20fact"))
    by reflexivity.
  split; [exact V |]. split; [exact E |].
  exact (proj1 (proj2 encodeURIComponent_output) _ _ V E).
Defined.

Lemma searchUrlFor_returns q u :
  searchUrlFor q = Returns u ->
  exists e, encodeURIComponent q = Some e /\ u = searchUrlPrefix ++ e.
Proof.
  unfold searchUrlFor. destruct (encodeURIComponent q) as [e|]; [| discriminate].
  intros [= <-]. exists e. split; reflexivity.
Qed.

Lemma afterScheme_searchUrl e : afterScheme (searchUrlPrefix ++ e) <> None.
Proof. cbn. discriminate. Qed.

(** X17: whatever [buildSearchUrl] returns is a search URL of the target
    site: "https://www.tiktok.com/search?q=" followed by the
    [encodeURIComponent] of a query, so it passes the [http(s)://] test that
    [openFirstVideoFromSearch] makes; no input makes it return a URL on
    another host.  The only error besides the three of its own checks is the
    URIError of [encodeURIComponent]. *)
Theorem buildSearchUrl_returns_search_url (R : JsRuntime) search :
  match buildSearchUrl search with
  | Returns u =>
      exists q e, encodeURIComponent q = Some e /\
                  u = searchUrlPrefix ++ e /\
                  afterScheme u <> None /\
                  trim (orEmpty search) <> []
  | Throws message =>
      message = lit "Empty search query" \/ message = lit "Invalid URL" \/
      message = lit "Not a TikTok URL" \/ message = lit "URI malformed"
  | Diverges => False
  end.
Proof.
  assert (S : forall q, trim (orEmpty search) <> [] ->
                        match searchUrlFor q with
                        | Returns u =>
                            exists q e, encodeURIComponent q = Some e /\
                                        u = searchUrlPrefix ++ e /\
                                        afterScheme u <> None /\
                                        trim (orEmpty search) <> []
                        | Throws message =>
                            message = lit "Empty search query" \/
                            message = lit "Invalid URL" \/
                            message = lit "Not a TikTok URL" \/
                            message = lit "URI malformed"
                        | Diverges => False
                        end).
  { intros q N. unfold searchUrlFor.
    destruct (encodeURIComponent q) as [e|] eqn:E; [| tauto].
    exists q, e. split; [exact E |]. split; [reflexivity |].
    split; [apply afterScheme_searchUrl | exact N]. }
  unfold buildSearchUrl.
  destruct (trim (orEmpty search)) as [|c s] eqn:T; cbn [isEmpty]; [tauto |].
  assert (N : c :: s <> []) by discriminate.
  destruct (afterScheme (c :: s)); [| apply S; exact N].
  destruct (parseURL (c :: s)) as [u|]; [| tauto].
  destruct (negb (includes (hostname u) (lit "tiktok.com"))); [tauto |].
  destruct (isEmpty (orEmpty (searchParams_q u))); apply S; exact N.
Qed.

Lemma encodePoints_no_surrogates s :
  Forall (fun u => isSurrogate u = false) s ->
  encodeURIComponent s = Some (flat_map encodeUnit s).
Proof.
  intros NS. unfold encodeURIComponent.
  rewrite decodeUTF16_no_surrogates, encodePoints_spec by exact NS.
  replace (existsb isSurrogate s) with false; [reflexivity |].
  symmetry. apply not_true_is_false. intros X.
  apply existsb_exists in X. destruct X as [u [I X]].
  rewrite Forall_forall in NS. rewrite (NS u I) in X. discriminate.
Qed.

(** X18: a plain phrase (not empty after trimming, not starting with
    [http(s)://], no surrogate units) is always accepted, whatever characters
    it holds: the search URL carries the trimmed phrase, each unit written by
    [encodeURIComponent]. *)
Theorem buildSearchUrl_accepts_phrase (R : JsRuntime) search :
  trim (orEmpty search) <> [] ->
  afterScheme (trim (orEmpty search)) = None ->
  Forall (fun u => isSurrogate u = false) (trim (orEmpty search)) ->
  buildSearchUrl search
  = Returns (searchUrlPrefix ++ flat_map encodeUnit (trim (orEmpty search))).
Proof.
  intros N A NS. unfold buildSearchUrl.
  destruct (trim (orEmpty search)) as [|c s] eqn:T; [congruence |].
  cbn [isEmpty]. rewrite A. unfold searchUrlFor.
  rewrite encodePoints_no_surrogates by exact NS. reflexivity.
Qed.

Lemma buildSearchUrl_accepts_phrase_witness :
  @buildSearchUrl RefRuntime (Some (lit "  science fact "))
  = Returns (lit "https://www.tiktok.com/search?q=science%20fact").
Proof.
  apply (buildSearchUrl_accepts_phrase RefRuntime (Some (lit "  science fact "))).
  - discriminate.
  - reflexivity.
  - repeat constructor.
Defined.

(** ** More on the page extractor *)

Lemma splitAtFirst_spec stop s :
  s = fst (splitAtFirst stop s) ++ snd (splitAtFirst stop s) /\
  Forall (fun u => stop u = false) (fst (splitAtFirst stop s)).
Proof.
  induction s as [|u s [E F]]; cbn.
  - split; [reflexivity | constructor].
  - destruct (stop u) eqn:Su; cbn.
    + split; [reflexivity | constructor].
    + destruct (splitAtFirst stop s) as [a b]. cbn in *.
      split; [congruence | constructor; assumption].
Qed.

Lemma splitAtFirst_stops stop a x r :
  Forall (fun u => stop u = false) a -> stop x = true ->
  splitAtFirst stop (a ++ x :: r) = (a, x :: r).
Proof.
  intros F Sx. induction F as [|u a Hu _ IH]; cbn.
  - rewrite Sx. reflexivity.
  - rewrite Hu, IH. reflexivity.
Qed.

Lemma splitAtFirst_all stop a :
  Forall (fun u => stop u = false) a -> splitAtFirst stop a = (a, []).
Proof.
  induction 1 as [|u a Hu _ IH]; cbn; [reflexivity |]. rewrite Hu, IH. reflexivity.
Qed.

Lemma afterPrefix_app n r : afterPrefix (n ++ r) n = Some r.
Proof.
  unfold afterPrefix.
  assert (S : startsWith (n ++ r) n = true)
    by (apply startsWith_prefix; exists r; reflexivity).
  rewrite S. f_equal. clear S. induction n as [|a n IH]; [reflexivity | exact IH].
Qed.

Lemma afterPrefix_spec h n r : afterPrefix h n = Some r -> h = n ++ r.
Proof.
  unfold afterPrefix. destruct (startsWith h n) eqn:S; [| discriminate].
  apply startsWith_prefix in S. destruct S as [post ->]. intros [= <-].
  f_equal. induction n as [|a n IH]; [reflexivity | exact IH].
Qed.

Lemma videoPathHere_spec p user vid :
  videoPathHere p = Some (user, vid) ->
  isHandle user /\ isVideoId vid /\
  exists rest, p = lit "/@" ++ user ++ lit "/video/" ++ vid ++ rest.
Proof.
  unfold videoPathHere.
  destruct (afterPrefix p (lit "/@")) as [r|] eqn:A; [| discriminate].
  apply afterPrefix_spec in A.
  pose proof (splitAtFirst_spec isSlash r) as [E F].
  destruct (splitAtFirst isSlash r) as [u r1]. cbn [fst snd] in E, F.
  destruct (afterPrefix r1 (lit "/video/")) as [r2|] eqn:A2; [| discriminate].
  apply afterPrefix_spec in A2.
  pose proof (splitAtFirst_spec (fun c => negb (isDigit c)) r2) as [E2 F2].
  destruct (splitAtFirst (fun c => negb (isDigit c)) r2) as [v rest].
  cbn [fst snd] in E2, F2 |- *.
  destruct (isEmpty u || isEmpty v) eqn:Em; [discriminate |].
  apply orb_false_iff in Em. destruct Em as [Eu Ev].
  intros [= <- <-]. split; [| split].
  - split; [intros ->; discriminate | exact F].
  - split; [intros ->; discriminate |].
    eapply Forall_impl; [| exact F2]. cbn. intros c Hc.
    apply negb_false_iff. exact Hc.
  - exists rest. rewrite A, E, A2, E2. reflexivity.
Qed.

Lemma videoPath_spec p user vid :
  videoPath p = Some (user, vid) -> isHandle user /\ isVideoId vid.
Proof.
  induction p as [|c p IH]; cbn [videoPath]; [discriminate |].
  destruct (videoPathHere (c :: p)) as [[u v]|] eqn:H.
  - intros [= <- <-]. apply videoPathHere_spec in H. tauto.
  - exact IH.
Qed.

Lemma videoPath_canonical user vid :
  isHandle user -> isVideoId vid ->
  videoPath (lit "/@" ++ user ++ lit "/video/" ++ vid) = Some (user, vid).
Proof.
  intros [Nu Fu] [Nv Fv].
  assert (H : videoPathHere (lit "/@" ++ user ++ lit "/video/" ++ vid)
              = Some (user, vid)).
  { unfold videoPathHere. rewrite afterPrefix_app.
    change (lit "/video/" ++ vid) with (47%N :: (lit "video/" ++ vid)).
    rewrite splitAtFirst_stops by (exact Fu || reflexivity).
    change (47%N :: (lit "video/" ++ vid)) with (lit "/video/" ++ vid).
    rewrite afterPrefix_app.
    rewrite splitAtFirst_all
      by (eapply Forall_impl; [| exact Fv]; cbn; intros c ->; reflexivity).
    destruct user; [congruence |]. destruct vid; [congruence |]. reflexivity. }
  change (lit "/@" ++ user ++ lit "/video/" ++ vid)
    with (47%N :: (lit "@" ++ user ++ lit "/video/" ++ vid)) in *.
  cbn [videoPath]. rewrite H. reflexivity.
Qed.

Lemma normalizeVideoUrl_some `{JsRuntime} raw n :
  normalizeVideoUrl raw = Some n ->
  exists user vid, isHandle user /\ isVideoId vid /\
                   n = canonicalVideoUrl user vid.
Proof.
  unfold normalizeVideoUrl. destruct (parseURL raw) as [u|]; [| discriminate].
  destruct (videoPath (pathname u)) as [[user vid]|] eqn:V; [| discriminate].
  intros [= <-]. apply videoPath_spec in V. exists user, vid. tauto.
Qed.

(** X19: [normalizeVideoUrl] answers null or the canonical form
    [https://www.tiktok.com/@<user>/video/<id>] with a non-empty handle free of
    "/" and a non-empty id of digits; a URL whose path is exactly
    [/@<user>/video/<id>] is normalized to the canonical URL of that handle
    and id, so normalizing a canonical URL that the parser reads back gives
    the same URL. *)
Theorem normalizeVideoUrl_canonical (R : JsRuntime) :
  (forall raw n,
      normalizeVideoUrl raw = Some n ->
      exists user vid, isHandle user /\ isVideoId vid /\
                       n = canonicalVideoUrl user vid) /\
  (forall raw u user vid,
      parseURL raw = Some u ->
      pathname u = lit "/@" ++ user ++ lit "/video/" ++ vid ->
      isHandle user -> isVideoId vid ->
      normalizeVideoUrl raw = Some (canonicalVideoUrl user vid)).
Proof.
  split.
  - intros raw n. apply normalizeVideoUrl_some.
  - intros raw u user vid P Pa Hu Hv. unfold normalizeVideoUrl.
    rewrite P, Pa, videoPath_canonical by assumption. reflexivity.
Qed.

Lemma normalizeVideoUrl_canonical_witness :
  @normalizeVideoUrl RefRuntime (lit "https://www.tiktok.com/@bob/video/12")
  = Some (canonicalVideoUrl (lit "bob") (lit "12")) /\
  @normalizeVideoUrl RefRuntime (canonicalVideoUrl (lit "bob") (lit "12"))
  = Some (canonicalVideoUrl (lit "bob") (lit "12")).
Proof.
  assert (H : forall raw,
             @parseURL RefRuntime raw
             = Some {| hostname := lit "www.tiktok.com";
                       pathname := lit "/@bob/video/12";
                       searchParams_q := None |} ->
             @normalizeVideoUrl RefRuntime raw
             = Some (canonicalVideoUrl (lit "bob") (lit "12"))).
  { intros raw P.
    apply (proj2 (normalizeVideoUrl_canonical RefRuntime) raw _ (lit "bob")
             (lit "12") P); try reflexivity.
    - split; [discriminate | repeat constructor].
    - split; [discriminate | repeat constructor]. }
  split; apply H; reflexivity.
Defined.

(** X20: the handle [usernameFromUrl] takes from a URL is never empty, holds
    no "/", and stands in the URL right after "tiktok.com/@". *)
Theorem usernameFromUrl_handle u h :
  usernameFromUrl u = Some h ->
  isHandle h /\ occursIn (lit "tiktok.com/@" ++ h) u.
Proof.
  induction u as [|c u IH]; cbn [usernameFromUrl]; [discriminate |].
  assert (Tl : usernameFromUrl u = Some h ->
               isHandle h /\ occursIn (lit "tiktok.com/@" ++ h) (c :: u)).
  { intros E. destruct (IH E) as [Hh [pre [post ->]]]. split; [exact Hh |].
    exists (c :: pre), post. reflexivity. }
  destruct (afterPrefix (c :: u) (lit "tiktok.com/@")) as [r|] eqn:A; [| exact Tl].
  pose proof (splitAtFirst_spec isSlash r) as [E F].
  destruct (fst (splitAtFirst isSlash r)) as [|x hs] eqn:Hd; cbn [isEmpty];
    [exact Tl |].
  intros [= <-]. split.
  - split; [discriminate | exact F].
  - apply afterPrefix_spec in A. rewrite A, E.
    exists [], (snd (splitAtFirst isSlash r)). cbn [app].
    rewrite <- !app_assoc. reflexivity.
Qed.

Lemma usernameFromUrl_handle_witness :
  usernameFromUrl (lit "https://www.tiktok.com/@bob/video/12") = Some (lit "bob") /\
  isHandle (lit "bob").
Proof.
  assert (E : usernameFromUrl (lit "https://www.tiktok.com/@bob/video/12")
              = Some (lit "bob")) by reflexivity.
  split; [exact E |]. exact (proj1 (usernameFromUrl_handle _ _ E)).
Defined.

(** X21: the title of the record [extractFromPage] builds is the first
    non-null value of (the [ogTitle] of the DOM data, the caption, the
    normalized URL or else the current URL).  The function evaluated in the
    page computes [ogTitle] as the og:title content, else [document.title],
    which is a string: with DOM data from the page the title is that value
    even when it is empty, and neither the caption nor the URL is used.  The
    description is the caption; the URL is the canonical URL whenever the
    current URL normalizes and the URL reported by the page otherwise; when
    the resolver gives no author URL a non-empty username yields the profile
    URL of that username, and the author URL is null only when resolver,
    username and page give none. *)
Theorem resolveFields_fallbacks (R : JsRuntime) currentUrl oembed domData comments :
  let info := resolveFields currentUrl oembed domData comments in
  info_title info
  = Some (match dom_ogTitle domData, resolveCaption oembed domData with
          | Some t, _ => t
          | None, Some c => c
          | None, None => match normalizeVideoUrl currentUrl with
                          | Some n => n
                          | None => currentUrl
                          end
          end) /\
  (forall content documentTitle,
      dom_ogTitle domData = pageOgTitle content documentTitle ->
      info_title info = Some (match content with
                              | Some t => t
                              | None => documentTitle
                              end)) /\
  info_description info = info_caption info /\
  info_url info = match normalizeVideoUrl currentUrl with
                  | Some n => n
                  | None => dom_url domData
                  end /\
  (field oembed author_url = None ->
   truthy (info_username info) = true ->
   info_authorUrl info
   = Some (lit "https://www.tiktok.com/@" ++ orEmpty (info_username info))) /\
  (info_authorUrl info = None ->
   field oembed author_url = None /\ truthy (info_username info) = false /\
   dom_authorUrl domData = None) /\
  info_comments info = comments.
Proof.
  cbv zeta. unfold resolveFields. cbn [info_title info_description info_caption
    info_url info_authorUrl info_username info_comments].
  split; [| split; [| split; [| split; [| split; [| split]]]]]; try reflexivity.
  - destruct (dom_ogTitle domData) as [t|]; [reflexivity |].
    destruct (resolveCaption oembed domData) as [c|]; [reflexivity |]. cbn.
    destruct (normalizeVideoUrl currentUrl) as [n|] eqn:N; [| reflexivity].
    destruct (normalizeVideoUrl_some _ _ N) as [user [vid [_ [_ ->]]]].
    reflexivity.
  - intros content documentTitle ->. destruct content; reflexivity.
  - intros -> T. rewrite T. reflexivity.
  - destruct (field oembed author_url); [discriminate |].
    destruct (truthy (resolveUsername oembed currentUrl domData)); [discriminate |].
    cbn. intros ->. repeat split.
Qed.

Lemma resolveFields_fallbacks_witness :
  dom_ogTitle noDomData = pageOgTitle None [] /\
  info_title (@resolveFields RefRuntime
                (lit "https://www.tiktok.com/@bob/video/12")
                (Some {| oembed_title := Some (lit "a caption");
                         author_name := None; author_url := None;
                         thumbnail_url := None |})
                noDomData [])
  = Some [].
Proof.
  split; [reflexivity |].
  apply (proj1 (proj2 (resolveFields_fallbacks RefRuntime
                         (lit "https://www.tiktok.com/@bob/video/12")
                         (Some {| oembed_title := Some (lit "a caption");
                                  author_name := None; author_url := None;
                                  thumbnail_url := None |})
                         noDomData [])) None []).
  reflexivity.
Defined.

(** ** More on the comment harvest *)

Lemma singleSpaced_weaken b s : singleSpaced true s = true -> singleSpaced b s = true.
Proof.
  destruct s as [|u r]; [trivial |]. cbn [singleSpaced].
  destruct (isWhiteSpace u); [discriminate | trivial].
Qed.

Lemma collapseFrom_singleSpaced b s : singleSpaced b (collapseFrom b s) = true.
Proof.
  revert b. induction s as [|u s IH]; intros b; [reflexivity |].
  cbn [collapseFrom]. destruct (isWhiteSpace u) eqn:W.
  - destruct b; cbn [app].
    + apply IH.
    + cbn [singleSpaced]. change (isWhiteSpace 32) with true. cbn. apply IH.
  - cbn [singleSpaced]. rewrite W. apply IH.
Qed.

Lemma singleSpaced_trimStart b s :
  singleSpaced b s = true -> singleSpaced false (trimStart s) = true.
Proof.
  revert b. induction s as [|u s IH]; intros b; [trivial |].
  cbn [singleSpaced trimStart]. destruct (isWhiteSpace u) eqn:W.
  - rewrite !andb_true_iff. intros [_ S]. eapply IH. exact S.
  - intros S. cbn [singleSpaced]. rewrite W. exact S.
Qed.

Lemma singleSpaced_prefix b s t :
  singleSpaced b (s ++ t) = true -> singleSpaced b s = true.
Proof.
  revert b. induction s as [|u s IH]; intros b; [trivial |].
  cbn [app singleSpaced]. destruct (isWhiteSpace u).
  - rewrite !andb_true_iff. intros [X S]. split; [exact X | eapply IH; exact S].
  - apply IH.
Qed.

Lemma trim_collapse_singleSpaced s :
  singleSpaced false (trim (collapseWhiteSpace s)) = true.
Proof.
  unfold trim, collapseWhiteSpace.
  pose proof (singleSpaced_trimStart false _ (collapseFrom_singleSpaced false s)) as S.
  destruct (trimEnd_prefix (trimStart (collapseFrom false s))) as [post [_ E]].
  rewrite E in S. eapply singleSpaced_prefix. exact S.
Qed.

Lemma trim_nonEmpty_head s u r : trim s = u :: r -> isWhiteSpace u = false.
Proof. intros E. exact (proj1 (trim_noOuterWhiteSpace s) u r E). Qed.

(** X22: every comment the harvest returns has a username that is not empty
    ("unknown" when no handle was found), a text without white space at
    either end in which white space occurs only as single spaces, and a time
    that, when present, is not empty and has no white space at either end. *)
Theorem extractComments_fields B limit hardTimeoutMs w :
  Forall (fun c =>
            comment_username c <> [] /\
            noOuterWhiteSpace (comment_text c) /\
            singleSpaced false (comment_text c) = true /\
            forall t, comment_time c = Some t ->
                      t <> [] /\ noOuterWhiteSpace t)
         (fst (extractComments B limit hardTimeoutMs w)).
Proof.
  unfold extractComments. cbn [fst]. rewrite extractRendered_spec.
  apply Forall_firstn. apply Forall_forall. intros c I.
  unfold renderedComments in I. apply in_flat_map in I.
  destruct I as [t [_ Ic]]. unfold commentOfNode in Ic.
  destruct (isEmpty (trim (collapseWhiteSpace (orEmpty (textContent t)))));
    [destruct Ic |].
  destruct Ic as [<- | []]. cbn [comment_username comment_text comment_time].
  split; [| split; [| split]].
  - destruct (handle t) as [[|u r]|]; cbn; discriminate.
  - apply trim_noOuterWhiteSpace.
  - apply trim_collapse_singleSpaced.
  - intros tm. destruct (trim (orEmpty (timeText t))) as [|u r] eqn:E;
      cbn [isEmpty]; [discriminate |].
    intros [= <-]. split; [discriminate |]. rewrite <- E.
    apply trim_noOuterWhiteSpace.
Qed.

Lemma call_instantFrom B n w :
  instantFrom B n -> n <= calls w -> now (call B w) = now w.
Proof. intros I L. unfold call. cbn [now]. rewrite (I _ L). lia. Qed.

Lemma sleep_instantFrom B n ms w :
  instantFrom B n -> n <= calls w -> now (sleep B ms w) = (now w + ms)%Z.
Proof. intros I L. unfold sleep. cbn [now]. rewrite (I _ L). lia. Qed.

Lemma scrollLoop_clock B limit container deadline lastCount w :
  instantFrom B (calls w) ->
  (now (scrollLoop B limit container deadline lastCount w) <= now w \/
   now (scrollLoop B limit container deadline lastCount w) < deadline + 650)%Z /\
  calls w <= calls (scrollLoop B limit container deadline lastCount w).
Proof.
  funelim (scrollLoop B limit container deadline lastCount w); intros I;
    [| split; [left |]; lia].
  cbv zeta.
  assert (N1 : now (sleep B 350 (call B w)) = (now w + 350)%Z).
  { rewrite (sleep_instantFrom B (calls w)), (call_instantFrom B (calls w));
      try exact I; cbn [calls call]; lia. }
  assert (N2 : now (call B (sleep B 350 (call B w))) = (now w + 350)%Z).
  { rewrite (call_instantFrom B (calls w)); [exact N1 | exact I |].
    cbn [calls call sleep]. lia. }
  destruct (limit <=? List.length (commentNodes (current B (sleep B 350 (call B w)))))%nat.
  - split; [right; lia | cbn [calls call sleep]; lia].
  - match goal with
    | |- context [scrollLoop B limit container deadline ?c ?w'] =>
        assert (N3 : (now w' <= now w + 650)%Z /\ calls w <= calls w')
    end.
    { destruct ((0 <? _)%nat && _ && container).
      - rewrite (sleep_instantFrom B (calls w)), (call_instantFrom B (calls w));
          try exact I; cbn [calls call sleep]; lia.
      - cbn [calls call sleep]. lia. }
    destruct N3 as [N3 C3].
    match goal with
    | |- context [scrollLoop B limit container deadline ?c ?w'] =>
        assert (I' : instantFrom B (calls w'))
          by (intros j Lj; apply I; lia)
    end.
    specialize (H I'). lia.
Qed.

Lemma openPane_calls B selectors w :
  calls w <= calls (openPane B selectors w).
Proof.
  revert w. induction selectors as [|i rest IH]; intros w; cbn [openPane].
  - lia.
  - destruct (openButton (current B w) i).
    + cbn [calls call sleep]. lia.
    + specialize (IH (call B w)). cbn [calls call] in IH. lia.
Qed.

Lemma openPane_clock B selectors w :
  (forall j, calls w <= j < calls (openPane B selectors w) ->
             latency B j = 0%N) ->
  (now w <= now (openPane B selectors w) <= now w + 400)%Z.
Proof.
  revert w. induction selectors as [|i rest IH]; intros w; cbn [openPane].
  - lia.
  - destruct (openButton (current B w) i).
    + cbn [calls call sleep now]. intros I.
      rewrite (I (calls w)), (I (Datatypes.S (calls w))),
        (I (Datatypes.S (Datatypes.S (calls w)))) by lia.
      lia.
    + intros I. pose proof (openPane_calls B rest (call B w)) as C.
      cbn [calls call] in C.
      assert (I' : forall j, calls (call B w) <= j
                             < calls (openPane B rest (call B w)) ->
                             latency B j = 0%N)
        by (intros j Lj; apply I; cbn [calls call] in Lj; lia).
      specialize (IH (call B w) I'). cbn [now call] in IH.
      rewrite (I (calls w)) in IH by lia. lia.
Qed.

(** X23: the harvest is bounded in time.  When the wait for a comment
    selector takes at most its timeout of 3500 ms and the other browser calls
    take no time, the harvest returns less than [hardTimeoutMs + 4850] ms
    after it was called: at most 700 ms to open the pane, the wait, then the
    scroll loop, which starts no round at or after its deadline and whose
    rounds last at most 650 ms. *)
Theorem extractComments_time_bound B limit hardTimeoutMs w :
  instantBut B (paneWait B w) 3500 -> (0 <= hardTimeoutMs)%Z ->
  (now (snd (extractComments B limit hardTimeoutMs w)) - now w
   < hardTimeoutMs + 4850)%Z.
Proof.
  intros [I D] T. unfold paneWait in *. unfold extractComments. cbn [snd].
  set (w1 := sleep B 300 (call B w)) in *.
  set (w2 := openPane B (seq 0 6) w1) in *.
  pose proof (openPane_calls B (seq 0 6) w1) as C2. fold w2 in C2.
  assert (C1 : calls w1 = Datatypes.S (Datatypes.S (calls w))) by reflexivity.
  assert (N1 : now w1 = (now w + 300)%Z).
  { subst w1. cbn [now call sleep calls].
    rewrite (I (calls w)), (I (Datatypes.S (calls w))) by lia. lia. }
  assert (P : (now w1 <= now w2 <= now w1 + 400)%Z).
  { apply openPane_clock. fold w2. intros j Lj. apply I. lia. }
  assert (F : instantFrom B (Datatypes.S (calls w2)))
    by (intros j Lj; apply I; lia).
  set (w3 := call B w2).
  assert (N3 : (now w3 <= now w2 + 3500)%Z) by (subst w3; cbn [now call]; lia).
  set (w4 := call B w3).
  assert (N4 : now w4 = now w3).
  { subst w4. apply (call_instantFrom B _ _ F). reflexivity. }
  assert (F4 : instantFrom B (calls w4))
    by (intros j Lj; apply F; unfold w4, w3 in Lj; cbn [calls call] in Lj; lia).
  pose proof (scrollLoop_clock B limit (truthy (containerSel (current B w3)))
                (now w4 + hardTimeoutMs) 0 w4 F4) as [S C5].
  rewrite (call_instantFrom B _ _ F4 C5). lia.
Qed.

Lemma extractComments_time_bound_witness :
  instantBut slowPaneBrowser (paneWait slowPaneBrowser startOfRun) 3500 /\
  (now (snd (extractComments slowPaneBrowser 20 12000 startOfRun))
   - now startOfRun < 12000 + 4850)%Z.
Proof.
  assert (I : instantBut slowPaneBrowser (paneWait slowPaneBrowser startOfRun)
                3500).
  { change (paneWait slowPaneBrowser startOfRun) with 8%nat. split.
    - intros j Hj. cbn [latency slowPaneBrowser].
      destruct (Nat.eqb_spec j 8); [contradiction | reflexivity].
    - cbn. lia. }
  split; [exact I |].
  apply (extractComments_time_bound slowPaneBrowser 20 12000%Z startOfRun I).
  lia.
Defined.

(** ** More on the navigator *)

Lemma hasChanged_instant B snap w :
  instantCalls B -> now (snd (hasChanged B snap w)) = now w.
Proof.
  intros I. unfold hasChanged.
  repeat match goal with |- context [if ?c then _ else _] => destruct c end;
    cbn [snd]; rewrite ?call_instant by exact I; reflexivity.
Qed.

Lemma poll_clock B snap ld w :
  instantCalls B -> (now w < ld)%Z ->
  (now w <= now (snd (poll B snap ld w)) < ld + 200)%Z.
Proof.
  intros I. funelim (poll B snap ld w); [| lia].
  intros _. pose proof (hasChanged_instant B snap w I) as Hc.
  destruct (fst (hasChanged B snap w)); cbn [snd]; [lia |].
  assert (N : now (sleep B 200 (snd (hasChanged B snap w))) = (now w + 200)%Z)
    by (rewrite sleep_instant by exact I; lia).
  destruct (Z_lt_dec (now (sleep B 200 (snd (hasChanged B snap w)))) localDeadline)
    as [L|L].
  - specialize (H I L). lia.
  - rewrite poll_past by lia. cbn [snd]. lia.
Qed.

Lemma climb_clock B snap deadline rungs n w :
  instantCalls B ->
  (now (snd (climb B snap deadline rungs n w)) < Z.max (now w) deadline + 3200)%Z.
Proof.
  intros I. revert n w. induction rungs as [|r rungs IH]; intros n w.
  - cbn. lia.
  - cbn [climb].
    pose proof (poll_clock B snap (now (act B r w) + 2500) (act B r w) I) as T.
    destruct (poll B snap (now (act B r w) + 2500) (act B r w)) as [changed w2].
    cbn [snd] in T. rewrite act_instant in T by exact I.
    destruct changed.
    + destruct (looksLikeVideo (pageUrl (current B w2))); cbn [snd];
        rewrite ?sleep_instant, ?call_instant by exact I; lia.
    + destruct (Z.geb_spec (now w2) deadline) as [G|G].
      * cbn. lia.
      * specialize (IH (n + 1)%N w2). lia.
Qed.

Lemma climb_attempts B snap deadline rungs n w :
  rungs <> [] ->
  (n + 1 <= snd (fst (climb B snap deadline rungs n w))
   <= n + N.of_nat (List.length rungs) + 1)%N /\
  (fst (fst (climb B snap deadline rungs n w)) = false ->
   (snd (fst (climb B snap deadline rungs n w))
    <= n + N.of_nat (List.length rungs))%N).
Proof.
  revert n w. induction rungs as [|r rungs IH]; intros n w NE; [congruence |].
  cbn [climb].
  destruct (poll B snap (now (act B r w) + 2500) (act B r w)) as [changed w2].
  destruct changed.
  - destruct (looksLikeVideo (pageUrl (current B w2))); cbn [fst snd List.length];
      split; try discriminate; lia.
  - destruct (now w2 >=? deadline)%Z.
    + cbn [fst snd List.length]. split; [lia | intros _; lia].
    + destruct rungs as [|r' rungs'].
      * cbn. split; [lia | intros _; lia].
      * destruct (IH (n + 1)%N w2) as [A1 A2]; [discriminate |].
        cbn [List.length] in *. split; [lia | intros M; specialize (A2 M); lia].
Qed.

(** X24: whatever the page does, [goToNextVideo] makes between one and eight
    attempts: at least the first ladder action, at most the six actions, the
    Enter before them and the Enter after a change; when it reports
    [moved = false] it made at most seven. *)
Theorem goToNextVideo_attempts B timeoutMs w :
  (1 <= attempts (fst (goToNextVideo B timeoutMs w)) <= 8)%N /\
  (moved (fst (goToNextVideo B timeoutMs w)) = false ->
   (attempts (fst (goToNextVideo B timeoutMs w)) <= 7)%N).
Proof.
  unfold goToNextVideo.
  set (w1 := focusClick B _ (call B w)).
  set (offVideo := negb (looksLikeVideo (pageUrl (current B w1)))).
  set (w2 := if offVideo then sleep B 300 (call B w1) else w1).
  set (snap := {| beforeUrl := _; beforeVideoSrc := _; beforeCaption := _ |}).
  set (w3 := call B (call B w2)).
  set (n0 := if offVideo then 1%N else 0%N).
  destruct (climb_attempts B snap (now w3 + timeoutMs) actions n0 w3) as [A1 A2];
    [discriminate |].
  destruct (climb B snap (now w3 + timeoutMs) actions n0 w3) as [[changed n] w4].
  cbn [fst snd moved attempts] in *.
  change (N.of_nat (List.length actions)) with 6%N in *.
  assert (n0 <= 1)%N by (subst n0; destruct offVideo; lia).
  split; [lia | intros M; specialize (A2 M); lia].
Qed.

(** X25: whatever the page does, when browser calls take no time
    [goToNextVideo] returns less than [timeoutMs + 3500] ms after it was
    called: no ladder action starts after the deadline, and an action with its
    poll and the corrective Enter lasts less than 3200 ms. *)
Theorem goToNextVideo_time_bound B timeoutMs w :
  instantCalls B -> (0 <= timeoutMs)%Z ->
  (tookMs (fst (goToNextVideo B timeoutMs w)) < timeoutMs + 3500)%Z.
Proof.
  intros I T. unfold goToNextVideo.
  set (w1 := focusClick B _ (call B w)).
  set (offVideo := negb (looksLikeVideo (pageUrl (current B w1)))).
  set (w2 := if offVideo then sleep B 300 (call B w1) else w1).
  set (snap := {| beforeUrl := _; beforeVideoSrc := _; beforeCaption := _ |}).
  set (w3 := call B (call B w2)).
  set (n0 := if offVideo then 1%N else 0%N).
  pose proof (climb_clock B snap (now w3 + timeoutMs) actions n0 w3 I) as C.
  destruct (climb B snap (now w3 + timeoutMs) actions n0 w3) as [[changed n] w4].
  cbn [fst snd tookMs] in *.
  assert (N3 : (now w3 <= now w + 300)%Z).
  { subst w3 w2 w1. rewrite !call_instant by exact I.
    destruct offVideo;
      rewrite ?sleep_instant, ?call_instant, focusClick_instant, call_instant
        by exact I; lia. }
  lia.
Qed.

Lemma goToNextVideo_time_bound_witness :
  instantCalls staticBrowser /\
  (tookMs (fst (goToNextVideo staticBrowser 12000 startOfRun)) < 12000 + 3500)%Z.
Proof.
  assert (I : instantCalls staticBrowser) by (intros k; reflexivity).
  split; [exact I |].
  apply (goToNextVideo_time_bound staticBrowser 12000%Z startOfRun I). lia.
Defined.

(** ** The video loop *)

Lemma failedSteps_app steps p :
  failedSteps (steps ++ [p])
  = failedSteps steps + match errors p with [] => 0 | _ => 1 end.
Proof.
  unfold failedSteps. rewrite filter_app, length_app. cbn [filter].
  destruct (errors p); reflexivity.
Qed.

Lemma countedComments_app steps p :
  countedComments (steps ++ [p]) = (countedComments steps + commentsCount p)%N.
Proof.
  unfold countedComments.
  induction steps as [|q steps IH]; cbn [app fold_right].
  - lia.
  - rewrite IH. lia.
Qed.

Lemma commentTotal_app infos info :
  commentTotal (infos ++ [info])
  = (commentTotal infos + N.of_nat (List.length (info_comments info)))%N.
Proof.
  unfold commentTotal.
  induction infos as [|x infos IH]; cbn [app fold_right].
  - lia.
  - rewrite IH. lia.
Qed.

Lemma indices_app steps p :
  map index steps = map N.of_nat (seq 0 (List.length steps)) ->
  index p = N.of_nat (List.length steps) ->
  map index (steps ++ [p])
  = map N.of_nat (seq 0 (List.length (steps ++ [p]))).
Proof.
  intros M I. rewrite length_app. cbn [List.length].
  rewrite seq_app, !map_app, M. cbn. rewrite I. reflexivity.
Qed.

Lemma extractFromPage_adds `{JsRuntime} site w infos :
  let ext := fst (extractFromPage site w) in
  roundAdds infos
    (match ext with Returns info => infos ++ [info] | _ => infos end)
    (match ext with
     | Returns info => N.of_nat (List.length (info_comments info))
     | _ => 0%N
     end)
    (match ext with Throws e => [e] | _ => [] end).
Proof.
  cbv zeta. unfold extractFromPage.
  destruct (domDataAt site _) as [message | domData].
  - cbn [fst]. left. repeat split. discriminate.
  - destruct (extractComments _ 20 12000 _) as [comments w2] eqn:E.
    cbn [fst]. right. eexists. split; [reflexivity |].
    split; [reflexivity |]. split; [reflexivity |].
    cbn [info_comments resolveFields].
    apply (f_equal fst) in E. cbn [fst] in E. subst comments.
    unfold extractComments. cbn [fst].
    rewrite extractRendered_spec. apply firstn_le_length.
Qed.

Lemma round_invariant i infos m infos1 comments errs per m3 :
  loopInvariant i infos m ->
  roundAdds infos infos1 comments errs ->
  index per = i -> commentsCount per = comments -> errors per = errs ->
  navSucceeded per = true ->
  perVideo m3 = perVideo m ++ [per] ->
  totalComments m3 = (totalComments m + comments)%N ->
  (captchas m3 <= captchas m + 1)%N ->
  navFailures m3 = navFailures m ->
  loopInvariant (i + 1) infos1 m3.
Proof.
  intros (L & F & NF & T1 & T2 & C20 & NS & IX & CA) A Hi Hc He Hn P T Cm Nv.
  unfold loopInvariant. rewrite P, T, Nv.
  rewrite failedSteps_app, countedComments_app, length_app, He, Hc.
  cbn [List.length].
  assert (IX' : map index (perVideo m ++ [per])
                = map N.of_nat (seq 0 (List.length (perVideo m ++ [per])))).
  { apply indices_app; [exact IX |]. rewrite Hi, L. lia. }
  rewrite length_app in IX'. cbn [List.length] in IX'.
  assert (NS' : Forall (fun p => navSucceeded p = true) (perVideo m ++ [per])).
  { apply Forall_app. split; [exact NS |]. constructor; [exact Hn | constructor]. }
  destruct A as [(-> & -> & E) | (info & -> & -> & -> & B)].
  - destruct errs as [|e errs]; [congruence |].
    repeat match goal with |- _ /\ _ => split end;
      try assumption; try lia.
  - rewrite length_app, commentTotal_app. cbn [List.length].
    repeat match goal with |- _ /\ _ => split end;
      try assumption; try lia.
    apply Forall_app. split; [exact C20 |]. constructor; [exact B | constructor].
Qed.

Lemma round_result maxCount i infos m infos1 comments errs per m3 :
  loopInvariant i infos m ->
  roundAdds infos infos1 comments errs ->
  (i < maxCount)%N ->
  index per = i -> commentsCount per = comments -> errors per = errs ->
  navSucceeded per = false ->
  perVideo m3 = perVideo m ++ [per] ->
  totalComments m3 = (totalComments m + comments)%N ->
  (captchas m3 <= captchas m + 1)%N ->
  navFailures m3 = (if (i =? maxCount - 1)%N then 0%N else 1%N) ->
  loopResult maxCount infos1 m3.
Proof.
  intros (L & F & NF & T1 & T2 & C20 & NS & IX & CA) A Lt Hi Hc He Hn P T Cm Nv.
  unfold loopResult. rewrite P, T, Nv.
  rewrite failedSteps_app, countedComments_app, length_app, He, Hc.
  cbn [List.length].
  assert (IX' : map index (perVideo m ++ [per])
                = map N.of_nat (seq 0 (List.length (perVideo m ++ [per])))).
  { apply indices_app; [exact IX |]. rewrite Hi, L. lia. }
  rewrite length_app in IX'. cbn [List.length] in IX'.
  assert (Last : exists steps last,
             perVideo m ++ [per] = steps ++ [last] /\
             Forall (fun p => navSucceeded p = true) steps /\
             navSucceeded last = false).
  { exists (perVideo m), per. auto. }
  assert (Fl : (if (i =? maxCount - 1)%N then 0%N else 1%N)
               = (if List.length (perVideo m) + 1 <? N.to_nat maxCount
                  then 1%N else 0%N)).
  { destruct (N.eqb_spec i (maxCount - 1));
      destruct (Nat.ltb_spec (List.length (perVideo m) + 1) (N.to_nat maxCount));
      try reflexivity; lia. }
  destruct A as [(-> & -> & E) | (info & -> & -> & -> & B)].
  - destruct errs as [|e errs]; [congruence |].
    repeat match goal with |- _ /\ _ => split end;
      try assumption; try lia.
  - rewrite length_app, commentTotal_app. cbn [List.length].
    repeat match goal with |- _ /\ _ => split end;
      try assumption; try lia.
    apply Forall_app. split; [exact C20 |]. constructor; [exact B | constructor].
Qed.

Lemma captchaCheckpoint_metrics site m w m1 w1 :
  captchaCheckpoint site m w = Some (m1, w1) ->
  perVideo m1 = perVideo m /\ totalComments m1 = totalComments m /\
  navFailures m1 = navFailures m /\
  (captchas m1 <= captchas m + 1)%N /\ (captchas m <= captchas m1)%N.
Proof.
  unfold captchaCheckpoint.
  destruct (challenge site _); [destruct (operatorAnswers site _) |];
    intros [= <- <-]; cbn; repeat split; lia.
Qed.

Lemma videoLoop_result `{JsRuntime} site checkCaptcha maxCount :
  forall r i infos m w infos' m',
    loopInvariant i infos m ->
    N.to_nat i + Datatypes.S r = N.to_nat maxCount ->
    fst (videoLoop site checkCaptcha maxCount (Datatypes.S r) i infos m w)
    = Returns (infos', m') ->
    loopResult maxCount infos' m'.
Proof.
  induction r as [|r IH]; intros i infos m w infos' m' Inv Hi;
    cbn [videoLoop];
    (destruct (if checkCaptcha then captchaCheckpoint site m w else Some (m, w))
       as [[m1 w1]|] eqn:C; [| discriminate]);
    (assert (M1 : perVideo m1 = perVideo m /\ totalComments m1 = totalComments m /\
                  navFailures m1 = navFailures m /\
                  (captchas m1 <= captchas m + 1)%N /\ (captchas m <= captchas m1)%N)
      by (destruct checkCaptcha;
          [ exact (captchaCheckpoint_metrics _ _ _ _ _ C)
          | assert (m1 = m) by congruence; subst m1; repeat split; lia ]));
    destruct M1 as (P1 & T1 & N1 & C1 & _);
    pose proof (extractFromPage_adds site w1 infos) as A; cbv zeta in A;
    destruct (extractFromPage site w1) as [ext w2]; cbn [fst] in A;
    destruct (N.eqb_spec i (maxCount - 1)) as [E | NE]; try lia.
  - (* the last round *)
    cbn [fst]. intros [= <- <-].
    eapply round_result;
      [ exact Inv | exact A | lia | | | | | cbn; rewrite P1; reflexivity
      | cbn; rewrite T1; reflexivity | cbn; exact C1 | ];
      try reflexivity.
    cbn. destruct Inv as (_ & _ & NF & _). rewrite N1, NF.
    destruct (N.eqb_spec i (maxCount - 1)); [reflexivity | contradiction].
  - destruct (goToNextVideo (browser site) 12000 w2) as [navRes w3].
    destruct (moved navRes) eqn:Mv; cbn [negb].
    + (* on to the next video *)
      apply IH; [| lia].
      eapply round_invariant;
        [ exact Inv | exact A | | | | | cbn; rewrite P1; reflexivity
        | cbn; rewrite T1; reflexivity | cbn; exact C1 | cbn; exact N1 ];
        try reflexivity.
      cbn. exact Mv.
    + (* the navigation failed *)
      cbn [fst]. intros [= <- <-].
      eapply round_result;
        [ exact Inv | exact A | lia | | | | | cbn; rewrite P1; reflexivity
        | cbn; rewrite T1; reflexivity | cbn; exact C1 | ];
        try reflexivity.
      * cbn. exact Mv.
      * cbn. destruct Inv as (_ & _ & NF & _). rewrite N1, NF.
        destruct (N.eqb_spec i (maxCount - 1)); [contradiction | reflexivity].
Qed.

Lemma initial_invariant q maxCount :
  loopInvariant 0 [] (initialMetrics q maxCount).
Proof.
  unfold loopInvariant. cbn. repeat split; try constructor; lia.
Qed.

(** The loop touches neither the target, nor the query, nor the count of
    videos; without the checkpoint it does not touch the captcha count. *)
Lemma videoLoop_frame `{JsRuntime} site checkCaptcha maxCount :
  forall rounds i infos m w infos' m',
    fst (videoLoop site checkCaptcha maxCount rounds i infos m w)
    = Returns (infos', m') ->
    videosTargeted m' = videosTargeted m /\
    videosScraped m' = videosScraped m /\
    queryOrStartUrl m' = queryOrStartUrl m /\
    (checkCaptcha = false -> captchas m' = captchas m).
Proof.
  induction rounds as [|r IH]; intros i infos m w infos' m'; cbn [videoLoop].
  - cbn [fst]. intros [= <- <-]. auto.
  - destruct (if checkCaptcha then captchaCheckpoint site m w else Some (m, w))
      as [[m1 w1]|] eqn:C; [| discriminate].
    assert (M1 : videosTargeted m1 = videosTargeted m /\
                 videosScraped m1 = videosScraped m /\
                 queryOrStartUrl m1 = queryOrStartUrl m /\
                 (checkCaptcha = false -> captchas m1 = captchas m)).
    { destruct checkCaptcha.
      - revert C. unfold captchaCheckpoint.
        destruct (challenge site _); [destruct (operatorAnswers site _) |];
          intros [= <- <-]; cbn; repeat split; discriminate.
      - assert (m1 = m) by congruence. subst m1. auto. }
    destruct M1 as (A1 & A2 & A3 & A4).
    destruct (extractFromPage site w1) as [ext w2].
    destruct (N.eqb i (maxCount - 1)).
    + cbn [fst]. intros [= <- <-]. cbn. auto.
    + destruct (goToNextVideo (browser site) 12000 w2) as [navRes w3].
      destruct (negb (moved navRes)).
      * cbn [fst]. intros [= <- <-]. cbn. auto.
      * intros E. apply IH in E. cbn in E.
        destruct E as (E1 & E2 & E3 & E4).
        repeat split; try congruence.
        intros F. rewrite (E4 F). auto.
Qed.


Lemma videoLoop_from_start `{JsRuntime} site checkCaptcha maxCount q w infos m :
  fst (videoLoop site checkCaptcha maxCount (N.to_nat maxCount) 0 []
         (initialMetrics q maxCount) w) = Returns (infos, m) ->
  videosTargeted m = maxCount /\
  ((maxCount = 0%N /\ infos = [] /\ perVideo m = [] /\ navFailures m = 0%N /\
    totalComments m = 0%N /\ captchas m = 0%N) \/
   ((0 < maxCount)%N /\ loopResult maxCount infos m)).
Proof.
  intros E. split.
  - apply videoLoop_frame in E. destruct E as (E & _). exact E.
  - destruct (N.to_nat maxCount) as [|r] eqn:M.
    + left. cbn in E. injection E as <- <-. cbn. repeat split. lia.
    + right. split; [lia |].
      eapply videoLoop_result; [apply initial_invariant | | exact E].
      cbn. lia.
Qed.

Lemma commentTotal_items infos :
  itemComments (map itemOfInfo infos) = commentTotal infos.
Proof.
  unfold itemComments, commentTotal.
  induction infos as [|x infos IH]; cbn [map fold_right].
  - reflexivity.
  - rewrite IH. reflexivity.
Qed.

Lemma commentTotal_bound infos :
  Forall (fun info => List.length (info_comments info) <= 20) infos ->
  (commentTotal infos <= 20 * N.of_nat (List.length infos))%N.
Proof.
  unfold commentTotal.
  induction 1 as [|x infos B F IH]; cbn [fold_right List.length]; lia.
Qed.

(** A run that returned went through the loop from its initial state, and
    set [videosScraped] afterwards. *)
Lemma ranTo_loop `{JsRuntime} site maxCount items m :
  ranTo site maxCount items m ->
  exists infos m0 checkCaptcha q w,
    items = map itemOfInfo infos /\
    m = setVideosScraped m0 (N.of_nat (List.length infos)) /\
    fst (videoLoop site checkCaptcha maxCount (N.to_nat maxCount) 0 []
           (initialMetrics q maxCount) w) = Returns (infos, m0).
Proof.
  intros [(startUrl & w & E) | (search & w & h & a & h' & E & Rd)].
  - revert E. unfold scrapeSequence.
    destruct (gotoError site _); [discriminate |].
    destruct (videoLoop site false maxCount _ 0 [] _ _) as [[[infos m0]| |] w2] eqn:L;
      try discriminate.
    cbn [fst finishRun snd]. intros [= <- <-].
    exists infos, m0, false, (Some startUrl). eexists.
    split; [reflexivity |]. split; [reflexivity |]. exact (f_equal fst L).
  - apply scrapeFromSearch_returns in E.
    destruct E as (searchUrl & infos & _ & _ & T & _ & Rd').
    rewrite Rd in Rd'. injection Rd' as ->.
    revert T. cbn [traverse siteRun]. unfold searchTraversal.
    destruct (openFirstVideoFromSearch site searchUrl _) as [[[]| |] w1];
      try discriminate.
    destruct (videoLoop site true maxCount _ 0 [] _ _) as [[[infos0 m0]| |] w2] eqn:L;
      try discriminate.
    cbn [fst finishRun snd]. intros [= <- <-].
    exists infos0, m0, true, search. eexists.
    split; [reflexivity |]. split; [reflexivity |]. exact (f_equal fst L).
Qed.

Lemma staticRun_ranTo :
  @ranTo RefRuntime staticSite 2 (fst staticRunResult) (snd staticRunResult).
Proof.
  left. exists (lit "https://www.tiktok.com/@someone/video/1"), startOfRun.
  vm_compute. reflexivity.
Qed.

(** X26: for a target [maxCount] that is a whole number up to 2^53 - 1, a run
    of [scrapeSequence] or [scrapeFromSearch] that returns brings at most
    [maxCount] items and at most [maxCount] step records;
    [videosScraped] is the number of items and [videosTargeted] the target;
    every step either added an item or recorded an error; every item has at
    most twenty comments and no [keywordMentioned]; and the captcha count is
    at most the number of steps. *)
Theorem run_counts (R : JsRuntime) site maxCount items m :
  (maxCount <= maxSafeInteger)%N ->
  ranTo site maxCount items m ->
  List.length items <= N.to_nat maxCount /\
  List.length (perVideo m) <= N.to_nat maxCount /\
  videosScraped m = N.of_nat (List.length items) /\
  videosTargeted m = maxCount /\
  List.length items + failedSteps (perVideo m) = List.length (perVideo m) /\
  Forall (fun it => keywordMentioned it = None /\
                    exists cs, comments it = Some cs /\ List.length cs <= 20)
         items /\
  (captchas m <= N.of_nat (List.length (perVideo m)))%N.
Proof.
  intros _ Ran. apply ranTo_loop in Ran.
  destruct Ran as (infos & m0 & c & q & w & -> & -> & L).
  apply videoLoop_from_start in L. rewrite length_map. cbn.
  destruct L as (Tg & [(Z0 & -> & P & _ & _ & Ca) | (Pos & Res)]).
  - rewrite P, Ca. cbn. repeat split; try lia; try assumption. constructor.
  - destruct Res as (L1 & L2 & _ & _ & _ & C20 & _ & _ & Ca).
    repeat split; try lia; try assumption.
    apply Forall_forall. intros it In.
    apply in_map_iff in In. destruct In as (info & <- & In).
    split; [reflexivity |]. exists (info_comments info).
    split; [reflexivity |].
    rewrite Forall_forall in C20. apply C20. exact In.
Qed.

Lemma run_counts_witness :
  (2 <= maxSafeInteger)%N /\
  @ranTo RefRuntime staticSite 2 (fst staticRunResult) (snd staticRunResult) /\
  List.length (fst staticRunResult) <= N.to_nat 2 /\
  videosScraped (snd staticRunResult)
  = N.of_nat (List.length (fst staticRunResult)).
Proof.
  assert (S2 : (2 <= maxSafeInteger)%N) by (unfold maxSafeInteger; lia).
  split; [exact S2 |]. split; [exact staticRun_ranTo |].
  pose proof (run_counts RefRuntime staticSite 2 _ _ S2 staticRun_ranTo)
    as (A & _ & B & _).
  split; [exact A | exact B].
Defined.


(** X28: for a target [maxCount] that is a whole number up to 2^53 - 1, a run
    that returns stopped at the first navigation that failed, and only there.
    [navFailures] is 1 when fewer step records than [maxCount] came back and
    0 otherwise; in the records every step but the last moved on and the last
    did not; and the records carry the indices 0, 1, 2, ... in order. *)
Theorem run_stops_at_failed_navigation (R : JsRuntime) site maxCount items m :
  (maxCount <= maxSafeInteger)%N ->
  ranTo site maxCount items m ->
  navFailures m
  = (if List.length (perVideo m) <? N.to_nat maxCount then 1%N else 0%N) /\
  map index (perVideo m) = map N.of_nat (seq 0 (List.length (perVideo m))) /\
  (maxCount = 0%N -> perVideo m = []) /\
  ((0 < maxCount)%N ->
   exists steps last,
     perVideo m = steps ++ [last] /\
     Forall (fun p => navSucceeded p = true) steps /\
     navSucceeded last = false).
Proof.
  intros _ Ran. apply ranTo_loop in Ran.
  destruct Ran as (infos & m0 & c & q & w & -> & -> & L).
  apply videoLoop_from_start in L. cbn.
  destruct L as (Tg & [(Z0 & -> & P & Nv & _ & _) | (Pos & Res)]).
  - rewrite P, Nv, Z0. cbn. repeat split. lia.
  - destruct Res as (_ & _ & Nv & _ & _ & _ & Last & Ix & _).
    split; [exact Nv |]. split; [exact Ix |].
    split; [lia | intros _; exact Last].
Qed.

Lemma run_stops_at_failed_navigation_witness :
  (2 <= maxSafeInteger)%N /\
  @ranTo RefRuntime staticSite 2 (fst staticRunResult) (snd staticRunResult) /\
  navFailures (snd staticRunResult)
  = (if List.length (perVideo (snd staticRunResult)) <? N.to_nat 2
     then 1%N else 0%N).
Proof.
  assert (S2 : (2 <= maxSafeInteger)%N) by (unfold maxSafeInteger; lia).
  split; [exact S2 |]. split; [exact staticRun_ranTo |].
  exact (proj1 (run_stops_at_failed_navigation RefRuntime staticSite 2 _ _
                  S2 staticRun_ranTo)).
Defined.

(** X29: [totalComments] is the number of comments of the returned items, and
    also the sum of the [commentsCount] of the step records; it is at most
    twenty per item. *)
Theorem run_comment_totals (R : JsRuntime) site maxCount items m :
  ranTo site maxCount items m ->
  totalComments m = itemComments items /\
  totalComments m = countedComments (perVideo m) /\
  (totalComments m <= 20 * N.of_nat (List.length items))%N.
Proof.
  intros Ran. apply ranTo_loop in Ran.
  destruct Ran as (infos & m0 & c & q & w & -> & -> & L).
  apply videoLoop_from_start in L.
  rewrite commentTotal_items, length_map. cbn.
  destruct L as (Tg & [(Z0 & -> & P & _ & T & _) | (Pos & Res)]).
  - rewrite P, T. cbn. repeat split. lia.
  - destruct Res as (_ & _ & _ & T1 & T2 & C20 & _).
    split; [exact T1 |]. split; [exact T2 |].
    rewrite T1. apply commentTotal_bound. exact C20.
Qed.

Lemma run_comment_totals_witness :
  @ranTo RefRuntime staticSite 2 (fst staticRunResult) (snd staticRunResult) /\
  totalComments (snd staticRunResult) = itemComments (fst staticRunResult).
Proof.
  split; [exact staticRun_ranTo |].
  exact (proj1 (run_comment_totals RefRuntime staticSite 2 _ _
                  staticRun_ranTo)).
Defined.

(** ** Opening the first video *)



